(** * Blog tooling: reformatter, date normalizer and archive importer

    A shallow embedding of the three scripts of the repository
    ([spaces.py], [fix_dates.py], [automation.py]) and the properties of
    their text transformations.

    Python strings are sequences of Unicode code points; a file is the
    text it decodes to; the file system is a finite map from paths to
    contents. *)

From Stdlib Require Import NArith ZArith List Bool String Ascii Lia Sorted.
From stdpp Require Import base list gmap.

Open Scope N_scope.
Open Scope list_scope.

(** ** Python strings *)

Module Py.

(** A [str] is a list of code points. *)
Abbreviation char := N (only parsing).
Abbreviation str := (list N) (only parsing).

(** ASCII literals. *)
Definition lit (s : string) : str := map N_of_ascii (list_ascii_of_string s).

Definition nl : N := 10.
Definition cr : N := 13.
Definition dq : str := [34].

(** [str.isspace] on one code point, which is what [str.strip()] with no
    argument and the pattern [\s] use. *)
Definition is_space (c : N) : bool :=
  ((9 <=? c) && (c <=? 13)) || ((28 <=? c) && (c <=? 32))
  || (c =? 133) || (c =? 160) || (c =? 5760)
  || ((8192 <=? c) && (c <=? 8202))
  || (c =? 8232) || (c =? 8233) || (c =? 8239) || (c =? 8287) || (c =? 12288).

Fixpoint take_while (p : N -> bool) (s : str) : str :=
  match s with
  | c :: s' => if p c then c :: take_while p s' else []
  | [] => []
  end.

Fixpoint drop_while (p : N -> bool) (s : str) : str :=
  match s with
  | c :: s' => if p c then drop_while p s' else s
  | [] => []
  end.

(** [s.strip(chars)], for the set of characters [p]. *)
Definition lstrip_of (p : N -> bool) (s : str) : str := drop_while p s.
Definition rstrip_of (p : N -> bool) (s : str) : str :=
  rev (drop_while p (rev s)).
Definition strip_of (p : N -> bool) (s : str) : str :=
  lstrip_of p (rstrip_of p s).

(** [s.strip()] *)
Definition strip (s : str) : str := strip_of is_space s.

(** [s.startswith(p)] *)
Fixpoint startswith (p s : str) : bool :=
  match p, s with
  | [], _ => true
  | a :: p', b :: s' => (a =? b) && startswith p' s'
  | _ :: _, [] => false
  end.

(** [s.endswith(p)] *)
Definition endswith (p s : str) : bool := startswith (rev p) (rev s).

(** [needle in s] *)
Fixpoint contains (needle s : str) : bool :=
  startswith needle s ||
  match s with
  | [] => false
  | _ :: s' => contains needle s'
  end.

(** [a == b] on strings and on lists of strings. *)
Definition str_eqb (a b : str) : bool := bool_decide (a = b).
Definition lines_eqb (a b : list str) : bool := bool_decide (a = b).

(** [str.lower()], with the tables of the Unicode database 14.0.0 that
    CPython 3.11 holds.

    Below U+0100 the letters A-Z and the capital letters of Latin-1
    (U+00C0 to U+00DE without the multiplication sign) are the ones with
    a lower case. *)
Definition lower_char (c : N) : N :=
  if ((65 <=? c) && (c <=? 90))
     || ((192 <=? c) && (c <=? 222) && negb (c =? 215))
  then c + 32 else c.

(** From U+0100 on: [(lo, hi, step, t)] says that the code points [lo],
    [lo + step], ... up to [hi] have the lower case [t], [t + step], ... *)
Definition lower_ranges : list (N * N * N * N) :=
  [
   (256, 302, 2, 257); (306, 310, 2, 307); (313, 327, 2, 314);
   (330, 374, 2, 331); (376, 376, 1, 255); (377, 381, 2, 378);
   (385, 385, 1, 595); (386, 388, 2, 387); (390, 390, 1, 596);
   (391, 391, 1, 392); (393, 394, 1, 598); (395, 395, 1, 396);
   (398, 398, 1, 477); (399, 399, 1, 601); (400, 400, 1, 603);
   (401, 401, 1, 402); (403, 403, 1, 608); (404, 404, 1, 611);
   (406, 406, 1, 617); (407, 407, 1, 616); (408, 408, 1, 409);
   (412, 412, 1, 623); (413, 413, 1, 626); (415, 415, 1, 629);
   (416, 420, 2, 417); (422, 422, 1, 640); (423, 423, 1, 424);
   (425, 425, 1, 643); (428, 428, 1, 429); (430, 430, 1, 648);
   (431, 431, 1, 432); (433, 434, 1, 650); (435, 437, 2, 436);
   (439, 439, 1, 658); (440, 440, 1, 441); (444, 444, 1, 445);
   (452, 452, 1, 454); (453, 453, 1, 454); (455, 455, 1, 457);
   (456, 456, 1, 457); (458, 458, 1, 460); (459, 475, 2, 460);
   (478, 494, 2, 479); (497, 497, 1, 499); (498, 500, 2, 499);
   (502, 502, 1, 405); (503, 503, 1, 447); (504, 542, 2, 505);
   (544, 544, 1, 414); (546, 562, 2, 547); (570, 570, 1, 11365);
   (571, 571, 1, 572); (573, 573, 1, 410); (574, 574, 1, 11366);
   (577, 577, 1, 578); (579, 579, 1, 384); (580, 580, 1, 649);
   (581, 581, 1, 652); (582, 590, 2, 583); (880, 882, 2, 881);
   (886, 886, 1, 887); (895, 895, 1, 1011); (902, 902, 1, 940);
   (904, 906, 1, 941); (908, 908, 1, 972); (910, 911, 1, 973);
   (913, 929, 1, 945); (932, 939, 1, 964); (975, 975, 1, 983);
   (984, 1006, 2, 985); (1012, 1012, 1, 952); (1015, 1015, 1, 1016);
   (1017, 1017, 1, 1010); (1018, 1018, 1, 1019); (1021, 1023, 1, 891);
   (1024, 1039, 1, 1104); (1040, 1071, 1, 1072); (1120, 1152, 2, 1121);
   (1162, 1214, 2, 1163); (1216, 1216, 1, 1231); (1217, 1229, 2, 1218);
   (1232, 1326, 2, 1233); (1329, 1366, 1, 1377); (4256, 4293, 1, 11520);
   (4295, 4295, 1, 11559); (4301, 4301, 1, 11565); (5024, 5103, 1, 43888);
   (5104, 5109, 1, 5112); (7312, 7354, 1, 4304); (7357, 7359, 1, 4349);
   (7680, 7828, 2, 7681); (7838, 7838, 1, 223); (7840, 7934, 2, 7841);
   (7944, 7951, 1, 7936); (7960, 7965, 1, 7952); (7976, 7983, 1, 7968);
   (7992, 7999, 1, 7984); (8008, 8013, 1, 8000); (8025, 8031, 2, 8017);
   (8040, 8047, 1, 8032); (8072, 8079, 1, 8064); (8088, 8095, 1, 8080);
   (8104, 8111, 1, 8096); (8120, 8121, 1, 8112); (8122, 8123, 1, 8048);
   (8124, 8124, 1, 8115); (8136, 8139, 1, 8050); (8140, 8140, 1, 8131);
   (8152, 8153, 1, 8144); (8154, 8155, 1, 8054); (8168, 8169, 1, 8160);
   (8170, 8171, 1, 8058); (8172, 8172, 1, 8165); (8184, 8185, 1, 8056);
   (8186, 8187, 1, 8060); (8188, 8188, 1, 8179); (8486, 8486, 1, 969);
   (8490, 8490, 1, 107); (8491, 8491, 1, 229); (8498, 8498, 1, 8526);
   (8544, 8559, 1, 8560); (8579, 8579, 1, 8580); (9398, 9423, 1, 9424);
   (11264, 11311, 1, 11312); (11360, 11360, 1, 11361); (11362, 11362, 1, 619);
   (11363, 11363, 1, 7549); (11364, 11364, 1, 637); (11367, 11371, 2, 11368);
   (11373, 11373, 1, 593); (11374, 11374, 1, 625); (11375, 11375, 1, 592);
   (11376, 11376, 1, 594); (11378, 11378, 1, 11379); (11381, 11381, 1, 11382);
   (11390, 11391, 1, 575); (11392, 11490, 2, 11393); (11499, 11501, 2, 11500);
   (11506, 11506, 1, 11507); (42560, 42604, 2, 42561); (42624, 42650, 2, 42625);
   (42786, 42798, 2, 42787); (42802, 42862, 2, 42803); (42873, 42875, 2, 42874);
   (42877, 42877, 1, 7545); (42878, 42886, 2, 42879); (42891, 42891, 1, 42892);
   (42893, 42893, 1, 613); (42896, 42898, 2, 42897); (42902, 42920, 2, 42903);
   (42922, 42922, 1, 614); (42923, 42923, 1, 604); (42924, 42924, 1, 609);
   (42925, 42925, 1, 620); (42926, 42926, 1, 618); (42928, 42928, 1, 670);
   (42929, 42929, 1, 647); (42930, 42930, 1, 669); (42931, 42931, 1, 43859);
   (42932, 42946, 2, 42933); (42948, 42948, 1, 42900); (42949, 42949, 1, 642);
   (42950, 42950, 1, 7566); (42951, 42953, 2, 42952); (42960, 42960, 1, 42961);
   (42966, 42968, 2, 42967); (42997, 42997, 1, 42998); (65313, 65338, 1, 65345);
   (66560, 66599, 1, 66600); (66736, 66771, 1, 66776); (66928, 66964, 2, 66967);
   (66929, 66938, 1, 66968); (66941, 66954, 1, 66980); (66957, 66962, 1, 66996);
   (66965, 66965, 1, 67004); (68736, 68786, 1, 68800); (71840, 71871, 1, 71872);
   (93760, 93791, 1, 93792); (125184, 125217, 1, 125218)
  ].

Fixpoint lookup_range (c : N) (rs : list (N * N * N * N)) : option N :=
  match rs with
  | [] => None
  | (lo, hi, step, t) :: rs' =>
      if (lo <=? c) && (c <=? hi) && ((c - lo) mod step =? 0)
      then Some (t + (c - lo))
      else lookup_range c rs'
  end.

(** The one lower case of two code points is that of U+0130. *)
Definition lower_wide (c : N) : str :=
  if c =? 304 then [105; 775]
  else match lookup_range c lower_ranges with
       | Some d => [d]
       | None => [c]
       end.

(** The code points the search for the context of a capital sigma passes
    over (the property Case_Ignorable), and of the others those that are
    cased (the property Cased), as ranges with both ends. *)
Definition case_ignorable_ranges : list (N * N) :=
  [
   (39, 39); (46, 46); (58, 58); (94, 94); (96, 96);
   (168, 168); (173, 173); (175, 175); (180, 180); (183, 184);
   (688, 879); (884, 885); (890, 890); (900, 901); (903, 903);
   (1155, 1161); (1369, 1369); (1375, 1375); (1425, 1469); (1471, 1471);
   (1473, 1474); (1476, 1477); (1479, 1479); (1524, 1524); (1536, 1541);
   (1552, 1562); (1564, 1564); (1600, 1600); (1611, 1631); (1648, 1648);
   (1750, 1757); (1759, 1768); (1770, 1773); (1807, 1807); (1809, 1809);
   (1840, 1866); (1958, 1968); (2027, 2037); (2042, 2042); (2045, 2045);
   (2070, 2093); (2137, 2139); (2184, 2184); (2192, 2193); (2200, 2207);
   (2249, 2306); (2362, 2362); (2364, 2364); (2369, 2376); (2381, 2381);
   (2385, 2391); (2402, 2403); (2417, 2417); (2433, 2433); (2492, 2492);
   (2497, 2500); (2509, 2509); (2530, 2531); (2558, 2558); (2561, 2562);
   (2620, 2620); (2625, 2626); (2631, 2632); (2635, 2637); (2641, 2641);
   (2672, 2673); (2677, 2677); (2689, 2690); (2748, 2748); (2753, 2757);
   (2759, 2760); (2765, 2765); (2786, 2787); (2810, 2815); (2817, 2817);
   (2876, 2876); (2879, 2879); (2881, 2884); (2893, 2893); (2901, 2902);
   (2914, 2915); (2946, 2946); (3008, 3008); (3021, 3021); (3072, 3072);
   (3076, 3076); (3132, 3132); (3134, 3136); (3142, 3144); (3146, 3149);
   (3157, 3158); (3170, 3171); (3201, 3201); (3260, 3260); (3263, 3263);
   (3270, 3270); (3276, 3277); (3298, 3299); (3328, 3329); (3387, 3388);
   (3393, 3396); (3405, 3405); (3426, 3427); (3457, 3457); (3530, 3530);
   (3538, 3540); (3542, 3542); (3633, 3633); (3636, 3642); (3654, 3662);
   (3761, 3761); (3764, 3772); (3782, 3782); (3784, 3789); (3864, 3865);
   (3893, 3893); (3895, 3895); (3897, 3897); (3953, 3966); (3968, 3972);
   (3974, 3975); (3981, 3991); (3993, 4028); (4038, 4038); (4141, 4144);
   (4146, 4151); (4153, 4154); (4157, 4158); (4184, 4185); (4190, 4192);
   (4209, 4212); (4226, 4226); (4229, 4230); (4237, 4237); (4253, 4253);
   (4348, 4348); (4957, 4959); (5906, 5908); (5938, 5939); (5970, 5971);
   (6002, 6003); (6068, 6069); (6071, 6077); (6086, 6086); (6089, 6099);
   (6103, 6103); (6109, 6109); (6155, 6159); (6211, 6211); (6277, 6278);
   (6313, 6313); (6432, 6434); (6439, 6440); (6450, 6450); (6457, 6459);
   (6679, 6680); (6683, 6683); (6742, 6742); (6744, 6750); (6752, 6752);
   (6754, 6754); (6757, 6764); (6771, 6780); (6783, 6783); (6823, 6823);
   (6832, 6862); (6912, 6915); (6964, 6964); (6966, 6970); (6972, 6972);
   (6978, 6978); (7019, 7027); (7040, 7041); (7074, 7077); (7080, 7081);
   (7083, 7085); (7142, 7142); (7144, 7145); (7149, 7149); (7151, 7153);
   (7212, 7219); (7222, 7223); (7288, 7293); (7376, 7378); (7380, 7392);
   (7394, 7400); (7405, 7405); (7412, 7412); (7416, 7417); (7468, 7530);
   (7544, 7544); (7579, 7679); (8125, 8125); (8127, 8129); (8141, 8143);
   (8157, 8159); (8173, 8175); (8189, 8190); (8203, 8207); (8216, 8217);
   (8228, 8228); (8231, 8231); (8234, 8238); (8288, 8292); (8294, 8303);
   (8305, 8305); (8319, 8319); (8336, 8348); (8400, 8432); (11388, 11389);
   (11503, 11505); (11631, 11631); (11647, 11647); (11744, 11775); (11823, 11823);
   (12293, 12293); (12330, 12333); (12337, 12341); (12347, 12347); (12441, 12446);
   (12540, 12542); (40981, 40981); (42232, 42237); (42508, 42508); (42607, 42610);
   (42612, 42621); (42623, 42623); (42652, 42655); (42736, 42737); (42752, 42785);
   (42864, 42864); (42888, 42890); (42994, 42996); (43000, 43001); (43010, 43010);
   (43014, 43014); (43019, 43019); (43045, 43046); (43052, 43052); (43204, 43205);
   (43232, 43249); (43263, 43263); (43302, 43309); (43335, 43345); (43392, 43394);
   (43443, 43443); (43446, 43449); (43452, 43453); (43471, 43471); (43493, 43494);
   (43561, 43566); (43569, 43570); (43573, 43574); (43587, 43587); (43596, 43596);
   (43632, 43632); (43644, 43644); (43696, 43696); (43698, 43700); (43703, 43704);
   (43710, 43711); (43713, 43713); (43741, 43741); (43756, 43757); (43763, 43764);
   (43766, 43766); (43867, 43871); (43881, 43883); (44005, 44005); (44008, 44008);
   (44013, 44013); (64286, 64286); (64434, 64450); (65024, 65039); (65043, 65043);
   (65056, 65071); (65106, 65106); (65109, 65109); (65279, 65279); (65287, 65287);
   (65294, 65294); (65306, 65306); (65342, 65342); (65344, 65344); (65392, 65392);
   (65438, 65439); (65507, 65507); (65529, 65531); (66045, 66045); (66272, 66272);
   (66422, 66426); (67456, 67461); (67463, 67504); (67506, 67514); (68097, 68099);
   (68101, 68102); (68108, 68111); (68152, 68154); (68159, 68159); (68325, 68326);
   (68900, 68903); (69291, 69292); (69446, 69456); (69506, 69509); (69633, 69633);
   (69688, 69702); (69744, 69744); (69747, 69748); (69759, 69761); (69811, 69814);
   (69817, 69818); (69821, 69821); (69826, 69826); (69837, 69837); (69888, 69890);
   (69927, 69931); (69933, 69940); (70003, 70003); (70016, 70017); (70070, 70078);
   (70089, 70092); (70095, 70095); (70191, 70193); (70196, 70196); (70198, 70199);
   (70206, 70206); (70367, 70367); (70371, 70378); (70400, 70401); (70459, 70460);
   (70464, 70464); (70502, 70508); (70512, 70516); (70712, 70719); (70722, 70724);
   (70726, 70726); (70750, 70750); (70835, 70840); (70842, 70842); (70847, 70848);
   (70850, 70851); (71090, 71093); (71100, 71101); (71103, 71104); (71132, 71133);
   (71219, 71226); (71229, 71229); (71231, 71232); (71339, 71339); (71341, 71341);
   (71344, 71349); (71351, 71351); (71453, 71455); (71458, 71461); (71463, 71467);
   (71727, 71735); (71737, 71738); (71995, 71996); (71998, 71998); (72003, 72003);
   (72148, 72151); (72154, 72155); (72160, 72160); (72193, 72202); (72243, 72248);
   (72251, 72254); (72263, 72263); (72273, 72278); (72281, 72283); (72330, 72342);
   (72344, 72345); (72752, 72758); (72760, 72765); (72767, 72767); (72850, 72871);
   (72874, 72880); (72882, 72883); (72885, 72886); (73009, 73014); (73018, 73018);
   (73020, 73021); (73023, 73029); (73031, 73031); (73104, 73105); (73109, 73109);
   (73111, 73111); (73459, 73460); (78896, 78904); (92912, 92916); (92976, 92982);
   (92992, 92995); (94031, 94031); (94095, 94111); (94176, 94177); (94179, 94180);
   (110576, 110579); (110581, 110587); (110589, 110590); (113821, 113822); (113824, 113827);
   (118528, 118573); (118576, 118598); (119143, 119145); (119155, 119170); (119173, 119179);
   (119210, 119213); (119362, 119364); (121344, 121398); (121403, 121452); (121461, 121461);
   (121476, 121476); (121499, 121503); (121505, 121519); (122880, 122886); (122888, 122904);
   (122907, 122913); (122915, 122916); (122918, 122922); (123184, 123197); (123566, 123566);
   (123628, 123631); (125136, 125142); (125252, 125259); (127995, 127999); (917505, 917505);
   (917536, 917631); (917760, 917999)
  ].

Definition cased_ranges : list (N * N) :=
  [
   (65, 90); (97, 122); (170, 170); (181, 181); (186, 186);
   (192, 214); (216, 246); (248, 442); (444, 447); (452, 659);
   (661, 687); (880, 883); (886, 887); (891, 893); (895, 895);
   (902, 902); (904, 906); (908, 908); (910, 929); (931, 1013);
   (1015, 1153); (1162, 1327); (1329, 1366); (1376, 1416); (4256, 4293);
   (4295, 4295); (4301, 4301); (4304, 4346); (4349, 4351); (5024, 5109);
   (5112, 5117); (7296, 7304); (7312, 7354); (7357, 7359); (7424, 7467);
   (7531, 7543); (7545, 7578); (7680, 7957); (7960, 7965); (7968, 8005);
   (8008, 8013); (8016, 8023); (8025, 8025); (8027, 8027); (8029, 8029);
   (8031, 8061); (8064, 8116); (8118, 8124); (8126, 8126); (8130, 8132);
   (8134, 8140); (8144, 8147); (8150, 8155); (8160, 8172); (8178, 8180);
   (8182, 8188); (8450, 8450); (8455, 8455); (8458, 8467); (8469, 8469);
   (8473, 8477); (8484, 8484); (8486, 8486); (8488, 8488); (8490, 8493);
   (8495, 8500); (8505, 8505); (8508, 8511); (8517, 8521); (8526, 8526);
   (8544, 8575); (8579, 8580); (9398, 9449); (11264, 11387); (11390, 11492);
   (11499, 11502); (11506, 11507); (11520, 11557); (11559, 11559); (11565, 11565);
   (42560, 42605); (42624, 42651); (42786, 42863); (42865, 42887); (42891, 42894);
   (42896, 42954); (42960, 42961); (42963, 42963); (42965, 42969); (42997, 42998);
   (43002, 43002); (43824, 43866); (43872, 43880); (43888, 43967); (64256, 64262);
   (64275, 64279); (65313, 65338); (65345, 65370); (66560, 66639); (66736, 66771);
   (66776, 66811); (66928, 66938); (66940, 66954); (66956, 66962); (66964, 66965);
   (66967, 66977); (66979, 66993); (66995, 67001); (67003, 67004); (68736, 68786);
   (68800, 68850); (71840, 71903); (93760, 93823); (119808, 119892); (119894, 119964);
   (119966, 119967); (119970, 119970); (119973, 119974); (119977, 119980); (119982, 119993);
   (119995, 119995); (119997, 120003); (120005, 120069); (120071, 120074); (120077, 120084);
   (120086, 120092); (120094, 120121); (120123, 120126); (120128, 120132); (120134, 120134);
   (120138, 120144); (120146, 120485); (120488, 120512); (120514, 120538); (120540, 120570);
   (120572, 120596); (120598, 120628); (120630, 120654); (120656, 120686); (120688, 120712);
   (120714, 120744); (120746, 120770); (120772, 120779); (122624, 122633); (122635, 122654);
   (125184, 125251); (127280, 127305); (127312, 127337); (127344, 127369)
  ].

Definition in_ranges (c : N) (rs : list (N * N)) : bool :=
  existsb (fun r => (fst r <=? c) && (c <=? snd r)) rs.
Definition case_ignorable (c : N) : bool := in_ranges c case_ignorable_ranges.
Definition cased (c : N) : bool := in_ranges c cased_ranges.

(** The capital sigma U+03A3 is written as the final sigma U+03C2 when a
    cased letter comes before it and none after it, code points that are
    passed over apart; [before] holds the text before it from right to
    left. *)
Definition final_sigma (before after : str) : bool :=
  match drop_while case_ignorable before with
  | c :: _ => cased c
  | [] => false
  end
  && match drop_while case_ignorable after with
     | c :: _ => negb (cased c)
     | [] => true
     end.

Definition lower_at (before : str) (c : N) (after : str) : str :=
  if c <? 256 then [lower_char c]
  else if c =? 931 then [if final_sigma before after then 962 else 963]
  else lower_wide c.

Fixpoint lower_from (before s : str) : str :=
  match s with
  | [] => []
  | c :: s' => lower_at before c s' ++ lower_from (c :: before) s'
  end.
Definition lower (s : str) : str := lower_from [] s.

(** Text-mode reading with the default [newline=None]: the two-character
    line end CR LF and a lone CR both arrive as LF. *)
Fixpoint universal_newlines (t : str) : str :=
  match t with
  | [] => []
  | c :: t' =>
      if c =? cr then
        nl :: match t' with
              | d :: t'' => if d =? nl then universal_newlines t''
                            else universal_newlines t'
              | [] => []
              end
      else c :: universal_newlines t'
  end.

(** [f.readlines()]: the text cut after every LF; the last line has no LF
    when the text does not end with one. *)
Fixpoint readlines (t : str) : list str :=
  match t with
  | [] => []
  | c :: t' =>
      if c =? nl then [c] :: readlines t'
      else match readlines t' with
           | [] => [[c]]
           | l :: ls => (c :: l) :: ls
           end
  end.

(** [''.join(lines)], which is also what [f.writelines(lines)] writes. *)
Definition join (ls : list str) : str := concat ls.

(** [pattern.sub(repl, s)] for a pattern that matches no empty string.
    [match_at bol s] tries the pattern at the start of [s], [bol] telling
    whether the position is the start of the text or follows a line end,
    and gives the text to put in place of the match and the length of the
    match; [skip] counts the characters of the last match still to pass.
    The search goes on where the last match ended. *)
Fixpoint re_sub (match_at : bool -> str -> option (str * nat))
    (bol : bool) (skip : nat) (s : str) : str :=
  match s with
  | [] => []
  | c :: s' =>
      match skip with
      | S k => re_sub match_at (c =? nl) k s'
      | O =>
          match match_at bol s with
          | Some (repl, len) => repl ++ re_sub match_at (c =? nl) (len - 1) s'
          | None => c :: re_sub match_at (c =? nl) 0 s'
          end
      end
  end.

(** [re.sub("[...]+", repl, s)] for a character class [p]: every longest
    run of characters of the class becomes one [repl]; [in_run] says that
    the character before was in the class. *)
Fixpoint sub_runs (p : N -> bool) (repl : str) (in_run : bool) (s : str)
  : str :=
  match s with
  | [] => []
  | c :: s' =>
      if p c then (if in_run then [] else repl) ++ sub_runs p repl true s'
      else c :: sub_runs p repl false s'
  end.

(** The lists of lines [readlines] gives: every line but the last ends
    with its only LF, the last one may have none and is then not empty. *)
Definition nonl (s : str) : Prop := Forall (fun c => c <> nl) s.

Inductive wf_lines : list str -> Prop :=
| wf_nil : wf_lines []
| wf_last l : nonl l -> l <> [] -> wf_lines [l]
| wf_cons l ls : nonl l -> wf_lines ls -> wf_lines ((l ++ [nl]) :: ls).

Definition no_cr (s : str) : Prop := Forall (fun c => c <> cr) s.

(** [l[j]] for a list: an index below zero counts from the end; [None]
    for [IndexError]. *)
Definition py_index {A} (l : list A) (j : Z) : option A :=
  let len := Z.of_nat (length l) in
  if (0 <=? j)%Z then l !! Z.to_nat j
  else if (- len <=? j)%Z then l !! Z.to_nat (len + j)
  else None.

(** [l.insert(j, x)]: an index below zero counts from the end, and the
    place is brought into the bounds of the list. *)
Definition py_insert {A} (l : list A) (j : Z) (x : A) : list A :=
  let len := Z.of_nat (length l) in
  let k := if (j <? 0)%Z then Z.max 0 (len + j) else Z.min j len in
  take (Z.to_nat k) l ++ x :: drop (Z.to_nat k) l.

End Py.

Import Py.

(** ** The reformatter, [spaces.py] *)

Module Spaces.

(** [CSS_LINK_LINE] *)
Definition CSS_LINK_LINE : str :=
  lit "<link rel=" ++ dq ++ lit "stylesheet" ++ dq ++ lit " href=" ++ dq
  ++ lit "{{ '/assets/css/imagesstyle.css' | relative_url }}" ++ dq ++ lit ">".

Definition hash : N := 35.

(** [RE_HEADER.match(s)], the pattern [^(#{1,6})\s+\S]: one to six hashes,
    then white space, then a character that is not white space.  The
    greedy [#{1,6}] has to take every leading hash (after fewer hashes the
    next character is a hash, not white space), and after the longest run
    of white space the next character, if any, is not white space. *)
Definition re_header_match (s : str) : bool :=
  let hashes := take_while (N.eqb hash) s in
  let rest := drop_while (N.eqb hash) s in
  (Nat.leb 1 (length hashes)) && (Nat.leb (length hashes) 6)
  && match rest with
     | c :: rest' =>
         is_space c && match drop_while is_space rest' with
                       | _ :: _ => true
                       | [] => false
                       end
     | [] => false
     end.

(** The pattern [!\[[^\]]*\]\([^)]+\)] tried at the start of [s]: the
    characters "![", the longest run without "]", the characters "](", the
    longest run without ")" (not empty), and ")".  Each run is followed by
    the one character it excludes, so no shorter run can match. *)
Definition image_at (s : str) : option (str * str * nat) :=
  match s with
  | 33 :: 91 :: s1 =>
      let alt := take_while (fun c => negb (c =? 93)) s1 in
      match drop_while (fun c => negb (c =? 93)) s1 with
      | 93 :: 40 :: s2 =>
          let src := take_while (fun c => negb (c =? 41)) s2 in
          match src, drop_while (fun c => negb (c =? 41)) s2 with
          | _ :: _, 41 :: _ => Some (alt, src, (length alt + length src + 5)%nat)
          | _, _ => None
          end
      | _ => None
      end
  | _ => None
  end.

(** [RE_IMAGE.search(s)] *)
Fixpoint re_image_search (s : str) : bool :=
  match image_at s with
  | Some _ => true
  | None => match s with
            | [] => false
            | _ :: s' => re_image_search s'
            end
  end.

(** [RE_FENCE.match(s)], the pattern [^(```|~~~)]. *)
Definition re_fence_match (s : str) : bool :=
  startswith [96; 96; 96] s || startswith [126; 126; 126] s.

Definition front_mark : str := lit "---".

(** The [for] loop of [split_front_matter] from index 1 on: [front] grows
    by every line up to and including the first one that is "---". *)
Fixpoint find_close (front : list str) (rest : list str)
  : option (list str * list str) :=
  match rest with
  | [] => None
  | l :: rest' =>
      if str_eqb (strip l) front_mark then Some (front ++ [l], rest')
      else find_close (front ++ [l]) rest'
  end.

Definition split_front_matter (lines : list str) : list str * list str :=
  match lines with
  | [] => ([], [])
  | l0 :: rest =>
      if negb (str_eqb (strip l0) front_mark) then ([], lines)
      else match find_close [l0] rest with
           | Some r => r
           | None => ([], lines)
           end
  end.

(** [line if line.endswith("\n") else line + "\n"] *)
Definition with_newline (line : str) : str :=
  if endswith [nl] line then line else line ++ [nl].

(** [out and out[-1].strip() != ""] *)
Definition last_not_blank (out : list str) : bool :=
  match last out with
  | Some l => negb (str_eqb (strip l) [])
  | None => false
  end.

(** [i + 1 < L and lines[i+1].strip() != ""], where [rest] holds the lines
    from index [i + 1] on. *)
Definition next_not_blank (rest : list str) : bool :=
  match rest with
  | l :: _ => negb (str_eqb (strip l) [])
  | [] => false
  end.

(** The [while] loop of [process_content_lines]: [lines] holds the lines
    from index [i] on, [out] and [in_code] are the loop's variables.  The
    branch of the image and the branch of the heading have the same body,
    [spaced]. *)
Fixpoint content_loop (lines : list str) (out : list str) (in_code : bool)
  : list str :=
  match lines with
  | [] => out
  | line :: rest =>
      if re_fence_match (strip line) then
        content_loop rest (out ++ [line]) (negb in_code)
      else if in_code then
        content_loop rest (out ++ [line]) in_code
      else
        let stripped := strip line in
        let spaced :=
          let out1 := if last_not_blank out then out ++ [[nl]] else out in
          let out2 := out1 ++ [with_newline line] in
          let out3 := if next_not_blank rest then out2 ++ [[nl]] else out2 in
          content_loop rest out3 in_code in
        if re_image_search stripped then spaced
        else if re_header_match stripped then spaced
        else if str_eqb stripped [] then
          let out1 :=
            if match out with [] => true | _ => last_not_blank out end
            then out ++ [[nl]] else out in
          content_loop rest out1 in_code
        else
          content_loop rest (out ++ [with_newline line]) in_code
  end.

Definition process_content_lines (lines : list str) : list str :=
  content_loop lines [] false.

Definition needle : str := lit "imagesstyle.css".

Definition append_css_link_if_missing (lines : list str) : list str :=
  if contains needle (join lines) then lines
  else
    let lines1 := if last_not_blank lines then lines ++ [[nl]] else lines in
    lines1 ++ [[nl]] ++ [CSS_LINK_LINE ++ [nl]].

(** The lines [process_file] compares with the original and writes. *)
Definition new_lines_of (original : list str) : list str :=
  let '(front, content) := split_front_matter original in
  front ++ append_css_link_if_missing (process_content_lines content).

(** The files of the posts directory: path to text. *)
Abbreviation files := (gmap (list N) (list N)) (only parsing).

Definition bak : str := lit ".bak".

(** [process_file(path, dry_run)]: the value returned and the files after
    the call; [None] when there is no file to open at [path]. *)
Definition process_file (path : str) (dry_run : bool) (fs : files)
  : option (bool * files) :=
  match fs !! path with
  | None => None
  | Some raw =>
      let original := readlines (universal_newlines raw) in
      let new_lines := new_lines_of original in
      if lines_eqb new_lines original then Some (false, fs)
      else if dry_run then Some (true, fs)
      else Some (true, <[path := join new_lines]> (<[path ++ bak := raw]> fs))
  end.

(** What the loop appends to [out], which it reads only to know whether
    it is empty ([e]) and whether its last line is not blank ([b]). *)
Definition not_blank (l : str) : bool := negb (str_eqb (strip l) []).

Definition is_nil (out : list str) : bool :=
  match out with [] => true | _ :: _ => false end.

Fixpoint emit (lines : list str) (e b c : bool) : list str :=
  match lines with
  | [] => []
  | line :: rest =>
      if re_fence_match (strip line) then
        line :: emit rest false (not_blank line) (negb c)
      else if c then
        line :: emit rest false (not_blank line) c
      else if re_image_search (strip line) || re_header_match (strip line) then
        (if b then [[nl]] else [])
        ++ with_newline line
           :: (if next_not_blank rest then [nl] :: emit rest false false c
               else emit rest false (not_blank (with_newline line)) c)
      else if str_eqb (strip line) [] then
        if (if e then true else b) then [nl] :: emit rest false false c
        else emit rest e b c
      else
        with_newline line :: emit rest false (not_blank (with_newline line)) c
  end.

(** The value of [in_code] after the lines [lines], from the value [c]. *)
Definition fence_state (lines : list str) (c : bool) : bool :=
  fold_left (fun c l => if re_fence_match (strip l) then negb c else c)
            lines c.

(** The content block of a file holds the marker in one of its lines. *)
Definition marker_in_content (raw : str) : Prop :=
  existsb (contains needle)
    (snd (split_front_matter (readlines (universal_newlines raw)))) = true.

(** The kind of a line: one of the five cases applies. *)
Inductive kind (l : str) : Prop :=
| KFence : re_fence_match (strip l) = true -> kind l
| KSpecial :
    re_fence_match (strip l) = false ->
    re_image_search (strip l) || re_header_match (strip l) = true -> kind l
| KBlank : re_fence_match (strip l) = false -> not_blank l = false -> kind l
| KPlain :
    re_fence_match (strip l) = false ->
    re_image_search (strip l) || re_header_match (strip l) = false ->
    not_blank l = true -> kind l.

(** Lines that end with their only line end. *)
Definition closed (x : list N) : Prop := exists l, nonl l /\ x = l ++ [nl].

Definition unmarked (l : list N) : Prop := strip l <> front_mark.

(** What [split_front_matter] gives: a front matter block that the first
    line opens and its last line closes, or no front matter. *)
Inductive split_spec (lines : list (list N))
  : list (list N) -> list (list N) -> Prop :=
| SplitFront l0 mid l content :
    lines = l0 :: mid ++ l :: content ->
    strip l0 = front_mark -> Forall unmarked mid -> strip l = front_mark ->
    split_spec lines (l0 :: mid ++ [l]) content
| SplitEmpty : lines = [] -> split_spec lines [] []
| SplitNoOpen l0 rest :
    lines = l0 :: rest -> unmarked l0 -> split_spec lines [] lines
| SplitNoClose l0 rest :
    lines = l0 :: rest -> strip l0 = front_mark -> Forall unmarked rest ->
    split_spec lines [] lines.

(** [ensure_blank_after(current_lines, idx)]: the list after the call and
    the value returned; [None] for [IndexError]. *)
Definition ensure_blank_after (current_lines : list str) (idx : Z)
  : option (list str * bool) :=
  if (idx + 1 <? Z.of_nat (length current_lines))%Z then
    match py_index current_lines (idx + 1) with
    | None => None
    | Some next =>
        if negb (str_eqb (strip next) [])
        then Some (py_insert current_lines (idx + 1) [nl], true)
        else Some (current_lines, false)
    end
  else Some (current_lines, false).

(** No two blank lines one after the other. *)
Fixpoint no_double_blank (lines : list str) : Prop :=
  match lines with
  | [] => True
  | x :: rest =>
      (not_blank x = true
       \/ forall y, head rest = Some y -> not_blank y = true)
      /\ no_double_blank rest
  end.

(** The lines that are not blank, each with its line end. *)
Definition text_lines (lines : list str) : list str :=
  map with_newline (List.filter not_blank lines).

End Spaces.

(** ** The date normalizer, [fix_dates.py] *)

Module FixDates.

(** [NEW_DATE] *)
Definition NEW_DATE : str := lit "2025-07-17 12:05:57 -0400".

(** The replacement text of the substitution, [f'date:   {NEW_DATE}']. *)
Definition replacement : str := lit "date:   " ++ NEW_DATE.

(** The pattern [^date:\s+.*$] tried at a position where [^] holds, [s]
    being the text from there on: "date:", the longest run of white space
    (not empty; [\s] takes line ends too), then the rest of the line the
    run stops in.  The greedy first try always ends at a line end or at
    the end of the text, where [$] holds, so there is never any
    backtracking.  The result is the length of the match. *)
Definition date_at (s : str) : option nat :=
  if startswith (lit "date:") s then
    let s1 := drop 5 s in
    let ws := take_while is_space s1 in
    let line := take_while (fun c => negb (c =? nl)) (drop_while is_space s1) in
    match ws with
    | [] => None
    | _ :: _ => Some (5 + length ws + length line)%nat
    end
  else None.

(** [re.sub(pattern, replacement, text, flags=re.MULTILINE)] *)
Definition sub_date (text : str) : str :=
  re_sub (fun bol s => if bol then option_map (pair replacement) (date_at s)
                       else None) true 0 text.

Inductive report := Changed | NotFound.

(** [fix_date_in_file] on a file holding [raw]: the line printed and the
    text written, if any. *)
Definition fix_date_in_file (raw : str) : report * option str :=
  let text := universal_newlines raw in
  let new_text := sub_date text in
  if negb (str_eqb new_text text) then (Changed, Some new_text)
  else (NotFound, None).

(** The pattern with its replacement, as [re_sub] takes it. *)
Definition date_match (bol : bool) (s : str) : option (str * nat) :=
  if bol then option_map (pair replacement) (date_at s) else None.

(** A text as its lines [ls], each without its line end, and what follows
    the last line end. *)
Definition lines_text (ls : list str) (last_line : str) : str :=
  concat (map (fun l => l ++ [nl]) ls) ++ last_line.

(** The pattern tried at the start of the line [l] does not match, or it
    matches the line and no more. *)
Definition in_line (l : str) : Prop :=
  date_at (l ++ [nl]) = None \/ date_at (l ++ [nl]) = Some (length l).

(** The line the normalizer is meant to write for the line [l], and for
    the text [l] after the last line end. *)
Definition new_line (l : str) : str :=
  match date_at (l ++ [nl]) with Some _ => replacement | None => l end.
Definition new_last (l : str) : str :=
  match date_at l with Some _ => replacement | None => l end.

(** A line a run leaves as it is. *)
Definition settled (l : str) : Prop :=
  nonl l /\ in_line l /\ new_line l = l.

End FixDates.

(** ** The archive importer, [automation.py] *)

Module Automation.

(** *** Library functions *)

(** [s.encode("ascii", "ignore").decode("ascii")] *)
Definition ascii_only (s : str) : str := filter (fun c => c < 128) s.

(** [os.path.basename] (POSIX): what follows the last slash. *)
Definition basename (p : str) : str :=
  rev (take_while (fun c => negb (c =? 47)) (rev p)).

(** [s.rfind(c)] as an index from [i] on, [None] for -1. *)
Fixpoint rfind_from (c : N) (s : str) (i : nat) : option nat :=
  match s with
  | [] => None
  | d :: s' =>
      match rfind_from c s' (S i) with
      | Some r => Some r
      | None => if d =? c then Some i else None
      end
  end.
Definition rfind (c : N) (s : str) : option nat := rfind_from c s 0.

(** [os.path.splitext] (POSIX): the last dot splits the name when it comes
    after the last slash and some character between that slash and the dot
    is not a dot. *)
Definition splitext (p : str) : str * str :=
  match rfind 46 p with
  | None => (p, [])
  | Some dotIndex =>
      let filenameIndex :=
        match rfind 47 p with Some sepIndex => S sepIndex | None => O end in
      if Nat.ltb filenameIndex (S dotIndex)
         && negb (forallb (N.eqb 46)
                    (take (dotIndex - filenameIndex) (drop filenameIndex p)))
      then (take dotIndex p, drop dotIndex p)
      else (p, [])
  end.

(** [PurePath.suffix] and [PurePath.stem] of a path whose last component
    is [name]: the name is cut at its last dot when that dot is neither
    its first nor its last character. *)
Definition suffix (name : str) : str :=
  match rfind 46 name with
  | Some i => if Nat.ltb 0 i && Nat.ltb i (length name - 1)
              then drop i name else []
  | None => []
  end.
Definition stem (name : str) : str :=
  match rfind 46 name with
  | Some i => if Nat.ltb 0 i && Nat.ltb i (length name - 1)
              then take i name else name
  | None => name
  end.

(** The value of a hexadecimal digit. *)
Definition hexval (c : N) : option N :=
  if (48 <=? c) && (c <=? 57) then Some (c - 48)
  else if (65 <=? c) && (c <=? 70) then Some (c - 55)
  else if (97 <=? c) && (c <=? 102) then Some (c - 87)
  else None.

(** What [unquote] decodes: the bytes of the runs of ASCII characters,
    where a percent sign and two hexadecimal digits stand for one byte,
    and the characters outside ASCII, which are kept. *)
Inductive tok := Byte (b : N) | Kept (c : N).

Fixpoint unquote_toks (s : str) : list tok :=
  match s with
  | [] => []
  | c :: s1 =>
      if c =? 37 then
        match s1 with
        | h1 :: s2 =>
            match s2 with
            | h2 :: s3 =>
                match hexval h1, hexval h2 with
                | Some a, Some b => Byte (16 * a + b) :: unquote_toks s3
                | _, _ => Byte c :: unquote_toks s1
                end
            | [] => Byte c :: unquote_toks s1
            end
        | [] => [Byte c]
        end
      else if c <? 128 then Byte c :: unquote_toks s1
      else Kept c :: unquote_toks s1
  end.

Definition is_cont (b : N) : bool := (128 <=? b) && (b <=? 191).

(** The second byte a lead byte of a three or four byte sequence admits. *)
Definition second_ok (b b1 : N) : bool :=
  if b =? 224 then (160 <=? b1) && (b1 <=? 191)
  else if b =? 237 then (128 <=? b1) && (b1 <=? 159)
  else if b =? 240 then (144 <=? b1) && (b1 <=? 191)
  else if b =? 244 then (128 <=? b1) && (b1 <=? 143)
  else is_cont b1.

(** The UTF-8 decoder over bytes and kept characters; [None] marks a
    sequence that is not valid, one for each longest prefix of a valid
    sequence, as the decoder of CPython reports them. *)
Fixpoint utf8_scan (ts : list tok) : list (option N) :=
  match ts with
  | [] => []
  | Kept c :: r => Some c :: utf8_scan r
  | Byte b :: r =>
      if b <? 128 then Some b :: utf8_scan r
      else if (194 <=? b) && (b <=? 223) then
        match r with
        | Byte b1 :: r1 =>
            if is_cont b1
            then Some (N.lor (N.shiftl (N.land b 31) 6) (N.land b1 63))
                 :: utf8_scan r1
            else None :: utf8_scan r
        | _ => None :: utf8_scan r
        end
      else if (224 <=? b) && (b <=? 239) then
        match r with
        | Byte b1 :: r1 =>
            if second_ok b b1 then
              match r1 with
              | Byte b2 :: r2 =>
                  if is_cont b2
                  then Some (N.lor (N.shiftl (N.land b 15) 12)
                               (N.lor (N.shiftl (N.land b1 63) 6)
                                      (N.land b2 63)))
                       :: utf8_scan r2
                  else None :: utf8_scan r1
              | _ => None :: utf8_scan r1
              end
            else None :: utf8_scan r
        | _ => None :: utf8_scan r
        end
      else if (240 <=? b) && (b <=? 244) then
        match r with
        | Byte b1 :: r1 =>
            if second_ok b b1 then
              match r1 with
              | Byte b2 :: r2 =>
                  if is_cont b2 then
                    match r2 with
                    | Byte b3 :: r3 =>
                        if is_cont b3
                        then Some (N.lor (N.shiftl (N.land b 7) 18)
                                    (N.lor (N.shiftl (N.land b1 63) 12)
                                      (N.lor (N.shiftl (N.land b2 63) 6)
                                             (N.land b3 63))))
                             :: utf8_scan r3
                        else None :: utf8_scan r2
                    | _ => None :: utf8_scan r2
                    end
                  else None :: utf8_scan r1
              | _ => None :: utf8_scan r1
              end
            else None :: utf8_scan r
        | _ => None :: utf8_scan r
        end
      else None :: utf8_scan r
  end.

(** [urllib.parse.unquote(s)], with its defaults [encoding='utf-8'] and
    [errors='replace']. *)
Definition unquote (s : str) : str :=
  map (fun o => match o with Some c => c | None => 65533 end)
      (utf8_scan (unquote_toks s)).

(** [data.decode("utf-8")], [None] for [UnicodeDecodeError]. *)
Definition decode_utf8 (data : list N) : option str :=
  mapM id (utf8_scan (map Byte data)).

(** *** Names *)

(** [POST_DATE], [POST_CATEGORY], [IMG_EXTS] *)
Definition POST_DATE : str := lit "2025-09-27".
Definition POST_CATEGORY : str := lit "writeups".
Definition IMG_EXTS : list str :=
  [lit ".png"; lit ".jpg"; lit ".jpeg"; lit ".gif"; lit ".webp"].

Definition in_exts (e : str) (exts : list str) : bool :=
  existsb (str_eqb e) exts.

Definition hyphen : N := 45.
Definition underscore : N := 95.

(** The classes [a-z0-9] and [A-Za-z0-9]. *)
Definition is_lower_alnum (c : N) : bool :=
  ((97 <=? c) && (c <=? 122)) || ((48 <=? c) && (c <=? 57)).
Definition is_alnum (c : N) : bool :=
  is_lower_alnum c || ((65 <=? c) && (c <=? 90)).

(** [name or default] on strings. *)
Definition or_else (name default : str) : str :=
  match name with [] => default | _ :: _ => name end.

Section Importer.

(** [unicodedata.normalize("NFKD", .)], the decomposition table of the
    Unicode database. *)
Variable nfkd : str -> str.

(** The value of [name] in [slugify] before the [return]. *)
Definition slug_body (name : str) : str :=
  let name1 := ascii_only (nfkd name) in
  let name2 := lower name1 in
  strip_of (N.eqb hyphen)
    (sub_runs (fun c => negb (is_lower_alnum c)) [hyphen] false name2).

Definition slugify (name : str) : str :=
  or_else (slug_body name) (lit "post").

Definition sanitize_img (name : str) : str :=
  let '(base, ext) := splitext (basename name) in
  let base1 := unquote base in
  let base2 :=
    strip_of (N.eqb underscore)
      (sub_runs (fun c => negb (is_alnum c)) [underscore] false base1) in
  let base3 := or_else base2 (lit "img") in
  let ext1 := match ext with [] => lit ".png" | _ :: _ => lower ext end in
  let ext2 := if in_exts ext1 IMG_EXTS then ext1 else lit ".png" in
  base3 ++ ext2.

Definition build_new_img_name (slug orig_path : str) : str :=
  slug ++ [underscore] ++ sanitize_img orig_path.

(** *** Image references *)

(** [{{ '/assets/images/<slug>/<new_fn>' | relative_url }}] *)
Definition templated (slug new_fn : str) : str :=
  lit "{{ '" ++ (lit "/assets/images/" ++ slug ++ lit "/" ++ new_fn)
  ++ lit "' | relative_url }}".

(** [mapping.get(key)], with the test [if not new_fn] of the callers,
    which an empty name fails too. *)
Definition lookup_name (mapping : gmap (list N) (list N)) (src : str)
  : option str :=
  match mapping !! lower (basename (unquote (strip src))) with
  | Some (c :: fn) => Some (c :: fn)
  | _ => None
  end.

(** [MD_IMG_RE] at the start of [s], with the function [_sub] of
    [replace_markdown_images] applied to the match. *)
Definition md_img_at (mapping : gmap (list N) (list N)) (slug : str)
    (s : str) : option (str * nat) :=
  match Spaces.image_at s with
  | Some (alt, src, len) =>
      match lookup_name mapping src with
      | Some new_fn =>
          Some (lit "![" ++ alt ++ lit "](" ++ templated slug new_fn ++ lit ")",
                len)
      | None => Some (take len s, len)
      end
  | None => None
  end.

Definition replace_markdown_images (text : str)
    (mapping : gmap (list N) (list N)) (slug : str) : str :=
  re_sub (fun _ s => md_img_at mapping slug s) true 0 text.

(** A letter of a pattern compiled with [re.IGNORECASE] against a
    character of the text: the two cases of the letter, and the dotted
    capital I and dotless i for "i", the long s for "s", the Kelvin sign
    for "k". *)
Definition ci_char (a c : N) : bool :=
  (c =? a)
  || ((97 <=? a) && (a <=? 122) && (c =? a - 32))
  || ((a =? 105) && ((c =? 304) || (c =? 305)))
  || ((a =? 115) && (c =? 383))
  || ((a =? 107) && (c =? 8490)).

Fixpoint ci_startswith (p s : str) : bool :=
  match p, s with
  | [], _ => true
  | a :: p', c :: s' => ci_char a c && ci_startswith p' s'
  | _ :: _, [] => false
  end.

Definition is_quote (c : N) : bool := (c =? 34) || (c =? 39).
Definition not_quote (c : N) : bool := negb (is_quote c).
Definition not_gt (c : N) : bool := negb (c =? 62).

(** The end of [HTML_IMG_RE] from "src=" on, tried at the start of [s]:
    "src=", a quote, the longest run without a quote (not empty), a quote,
    the longest run without ">", and ">".  The result is the groups [src]
    and [rest] and the length of what is matched. *)
Definition src_here (s : str) : option (str * str * nat) :=
  if ci_startswith (lit "src=") s then
    match drop 4 s with
    | q :: s1 =>
        if is_quote q then
          let src := take_while not_quote s1 in
          match src, drop_while not_quote s1 with
          | _ :: _, _ :: s2 =>
              let rest := take_while not_gt s2 in
              match drop_while not_gt s2 with
              | _ :: _ => Some (src, rest, (length src + length rest + 7)%nat)
              | [] => None
              end
          | _, _ => None
          end
        else None
    | [] => None
    end
  else None.

(** The greedy [[^>]*] before "src=": of the places it can stop at, the
    one furthest to the right at which the end of the pattern matches;
    [off] is the number of characters of the match before [s]. *)
Fixpoint src_search (s : str) (off : nat) : option (str * str * nat) :=
  match s with
  | [] => None
  | c :: s' =>
      match (if not_gt c then src_search s' (S off) else None) with
      | Some r => Some r
      | None =>
          match src_here s with
          | Some (src, rest, len) => Some (src, rest, (off + len)%nat)
          | None => None
          end
      end
  end.

(** [HTML_IMG_RE] at the start of [s]: "<img", white space, and the
    search above; then the function [_sub] of [replace_html_images]. *)
Definition html_img_at (mapping : gmap (list N) (list N)) (slug : str)
    (s : str) : option (str * nat) :=
  if ci_startswith (lit "<img") s then
    match drop 4 s with
    | w :: s1 =>
        if is_space w then
          match src_search s1 5 with
          | Some (src, rest, len) =>
              match lookup_name mapping src with
              | Some new_fn =>
                  Some (lit "<img src=" ++ dq ++ templated slug new_fn ++ dq
                        ++ rest ++ lit ">", len)
              | None => Some (take len s, len)
              end
          | None => None
          end
        else None
    | [] => None
    end
  else None.

Definition replace_html_images (text : str)
    (mapping : gmap (list N) (list N)) (slug : str) : str :=
  re_sub (fun _ s => html_img_at mapping slug s) true 0 text.

(** *** Archives and the file system *)

(** A path below the scratch directory, as [rglob] yields it: the name of
    its last component, whether it is a regular file, and its bytes. *)
Record entry := Entry {
  e_name : str;
  e_is_file : bool;
  e_data : list N
}.

(** An archive of the batch directory: the name of the file, its
    modification time, and the paths [rglob("*")] yields, in that order,
    once the archive is extracted; [None] when it cannot be extracted. *)
Record archive := Archive {
  z_name : str;
  z_mtime : N;
  z_tree : option (list entry)
}.

(** The lines the importer prints. *)
Inductive event :=
| Processing (name slug : str)
| WarnNoMarkdown (name : str)
| OkPost (post_filename : str)
| OkImages (slug : str).

Inductive exn := BadZipFile | IsADirectoryError | UnicodeDecodeError.

(** What the importer changes: the files of [POSTS_DIR], the directories
    of [IMAGES_DIR] with their files, the number of scratch directories
    that exist, and the lines printed. *)
Record world := World {
  posts : gmap (list N) (list N);
  images : gmap (list N) (gmap (list N) (list N));
  scratch : nat;
  printed : list event
}.

Definition print (e : event) (w : world) : world :=
  World (posts w) (images w) (scratch w) (printed w ++ [e]).

(** [tempfile.mkdtemp] and [shutil.rmtree(tmpdir)] *)
Definition mkdtemp (w : world) : world :=
  World (posts w) (images w) (S (scratch w)) (printed w).
Definition rmtree (w : world) : world :=
  World (posts w) (images w) (pred (scratch w)) (printed w).

(** [img_dest_dir.mkdir(parents=True, exist_ok=True)] *)
Definition mkdir_images (slug : str) (w : world) : world :=
  match images w !! slug with
  | Some _ => w
  | None => World (posts w) (<[slug := ∅]> (images w)) (scratch w) (printed w)
  end.

(** [shutil.copy2(img_path, img_dest_dir / new_name)] *)
Definition copy_image (slug new_name : str) (data : list N) (w : world)
  : world :=
  let dir := default ∅ (images w !! slug) in
  World (posts w) (<[slug := <[new_name := data]> dir]> (images w))
        (scratch w) (printed w).

(** [out_path.write_text(final_text)] *)
Definition write_post (post_filename text : str) (w : world) : world :=
  World (<[post_filename := text]> (posts w)) (images w) (scratch w)
        (printed w).

Definition is_markdown_suffix (e : str) : bool :=
  in_exts e [lit ".md"; lit ".markdown"].

Fixpoint find_first_markdown (tree : list entry) : option entry :=
  match tree with
  | [] => None
  | p :: tree' =>
      if is_markdown_suffix (lower (suffix (e_name p))) then Some p
      else find_first_markdown tree'
  end.

Definition collect_images (tree : list entry) : list entry :=
  filter (fun p => e_is_file p && in_exts (lower (suffix (e_name p))) IMG_EXTS)
         tree.

(** The loop of [process_zip] over the images: the copy and the two
    entries of [mapping]. *)
Fixpoint copy_images (slug : str) (imgs : list entry)
    (mapping : gmap (list N) (list N)) (w : world)
  : gmap (list N) (list N) * world :=
  match imgs with
  | [] => (mapping, w)
  | img_path :: imgs' =>
      let new_name := build_new_img_name slug (e_name img_path) in
      let w1 := copy_image slug new_name (e_data img_path) w in
      let mapping1 := <[lower (e_name img_path) := new_name]> mapping in
      let mapping2 :=
        <[lower (sanitize_img (e_name img_path)) := new_name]> mapping1 in
      copy_images slug imgs' mapping2 w1
  end.

(** [md_in.read_text(encoding="utf-8")] *)
Definition read_text (p : entry) : exn + str :=
  if e_is_file p then
    match decode_utf8 (e_data p) with
    | Some t => inr (universal_newlines t)
    | None => inl UnicodeDecodeError
    end
  else inl IsADirectoryError.

Definition front_matter (post_title date category : str) : str :=
  lit "---" ++ [nl] ++ lit "layout: post" ++ [nl]
  ++ lit "title: " ++ dq ++ post_title ++ dq ++ [nl]
  ++ lit "date: " ++ date ++ [nl]
  ++ lit "categories: " ++ category ++ [nl]
  ++ lit "---" ++ [nl] ++ [nl].

(** The body of the [try] of [process_zip]: the world it leaves and the
    exception it ends with, if any. *)
Definition process_zip_body (z : archive) (slug date category : str)
    (w : world) : world * option exn :=
  match z_tree z with
  | None => (w, Some BadZipFile)
  | Some tree =>
      match find_first_markdown tree with
      | None => (print (WarnNoMarkdown (z_name z)) w, None)
      | Some md_in =>
          let post_title := or_else (stem (e_name md_in)) slug in
          let w1 := mkdir_images slug w in
          let '(mapping, w2) := copy_images slug (collect_images tree) ∅ w1 in
          match read_text md_in with
          | inl e => (w2, Some e)
          | inr md_text =>
              let md_text1 := replace_markdown_images md_text mapping slug in
              let md_text2 := replace_html_images md_text1 mapping slug in
              let final_text :=
                front_matter post_title date category ++ md_text2 in
              let post_filename := date ++ lit "-" ++ slug ++ lit ".markdown" in
              let w3 := write_post post_filename final_text w2 in
              (print (OkImages slug) (print (OkPost post_filename) w3), None)
          end
      end
  end.

(** [process_zip]: the [finally] removes the scratch directory on every
    way out. *)
Definition process_zip (z : archive) (date category : str) (w : world)
  : world * option exn :=
  let slug := slugify (stem (z_name z)) in
  let w0 := mkdtemp (print (Processing (z_name z) slug) w) in
  let '(w1, e) := process_zip_body z slug date category w0 in
  (rmtree w1, e).

(** [sorted(..., key=lambda x: x.stat().st_mtime)]: a stable sort. *)
Fixpoint insert_by_mtime (z : archive) (zs : list archive) : list archive :=
  match zs with
  | [] => [z]
  | y :: zs' =>
      if z_mtime z <=? z_mtime y then z :: zs
      else y :: insert_by_mtime z zs'
  end.
Definition sorted_by_mtime (zs : list archive) : list archive :=
  foldr insert_by_mtime [] zs.

(** The [for] loop of [main]: an exception ends it. *)
Fixpoint process_all (zs : list archive) (w : world) : world * option exn :=
  match zs with
  | [] => (w, None)
  | zp :: zs' =>
      match process_zip zp POST_DATE POST_CATEGORY w with
      | (w1, None) => process_all zs' w1
      | (w1, Some e) => (w1, Some e)
      end
  end.

(** [main] on an existing directory whose files are [dir]. *)
Definition main (dir : list archive) (w : world) : world * option exn :=
  process_all
    (sorted_by_mtime (filter (fun z => endswith (lit ".zip") (z_name z)) dir))
    w.

End Importer.

(** The decompositions of NFKD for the code points below U+0100: the
    accented letters give their base letter and a combining mark, the
    signs with a compatibility mapping give that mapping. *)
Definition latin1_decompositions : list (N * list N) :=
  [(160, [32]); (168, [32; 776]); (170, [97]); (175, [32; 772]);
   (178, [50]); (179, [51]); (180, [32; 769]); (181, [956]);
   (184, [32; 807]); (185, [49]); (186, [111]);
   (188, [49; 8260; 52]); (189, [49; 8260; 50]); (190, [51; 8260; 52]);
   (192, [65; 768]); (193, [65; 769]); (194, [65; 770]); (195, [65; 771]);
   (196, [65; 776]); (197, [65; 778]); (199, [67; 807]);
   (200, [69; 768]); (201, [69; 769]); (202, [69; 770]); (203, [69; 776]);
   (204, [73; 768]); (205, [73; 769]); (206, [73; 770]); (207, [73; 776]);
   (209, [78; 771]);
   (210, [79; 768]); (211, [79; 769]); (212, [79; 770]); (213, [79; 771]);
   (214, [79; 776]);
   (217, [85; 768]); (218, [85; 769]); (219, [85; 770]); (220, [85; 776]);
   (221, [89; 769]);
   (224, [97; 768]); (225, [97; 769]); (226, [97; 770]); (227, [97; 771]);
   (228, [97; 776]); (229, [97; 778]); (231, [99; 807]);
   (232, [101; 768]); (233, [101; 769]); (234, [101; 770]); (235, [101; 776]);
   (236, [105; 768]); (237, [105; 769]); (238, [105; 770]); (239, [105; 776]);
   (241, [110; 771]);
   (242, [111; 768]); (243, [111; 769]); (244, [111; 770]); (245, [111; 771]);
   (246, [111; 776]);
   (249, [117; 768]); (250, [117; 769]); (251, [117; 770]); (252, [117; 776]);
   (253, [121; 769]); (255, [121; 776])].

Fixpoint assoc (c : N) (table : list (N * list N)) : option (list N) :=
  match table with
  | [] => None
  | (k, v) :: table' => if c =? k then Some v else assoc c table'
  end.

(** NFKD on the text of code points below U+0100; the code points from
    U+0100 on are kept as they are. *)
Definition nfkd_latin1 (s : str) : str :=
  flat_map (fun c => if c <? 160 then [c]
                     else default [c] (assoc c latin1_decompositions)) s.

(** No two characters of the class side by side. *)
Fixpoint norm (p : N -> bool) (s : list N) : Prop :=
  match s with
  | [] => True
  | c :: s' =>
      (p c = true -> forall d, head s' = Some d -> p d = false) /\ norm p s'
  end.

Definition not_slug (c : N) : bool := negb (is_lower_alnum c).

(** What a slug looks like. *)
Definition slug_ok (o : list N) : Prop :=
  o <> []
  /\ Forall (fun c => not_slug c = false \/ c = hyphen) o
  /\ norm not_slug o
  /\ (forall c, head o = Some c -> (hyphen =? c) = false)
  /\ (forall c, last o = Some c -> (hyphen =? c) = false).

(** What the base of a sanitized image name looks like. *)
Definition not_alnum (c : N) : bool := negb (is_alnum c).
Definition img_base_ok (b : list N) : Prop :=
  b <> []
  /\ Forall (fun c => not_alnum c = false \/ c = underscore) b
  /\ norm not_alnum b
  /\ (forall c, head b = Some c -> (underscore =? c) = false)
  /\ (forall c, last b = Some c -> (underscore =? c) = false).

Definition has_markdown_suffix (p : entry) : bool :=
  is_markdown_suffix (lower (suffix (e_name p))).

(** The directory of the images of a slug, empty when there is none, and
    the names stored in it. *)
Definition image_dir (w : world) (slug : str) : gmap (list N) (list N) :=
  default ∅ (images w !! slug).
Definition stored (w : world) (slug name : str) : Prop :=
  is_Some (image_dir w slug !! name).

(** [p] somewhere in [s], letters compared as [re.IGNORECASE] does. *)
Fixpoint ci_contains (p s : str) : bool :=
  ci_startswith p s
  || match s with
     | [] => false
     | _ :: s' => ci_contains p s'
     end.

(** No "src=" begins in [s] before its first ">", so that the search of
    [HTML_IMG_RE] finds nothing from [s] on. *)
Fixpoint no_src_before_gt (s : str) : bool :=
  match s with
  | [] => true
  | c :: s' =>
      negb (ci_startswith (lit "src=") s)
      && (if not_gt c then no_src_before_gt s' else true)
  end.

(** An inline reference and a tag as they are written. *)
Definition md_ref (alt src : str) : str :=
  lit "![" ++ alt ++ lit "](" ++ src ++ lit ")".
Definition img_tag (w : N) (before : str) (q : N) (src : str) (q2 : N)
    (rest : str) : str :=
  lit "<img" ++ w :: before ++ lit "src=" ++ q :: src ++ q2 :: rest ++ lit ">".

(** The predicates of the [glob] and of the sort of [main]. *)
Definition is_zip (z : archive) : bool := endswith (lit ".zip") (z_name z).
Definition older (a b : archive) : Prop := z_mtime a <= z_mtime b.

End Automation.

(** ** The [main] of [spaces.py] *)

Module SpacesMain.

Import Spaces Automation.

(** [EXTS] *)
Definition EXTS : list str := [lit ".md"; lit ".markdown"].

(** The loop of [main] over [POSTS_DIR.rglob("*")]: every path comes
    with the answer of [is_file]; the result is [changed_any] and the
    files after the loop, [None] when a file cannot be opened. *)
Fixpoint reformat_all (paths : list (str * bool)) (dry_run : bool)
    (fs : gmap (list N) (list N)) (changed_any : bool)
  : option (bool * gmap (list N) (list N)) :=
  match paths with
  | [] => Some (changed_any, fs)
  | (p, is_file) :: paths' =>
      if in_exts (lower (suffix (basename p))) EXTS && is_file then
        match process_file p dry_run fs with
        | None => None
        | Some (changed, fs1) =>
            reformat_all paths' dry_run fs1 (changed_any || changed)
        end
      else reformat_all paths' dry_run fs changed_any
  end.

End SpacesMain.

(** ** The files, archives and names of the examples *)

Module Samples.

Import Spaces Automation.

Definition post_path : list N := lit "_posts/a.md".

Definition hello : list N := lit "hello" ++ [nl].

Definition hello_once : list N :=
  lit "hello" ++ [nl] ++ [nl] ++ [nl] ++ CSS_LINK_LINE ++ [nl].

Definition hello_twice : list N :=
  lit "hello" ++ [nl] ++ [nl] ++ CSS_LINK_LINE ++ [nl].

Definition marked_front : list N :=
  lit "---" ++ [nl] ++ lit "css: imagesstyle.css" ++ [nl] ++ lit "---" ++ [nl]
  ++ lit "hello" ++ [nl].

Definition fenced_post : list (list N) :=
  [lit "text" ++ [nl]; lit "```" ++ [nl]; lit "### x" ++ [nl];
   lit "![a](b)" ++ [nl]; [nl]; [nl]; lit "```" ++ [nl]; lit "# title"].

Definition dated : list N :=
  lit "title: a" ++ [nl] ++ lit "date: 2020-01-01" ++ [nl] ++ lit "x" ++ [nl].

Definition empty_date : list N :=
  lit "date: " ++ [nl] ++ lit "title: x" ++ [nl].

Definition cafe : list N :=
  lit "  Caf" ++ [233] ++ lit " M" ++ [252] ++ lit "nster -- (v2)! ".

Definition photo_mapping : gmap (list N) (list N) :=
  {[ lit "photo.png" := lit "s_photo.png" ]}.

Definition new_src : list N :=
  dq ++ lit "{{ '/assets/images/s/s_photo.png' | relative_url }}" ++ dq.

Definition w0 : world := World ∅ ∅ 0 [].

Definition notes_entry (data : list N) : entry :=
  Entry (lit "notes.md") true data.

Definition bad_zip : archive := Archive (lit "bad.zip") 1 None.

Definition good_zip : archive :=
  Archive (lit "good.zip") 2 (Some [notes_entry (lit "hi")]).

Definition pack_zip : archive :=
  Archive (lit "pack.zip") 1 (Some [Entry (lit "notes.md") false []]).

Definition good_post : list N :=
  front_matter (lit "notes") POST_DATE POST_CATEGORY ++ lit "hi".

Definition photo_entry (data : list N) : entry :=
  Entry (lit "photo.PNG") true data.

Definition photo_ref : list N := lit "![x](photo.PNG)".

(** The name the image is stored under and the reference to it. *)
Definition stored_photo (slug : list N) : list N := slug ++ lit "_photo.png".

Definition new_photo_ref (slug : list N) : list N :=
  lit "![x](" ++ templated slug (stored_photo slug) ++ lit ")".

(** The key of photo.PNG in the mapping; an image that takes neither
    that key nor the name photo.PNG is stored under. *)
Definition photo_key : list N := lit "photo.png".
Definition no_clash (q : entry) : bool :=
  negb (str_eqb (lower (e_name q)) photo_key)
  && negb (str_eqb (lower (sanitize_img (e_name q))) photo_key).

(** Trees with photo.PNG and other images, before it and after it. *)
Definition capital_photo : entry := Entry (lit "Photo.png") true [9].
Definition map_image : entry := Entry (lit "map.jpg") true [7].
Definition album_tree (md_data : list N) : list entry :=
  [capital_photo; notes_entry md_data; photo_entry [1; 2; 3]; map_image].
Definition clash_tree (md_data : list N) : list entry :=
  [notes_entry md_data; photo_entry [1; 2; 3]; capital_photo].

(** A document with the reference inside a tag. *)
Definition tagged_doc : list N := lit "<img ![x](photo.PNG) src='photo.PNG'>".

End Samples.

(** * Properties *)

(** ** Strings and lines *)

Module PyFacts.

Lemma take_drop_while p s : take_while p s ++ drop_while p s = s.
Proof.
  induction s as [|c s IH]; simpl; [done|].
  destruct (p c); simpl; [by rewrite IH | done].
Qed.

Lemma drop_while_head p s c s' : drop_while p s = c :: s' -> p c = false.
Proof.
  induction s as [|d s IH]; simpl; [done|].
  destruct (p d) eqn:E; [done|]. intros [= -> _]. done.
Qed.

Lemma strip_of_snoc p s c : p c = true -> strip_of p (s ++ [c]) = strip_of p s.
Proof.
  intros H. unfold strip_of, rstrip_of. rewrite rev_app_distr. simpl.
  by rewrite H.
Qed.

Lemma strip_snoc_nl s : strip (s ++ [nl]) = strip s.
Proof. by apply strip_of_snoc. Qed.

Lemma strip_nl : strip [nl] = [].
Proof. reflexivity. Qed.

Lemma startswith_app n a b : startswith n a = true -> startswith n (a ++ b) = true.
Proof.
  revert a. induction n as [|x n IH]; intros [|y a]; simpl; try done.
  intros [-> H]%andb_true_iff. by rewrite IH.
Qed.

Lemma contains_app_l n a b : contains n a = true -> contains n (a ++ b) = true.
Proof.
  induction a as [|x a IH]; intros H.
  - destruct n; [|done]. destruct b; done.
  - change (startswith n (x :: a) || contains n a = true) in H.
    change (startswith n ((x :: a) ++ b) || contains n (a ++ b) = true).
    apply orb_true_iff in H as [H|H].
    + by rewrite (startswith_app n (x :: a) b H).
    + rewrite (IH H). apply orb_true_r.
Qed.

Lemma contains_app_r n a b : contains n b = true -> contains n (a ++ b) = true.
Proof.
  intros H. induction a as [|x a IH]; simpl; [done|].
  rewrite IH. apply orb_true_r.
Qed.

Lemma contains_join n x ls :
  In x ls -> contains n x = true -> contains n (join ls) = true.
Proof.
  intros Hin Hc. induction ls as [|l ls IH]; [done|].
  unfold join; simpl. destruct Hin as [->|Hin].
  - by apply contains_app_l.
  - apply contains_app_r. by apply IH.
Qed.

Lemma join_readlines t : join (readlines t) = t.
Proof.
  induction t as [|c t IH]; [done|]. simpl.
  destruct (c =? nl).
  - unfold join in *. simpl. by rewrite IH.
  - destruct (readlines t) as [|l ls]; unfold join in *; simpl in *.
    + by rewrite <- IH.
    + by rewrite <- IH.
Qed.

Lemma readlines_wf t : wf_lines (readlines t).
Proof.
  induction t as [|c t IH]; simpl; [constructor|].
  destruct (N.eqb_spec c nl) as [->|Hc].
  - apply (wf_cons [] _); [constructor | done].
  - destruct (readlines t) as [|l ls].
    + apply wf_last; [by repeat constructor | done].
    + inversion IH as [|l' Hl Hne|l' ls' Hl Hls]; subst.
      * apply wf_last; [by constructor | done].
      * apply (wf_cons (c :: l') ls); [by constructor | done].
Qed.

Lemma readlines_nonl l : nonl l -> l <> [] -> readlines l = [l].
Proof.
  induction 1 as [|c l Hc Hl IH]; [done|]. intros _. simpl.
  destruct (N.eqb_spec c nl) as [->|_]; [done|].
  destruct l as [|d l]; [done|]. by rewrite IH.
Qed.

Lemma readlines_closed l t :
  nonl l -> readlines (l ++ nl :: t) = (l ++ [nl]) :: readlines t.
Proof.
  induction 1 as [|c l Hc Hl IH]; [done|]. simpl.
  destruct (N.eqb_spec c nl) as [->|_]; [done|]. by rewrite IH.
Qed.

Lemma readlines_join ls : wf_lines ls -> readlines (join ls) = ls.
Proof.
  induction 1 as [|l Hl Hne|l ls Hl Hls IH]; [done| |].
  - unfold join; simpl. rewrite app_nil_r. by apply readlines_nonl.
  - unfold join in *; simpl. rewrite <- app_assoc. simpl.
    rewrite readlines_closed by done. by rewrite IH.
Qed.

Lemma universal_newlines_no_cr t : no_cr (universal_newlines t).
Proof.
  remember (length t) as n eqn:Hn.
  assert (Hle : (length t <= n)%nat) by lia. clear Hn.
  revert t Hle. induction n as [|n IH]; intros [|c t] Hle; simpl in *;
    [constructor | lia | constructor | ].
  destruct (N.eqb_spec c cr) as [->|Hc].
  - constructor; [done|]. destruct t as [|d t]; [constructor|].
    destruct (d =? nl); apply IH; simpl in *; lia.
  - constructor; [done|]. apply IH; lia.
Qed.

Lemma universal_newlines_id t : no_cr t -> universal_newlines t = t.
Proof.
  induction 1 as [|c t Hc Ht IH]; [done|]. simpl.
  destruct (N.eqb_spec c cr); [done|]. by rewrite IH.
Qed.

Lemma no_cr_join ls : Forall no_cr ls -> no_cr (join ls).
Proof.
  induction 1; unfold join, no_cr in *; simpl; [constructor|].
  apply Forall_app; done.
Qed.

Lemma no_cr_readlines t : no_cr t -> Forall no_cr (readlines t).
Proof.
  intros H. rewrite <- (join_readlines t) in H.
  induction (readlines t) as [|l ls IH]; [constructor|].
  unfold join, no_cr in H; simpl in H. apply Forall_app in H as [H1 H2].
  constructor; [done | by apply IH].
Qed.

(** Below U+0100 the lower case is that of each code point. *)
Lemma lower_from_latin1 s : forall before,
  Forall (fun c => c < 256) s -> lower_from before s = map lower_char s.
Proof.
  induction s as [|c s IH]; intros before H; [done|].
  apply Forall_cons in H as [Hc Hs]. cbn [lower_from map]. unfold lower_at.
  rewrite (proj2 (N.ltb_lt c 256) Hc). cbn [app]. by rewrite IH.
Qed.

Lemma lower_latin1 s :
  Forall (fun c => c < 256) s -> lower s = map lower_char s.
Proof. apply lower_from_latin1. Qed.

End PyFacts.

(** ** The reformatter *)

Module SpacesFacts.

Import Samples PyFacts Spaces.

Lemma endswith_snoc_nl l : endswith [nl] (l ++ [nl]) = true.
Proof. unfold endswith. by rewrite rev_app_distr. Qed.

Lemma with_newline_idem l : with_newline (with_newline l) = with_newline l.
Proof.
  unfold with_newline. destruct (endswith [nl] l) eqn:E; [by rewrite E|].
  by rewrite endswith_snoc_nl.
Qed.

Lemma strip_with_newline l : strip (with_newline l) = strip l.
Proof.
  unfold with_newline. destruct (endswith [nl] l); [done|].
  apply strip_snoc_nl.
Qed.

Lemma not_blank_with_newline l : not_blank (with_newline l) = not_blank l.
Proof. unfold not_blank. by rewrite strip_with_newline. Qed.

Lemma str_eqb_true a b : str_eqb a b = true <-> a = b.
Proof. unfold str_eqb. apply bool_decide_eq_true. Qed.

Lemma str_eqb_false a b : str_eqb a b = false <-> a <> b.
Proof. unfold str_eqb. apply bool_decide_eq_false. Qed.

(** A fence line, an image line and a heading line are not blank. *)
Lemma fence_not_blank l : re_fence_match (strip l) = true -> not_blank l = true.
Proof.
  unfold not_blank. destruct (str_eqb (strip l) []) eqn:E; [|done].
  apply str_eqb_true in E. by rewrite E.
Qed.

Lemma special_not_blank l :
  re_image_search (strip l) || re_header_match (strip l) = true ->
  not_blank l = true.
Proof.
  unfold not_blank. destruct (str_eqb (strip l) []) eqn:E; [|done].
  apply str_eqb_true in E. by rewrite E.
Qed.

Lemma last_not_blank_snoc out x : last_not_blank (out ++ [x]) = not_blank x.
Proof. unfold last_not_blank. by rewrite last_snoc. Qed.

Lemma is_nil_snoc out (x : list N) : is_nil (out ++ [x]) = false.
Proof. by destruct out. Qed.

Lemma last_not_blank_nil_state out :
  (match out with [] => true | _ :: _ => last_not_blank out end)
  = (if is_nil out then true else last_not_blank out).
Proof. by destruct out. Qed.

(** The loop appends [emit] to [out]. *)
Lemma content_loop_emit lines : forall out c,
  content_loop lines out c
  = out ++ emit lines (is_nil out) (last_not_blank out) c.
Proof.
  induction lines as [|line rest IH]; intros out c; simpl.
  { by rewrite app_nil_r. }
  destruct (re_fence_match (strip line)) eqn:Hf.
  { rewrite IH, is_nil_snoc, last_not_blank_snoc, <- app_assoc. done. }
  destruct c.
  { rewrite IH, is_nil_snoc, last_not_blank_snoc, <- app_assoc. done. }
  assert (Hspaced :
    content_loop rest
      (if next_not_blank rest
       then ((if last_not_blank out then out ++ [[nl]] else out)
             ++ [with_newline line]) ++ [[nl]]
       else (if last_not_blank out then out ++ [[nl]] else out)
            ++ [with_newline line]) false
    = out ++ (if last_not_blank out then [[nl]] else [])
          ++ with_newline line
             :: (if next_not_blank rest then [nl] :: emit rest false false false
                 else emit rest false (not_blank (with_newline line)) false)).
  { rewrite IH.
    destruct (last_not_blank out), (next_not_blank rest);
      rewrite ?is_nil_snoc, ?last_not_blank_snoc, <- ?app_assoc; done. }
  destruct (re_image_search (strip line)) eqn:Hi; [exact Hspaced|].
  destruct (re_header_match (strip line)) eqn:Hh; [exact Hspaced|]. simpl.
  destruct (str_eqb (strip line) []) eqn:Hb.
  { rewrite IH, last_not_blank_nil_state.
    destruct (if is_nil out then true else last_not_blank out);
      rewrite ?is_nil_snoc, ?last_not_blank_snoc, <- ?app_assoc; done. }
  rewrite IH, is_nil_snoc, last_not_blank_snoc, <- app_assoc. done.
Qed.

Lemma process_content_lines_emit lines :
  process_content_lines lines = emit lines true false false.
Proof. unfold process_content_lines. by rewrite content_loop_emit. Qed.

Lemma next_not_blank_head l rest : next_not_blank (l :: rest) = not_blank l.
Proof. done. Qed.

Lemma next_not_blank_nl rest : next_not_blank ([nl] :: rest) = false.
Proof. reflexivity. Qed.

(** The cases of the loop, one equation each. *)
Lemma emit_fence l rest e b c :
  re_fence_match (strip l) = true ->
  emit (l :: rest) e b c = l :: emit rest false true (negb c).
Proof.
  intros H. cbn [emit]. rewrite H. by rewrite (fence_not_blank l H).
Qed.

Lemma emit_code l rest e b :
  re_fence_match (strip l) = false ->
  emit (l :: rest) e b true = l :: emit rest false (not_blank l) true.
Proof. intros H. cbn [emit]. by rewrite H. Qed.

Lemma emit_special l rest e b :
  re_fence_match (strip l) = false ->
  re_image_search (strip l) || re_header_match (strip l) = true ->
  emit (l :: rest) e b false
  = (if b then [[nl]] else [])
    ++ with_newline l
       :: (if next_not_blank rest then [nl] :: emit rest false false false
           else emit rest false true false).
Proof.
  intros Hf Hs. cbn [emit]. rewrite Hf, Hs, not_blank_with_newline.
  by rewrite (special_not_blank l Hs).
Qed.

Lemma emit_blank l rest e b :
  not_blank l = false ->
  emit (l :: rest) e b false
  = if (if e then true else b) then [nl] :: emit rest false false false
    else emit rest e b false.
Proof.
  unfold not_blank. intros H%negb_false_iff%str_eqb_true.
  cbn [emit]. rewrite H. reflexivity.
Qed.

Lemma emit_plain l rest e b :
  re_fence_match (strip l) = false ->
  re_image_search (strip l) || re_header_match (strip l) = false ->
  not_blank l = true ->
  emit (l :: rest) e b false = with_newline l :: emit rest false true false.
Proof.
  intros Hf Hs Hb. cbn [emit]. rewrite Hf, Hs, not_blank_with_newline, Hb.
  unfold not_blank in Hb. apply negb_true_iff in Hb. by rewrite Hb.
Qed.

Lemma kind_of l : kind l.
Proof.
  destruct (re_fence_match (strip l)) eqn:Hf; [by apply KFence|].
  destruct (re_image_search (strip l) || re_header_match (strip l)) eqn:Hs;
    [by apply KSpecial|].
  destruct (not_blank l) eqn:Hb; [by apply KPlain | by apply KBlank].
Qed.

Lemma nl_blank : not_blank [nl] = false.
Proof. reflexivity. Qed.

(** The content pass leaves its own output as it is. *)
Lemma emit_idem lines : forall e b c,
  emit (emit lines e b c) e b c = emit lines e b c.
Proof.
  induction lines as [|line rest IH]; intros e b c; [done|].
  destruct (kind_of line) as [Hf|Hf Hs|Hf Hb|Hf Hs Hb].
  - rewrite !(emit_fence line) by done. by rewrite IH.
  - destruct c; [rewrite !(emit_code line) by done; by rewrite IH|].
    rewrite (emit_special line rest) by done.
    assert (Hstep : forall e' X,
      X = (if next_not_blank rest then [nl] :: emit rest false false false
           else emit rest false true false) ->
      emit (with_newline line :: X) e' false false = with_newline line :: X).
    { intros e' X ->.
      rewrite emit_special by by rewrite strip_with_newline.
      rewrite with_newline_idem. simpl app. f_equal.
      destruct (next_not_blank rest) eqn:Hn.
      - rewrite next_not_blank_nl, (emit_blank [nl]) by done. by rewrite IH.
      - destruct rest as [|l2 rest2]; [done|].
        rewrite next_not_blank_head in Hn.
        rewrite (emit_blank l2 rest2 false true Hn) at 1.
        rewrite next_not_blank_nl. apply IH. }
    destruct b; simpl app.
    + rewrite (emit_blank [nl]) by done.
      replace (if e then true else true) with true by by destruct e.
      f_equal. by apply Hstep.
    + by apply Hstep.
  - destruct c; [rewrite !(emit_code line) by done; by rewrite IH|].
    rewrite (emit_blank line) by done.
    destruct (if e then true else b) eqn:Heb; [|apply IH].
    rewrite (emit_blank [nl]) by done. rewrite Heb. by rewrite IH.
  - destruct c; [rewrite !(emit_code line) by done; by rewrite IH|].
    rewrite (emit_plain line) by done.
    rewrite emit_plain
      by (rewrite ?strip_with_newline, ?not_blank_with_newline; done).
    by rewrite with_newline_idem, IH.
Qed.

Lemma process_content_lines_idem lines :
  process_content_lines (process_content_lines lines)
  = process_content_lines lines.
Proof. rewrite !process_content_lines_emit. apply emit_idem. Qed.

(** *** What the content pass keeps *)

(** A property of lines that the inserted blank line has and that adding
    a line end keeps holds of every line emitted. *)
Lemma emit_Forall (Q : list N -> Prop) lines :
  Q [nl] -> (forall x, Q x -> Q (with_newline x)) ->
  Forall Q lines -> forall e b c, Forall Q (emit lines e b c).
Proof.
  intros Hnl Hwn. induction 1 as [|l rest Hl Hrest IH]; intros e b c;
    [constructor|].
  destruct (kind_of l) as [Hf|Hf Hs|Hf Hb|Hf Hs Hb].
  - rewrite emit_fence by done. constructor; [done | apply IH].
  - destruct c; [rewrite emit_code by done; constructor; [done | apply IH]|].
    rewrite emit_special by done.
    apply Forall_app. split; [destruct b; repeat constructor; done|].
    constructor; [by apply Hwn|].
    destruct (next_not_blank rest); [constructor; [done|]|]; apply IH.
  - destruct c; [rewrite emit_code by done; constructor; [done | apply IH]|].
    rewrite emit_blank by done.
    destruct (if e then true else b); [constructor; [done|]|]; apply IH.
  - destruct c; [rewrite emit_code by done; constructor; [done | apply IH]|].
    rewrite emit_plain by done. constructor; [by apply Hwn | apply IH].
Qed.

Lemma no_cr_with_newline x : no_cr x -> no_cr (with_newline x).
Proof.
  unfold with_newline, no_cr. destruct (endswith [nl] x); [done|].
  intros H. apply Forall_app. split; [done|]. by repeat constructor.
Qed.

Lemma emit_no_cr lines e b c :
  Forall no_cr lines -> Forall no_cr (emit lines e b c).
Proof.
  intros H. apply emit_Forall; [by repeat constructor | | done].
  apply no_cr_with_newline.
Qed.

Lemma endswith_nonl x : nonl x -> endswith [nl] x = false.
Proof.
  intros H. unfold endswith. destruct (rev x) as [|c r] eqn:E; [done|].
  change ((nl =? c) && true = false).
  destruct (N.eqb_spec nl c) as [<-|]; [|done].
  assert (Hin : In nl x) by (apply in_rev; rewrite E; by left).
  unfold nonl in H. rewrite Forall_forall in H.
  apply list_elem_of_In in Hin. by apply H in Hin.
Qed.

Lemma wf_closed x ls : closed x -> wf_lines ls -> wf_lines (x :: ls).
Proof. intros (l & Hl & ->) H. by apply wf_cons. Qed.

Lemma closed_nl : closed [nl].
Proof. exists []. split; [constructor | done]. Qed.

Lemma closed_with_newline_closed x : closed x -> closed (with_newline x).
Proof.
  intros (l & Hl & ->). unfold with_newline. rewrite endswith_snoc_nl.
  by exists l.
Qed.

Lemma closed_with_newline_nonl x : nonl x -> closed (with_newline x).
Proof.
  intros H. unfold with_newline. rewrite endswith_nonl by done. by exists x.
Qed.

(** The content pass gives lines that can be written and read back. *)
Lemma emit_wf lines :
  wf_lines lines -> forall e b c, wf_lines (emit lines e b c).
Proof.
  induction 1 as [|l Hl Hne|l ls Hl Hls IH]; intros e b c; [constructor| |].
  - destruct (kind_of l) as [Hf|Hf Hs|Hf Hb|Hf Hs Hb].
    + rewrite emit_fence by done. by apply wf_last.
    + destruct c; [rewrite emit_code by done; by apply wf_last|].
      rewrite emit_special by done. simpl.
      destruct b; simpl; repeat apply wf_closed;
        auto using closed_nl, closed_with_newline_nonl, wf_nil.
    + destruct c; [rewrite emit_code by done; by apply wf_last|].
      rewrite emit_blank by done.
      destruct (if e then true else b); simpl;
        auto using wf_closed, closed_nl, wf_nil.
    + destruct c; [rewrite emit_code by done; by apply wf_last|].
      rewrite emit_plain by done. simpl.
      auto using wf_closed, closed_with_newline_nonl, wf_nil.
  - assert (Hc : closed (l ++ [nl])) by by exists l.
    destruct (kind_of (l ++ [nl])) as [Hf|Hf Hs|Hf Hb|Hf Hs Hb].
    + rewrite emit_fence by done. by apply wf_cons.
    + destruct c; [rewrite emit_code by done; by apply wf_cons|].
      rewrite emit_special by done.
      destruct b, (next_not_blank ls); simpl; repeat apply wf_closed;
        auto using closed_nl, closed_with_newline_closed.
    + destruct c; [rewrite emit_code by done; by apply wf_cons|].
      rewrite emit_blank by done.
      destruct (if e then true else b); auto using wf_closed, closed_nl.
    + destruct c; [rewrite emit_code by done; by apply wf_cons|].
      rewrite emit_plain by done.
      auto using wf_closed, closed_with_newline_closed.
Qed.

(** A line that is not blank is emitted, with a line end at its end if it
    had none. *)
Lemma emit_keeps l lines :
  In l lines -> not_blank l = true ->
  forall e b c,
    In l (emit lines e b c) \/ In (with_newline l) (emit lines e b c).
Proof.
  intros Hin Hnb. induction lines as [|x rest IH]; [done|]. intros e b c.
  assert (Htail : forall e' b' c' pre,
    (In l rest -> In l (pre ++ emit rest e' b' c')
                  \/ In (with_newline l) (pre ++ emit rest e' b' c'))).
  { intros e' b' c' pre H.
    destruct (IH H e' b' c'); [left | right]; apply in_or_app; by right. }
  destruct Hin as [->|Hin].
  - destruct (kind_of l) as [Hf|Hf Hs|Hf Hb|Hf Hs Hb].
    + rewrite emit_fence by done. left. by left.
    + destruct c; [rewrite emit_code by done; left; by left|].
      rewrite emit_special by done. right. apply in_or_app. right. by left.
    + congruence.
    + destruct c; [rewrite emit_code by done; left; by left|].
      rewrite emit_plain by done. right. by left.
  - destruct (kind_of x) as [Hf|Hf Hs|Hf Hb|Hf Hs Hb].
    + rewrite emit_fence by done. by apply (Htail _ _ _ [x]).
    + destruct c; [rewrite emit_code by done; by apply (Htail _ _ _ [x])|].
      rewrite emit_special by done.
      destruct (next_not_blank rest).
      * apply (Htail false false false
                 ((if b then [[nl]] else []) ++ [with_newline x; [nl]])) in Hin.
        by rewrite <- !app_assoc in Hin.
      * apply (Htail false true false
                 ((if b then [[nl]] else []) ++ [with_newline x])) in Hin.
        by rewrite <- !app_assoc in Hin.
    + destruct c; [rewrite emit_code by done; by apply (Htail _ _ _ [x])|].
      rewrite emit_blank by done.
      destruct (if e then true else b).
      * by apply (Htail _ _ _ [[nl]]).
      * by apply (Htail _ _ _ []).
    + destruct c; [rewrite emit_code by done; by apply (Htail _ _ _ [x])|].
      rewrite emit_plain by done. by apply (Htail _ _ _ [with_newline x]).
Qed.

Lemma drop_while_nil p s : drop_while p s = [] -> forallb p s = true.
Proof.
  induction s as [|c s IH]; simpl; [done|].
  destruct (p c); [apply IH | done].
Qed.

Lemma strip_of_nil p s : strip_of p s = [] -> forallb p s = true.
Proof.
  unfold strip_of, lstrip_of, rstrip_of. intros H%drop_while_nil.
  assert (Hd : drop_while p (rev s) = []).
  { destruct (drop_while p (rev s)) as [|c r] eqn:E; [done|].
    apply drop_while_head in E. rewrite forallb_forall in H.
    rewrite (H c) in E; [done|]. apply in_rev. rewrite rev_involutive.
    by left. }
  apply drop_while_nil in Hd. rewrite forallb_forall in Hd |- *.
  intros c Hc. apply Hd. by apply in_rev in Hc.
Qed.

Lemma startswith_head a n s : startswith (a :: n) s = true -> In a s.
Proof.
  destruct s as [|c s]; simpl; [done|].
  intros [->%N.eqb_eq _]%andb_true_iff. by left.
Qed.

Lemma contains_head a n s : contains (a :: n) s = true -> In a s.
Proof.
  induction s as [|c s IH]; [done|].
  change (startswith (a :: n) (c :: s) || contains (a :: n) s = true
          -> In a (c :: s)).
  intros [H|H]%orb_true_iff; [by apply (startswith_head a n) | right; auto].
Qed.

(** A line that holds the marker is not blank. *)
Lemma marker_not_blank l : contains needle l = true -> not_blank l = true.
Proof.
  intros H. unfold not_blank. destruct (str_eqb (strip l) []) eqn:E; [|done].
  apply str_eqb_true, strip_of_nil in E. rewrite forallb_forall in E.
  apply contains_head, E in H. done.
Qed.

Lemma marker_with_newline l :
  contains needle l = true -> contains needle (with_newline l) = true.
Proof.
  unfold with_newline. destruct (endswith [nl] l); [done|].
  apply contains_app_l.
Qed.

(** With the marker in a line of the content, nothing is appended. *)
Lemma append_css_present content :
  existsb (contains needle) content = true ->
  append_css_link_if_missing (process_content_lines content)
  = process_content_lines content.
Proof.
  intros (l & Hin & Hl)%existsb_exists. unfold append_css_link_if_missing.
  rewrite process_content_lines_emit.
  destruct (emit_keeps l content Hin (marker_not_blank l Hl) true false false)
    as [H|H].
  - by rewrite (contains_join needle l _ H Hl).
  - by rewrite (contains_join needle _ _ H (marker_with_newline l Hl)).
Qed.

Lemma append_css_present_join lines :
  contains needle (join lines) = true ->
  append_css_link_if_missing lines = lines.
Proof. intros H. unfold append_css_link_if_missing. by rewrite H. Qed.

(** *** Front matter *)

Lemma find_close_none front rest :
  Forall unmarked rest -> find_close front rest = None.
Proof.
  intros H. revert front. induction H as [|l rest Hl Hrest IH]; intros front;
    [done|]. simpl. apply str_eqb_false in Hl. rewrite Hl. apply IH.
Qed.

Lemma find_close_some front rest f c :
  find_close front rest = Some (f, c) ->
  exists mid l, f = front ++ mid ++ [l] /\ rest = mid ++ l :: c
                /\ strip l = front_mark /\ Forall unmarked mid.
Proof.
  revert front. induction rest as [|x rest IH]; intros front; [done|]. simpl.
  destruct (str_eqb (strip x) front_mark) eqn:E.
  - intros [= <- <-]. exists [], x. apply str_eqb_true in E. by repeat split.
  - intros (mid & l & -> & -> & Hl & Hmid)%IH.
    exists (x :: mid), l. rewrite <- app_assoc. repeat split; try done.
    constructor; [by apply str_eqb_false | done].
Qed.

Lemma find_close_found front mid l c :
  Forall unmarked mid -> strip l = front_mark ->
  find_close front (mid ++ l :: c) = Some (front ++ mid ++ [l], c).
Proof.
  intros Hmid Hl. revert front.
  induction Hmid as [|x mid Hx Hmid IH]; intros front; simpl.
  - apply str_eqb_true in Hl. by rewrite Hl.
  - apply str_eqb_false in Hx. rewrite Hx, IH, <- app_assoc. done.
Qed.

Lemma find_close_unmarked front rest :
  find_close front rest = None -> Forall unmarked rest.
Proof.
  revert front. induction rest as [|x rest IH]; intros front; [constructor|].
  simpl. destruct (str_eqb (strip x) front_mark) eqn:E; [done|].
  intros H. constructor; [by apply str_eqb_false | by apply (IH _ H)].
Qed.

Lemma split_front_matter_spec lines :
  split_spec lines (fst (split_front_matter lines))
             (snd (split_front_matter lines)).
Proof.
  destruct lines as [|l0 rest]; [by apply SplitEmpty|].
  unfold split_front_matter.
  destruct (str_eqb (strip l0) front_mark) eqn:E; simpl.
  - apply str_eqb_true in E.
    destruct (find_close [l0] rest) as [[f c]|] eqn:F; simpl.
    + apply find_close_some in F as (mid & l & -> & -> & Hl & Hmid).
      by apply SplitFront.
    + apply find_close_unmarked in F. by eapply SplitNoClose.
  - apply str_eqb_false in E. by eapply SplitNoOpen.
Qed.

Lemma split_front_matter_app lines :
  fst (split_front_matter lines) ++ snd (split_front_matter lines) = lines.
Proof.
  destruct (split_front_matter_spec lines) as [l0 mid l c -> _ _ _| | |];
    try done.
  simpl. by rewrite <- app_assoc.
Qed.

Lemma unmarked_nl : unmarked [nl].
Proof. done. Qed.

Lemma unmarked_with_newline x : unmarked x -> unmarked (with_newline x).
Proof. unfold unmarked. by rewrite strip_with_newline. Qed.

(** The first line emitted is the first line of the input, with a line
    end, or a blank line for a blank one. *)
Lemma emit_first l0 rest :
  exists x tl, emit (l0 :: rest) true false false = x :: tl
               /\ (unmarked l0 -> unmarked x).
Proof.
  destruct (kind_of l0) as [Hf|Hf Hs|Hf Hb|Hf Hs Hb].
  - rewrite emit_fence by done. eauto.
  - rewrite emit_special by done. simpl.
    eauto using unmarked_with_newline.
  - rewrite emit_blank by done. simpl. eauto using unmarked_nl.
  - rewrite emit_plain by done. eauto using unmarked_with_newline.
Qed.

(** The front matter found in a file is found again, in front of the new
    content, when the file is read back. *)
Lemma split_front_matter_again lines :
  let front := fst (split_front_matter lines) in
  let content := snd (split_front_matter lines) in
  split_front_matter (front ++ process_content_lines content)
  = (front, process_content_lines content).
Proof.
  simpl.
  destruct (split_front_matter_spec lines)
    as [l0 mid l c -> H0 Hmid Hl| -> |l0 rest -> H0|l0 rest -> H0 Hrest].
  - change ((l0 :: mid ++ [l]) ++ process_content_lines c)
      with (l0 :: (mid ++ [l]) ++ process_content_lines c).
    rewrite <- app_assoc. cbn [split_front_matter app].
    apply str_eqb_true in H0. rewrite H0. cbn [negb].
    rewrite (find_close_found [l0] mid l _ Hmid Hl). done.
  - done.
  - simpl. rewrite process_content_lines_emit.
    destruct (emit_first l0 rest) as (x & tl & -> & Hx).
    simpl. specialize (Hx H0). apply str_eqb_false in Hx. by rewrite Hx.
  - simpl. rewrite process_content_lines_emit.
    assert (Hk : emit (l0 :: rest) true false false
                 = with_newline l0 :: emit rest false true false).
    { apply emit_plain; unfold not_blank; by rewrite H0. }
    rewrite Hk. simpl. rewrite strip_with_newline.
    apply str_eqb_true in H0. rewrite H0. simpl.
    rewrite find_close_none; [done|].
    apply emit_Forall; auto using unmarked_nl, unmarked_with_newline.
Qed.

(** The lines of a run that appends nothing can be written and read
    back. *)
Lemma front_content_wf lines :
  wf_lines lines ->
  wf_lines (fst (split_front_matter lines)
            ++ process_content_lines (snd (split_front_matter lines))).
Proof.
  intros Hwf. rewrite process_content_lines_emit.
  pose proof (split_front_matter_app lines) as Happ.
  revert Happ.
  generalize (fst (split_front_matter lines)) as front.
  generalize (snd (split_front_matter lines)) as content.
  intros content front <-.
  revert Hwf. induction front as [|x front IH]; intros Hwf; simpl.
  - by apply emit_wf.
  - inversion Hwf as [|l Hl Hne Heq|l ls Hl Hls Heq]; subst.
    + destruct front; [|done]. destruct content; [|done].
      simpl. by apply wf_last.
    + apply wf_cons; [done | by apply IH].
Qed.

(** *** Running the reformatter twice *)

Lemma new_lines_of_eq original :
  new_lines_of original
  = fst (split_front_matter original)
    ++ append_css_link_if_missing
         (process_content_lines (snd (split_front_matter original))).
Proof. unfold new_lines_of. by destruct (split_front_matter original). Qed.

Lemma lines_eqb_refl ls : lines_eqb ls ls = true.
Proof. unfold lines_eqb. by apply bool_decide_eq_true. Qed.

(** The lines of a run that has the marker in its content are left as
    they are by a run on them. *)
Lemma new_lines_of_again original :
  existsb (contains needle) (snd (split_front_matter original)) = true ->
  new_lines_of (new_lines_of original) = new_lines_of original.
Proof.
  intros Hm. rewrite (new_lines_of_eq original), (append_css_present _ Hm).
  rewrite new_lines_of_eq, split_front_matter_again. cbn [fst snd].
  rewrite process_content_lines_idem. by rewrite (append_css_present _ Hm).
Qed.

Lemma new_lines_of_written raw :
  marker_in_content raw ->
  let new_lines := new_lines_of (readlines (universal_newlines raw)) in
  readlines (universal_newlines (join new_lines)) = new_lines.
Proof.
  intros Hm. cbv zeta. unfold marker_in_content in Hm.
  set (original := readlines (universal_newlines raw)) in *.
  rewrite (new_lines_of_eq original), (append_css_present _ Hm).
  assert (Hcr : Forall no_cr original)
    by apply no_cr_readlines, universal_newlines_no_cr.
  rewrite <- (split_front_matter_app original) in Hcr.
  apply Forall_app in Hcr as [Hf Hc].
  rewrite universal_newlines_id.
  - apply readlines_join, front_content_wf, readlines_wf.
  - apply no_cr_join, Forall_app. split; [done|].
    rewrite process_content_lines_emit. by apply emit_no_cr.
Qed.

(** C1, as amended: on a file whose content block holds the marker in one
    of its lines, so that no stylesheet line is appended, a second run of
    the reformatter finds the lines it would write equal to the lines it
    read, reports no change and writes nothing. *)
Theorem reformat_twice_no_change path raw fs changed fs1 :
  fs !! path = Some raw ->
  marker_in_content raw ->
  process_file path false fs = Some (changed, fs1) ->
  process_file path false fs1 = Some (false, fs1).
Proof.
  intros Hraw Hm. unfold process_file at 1. rewrite Hraw.
  destruct (lines_eqb _ _) eqn:E; intros [= <- <-].
  - unfold process_file. by rewrite Hraw, E.
  - unfold process_file. rewrite lookup_insert_eq.
    rewrite (new_lines_of_written raw Hm).
    rewrite (new_lines_of_again _ Hm), lines_eqb_refl. done.
Qed.

(** A file whose only line holds the marker: the first run adds the line
    end, the second run changes nothing. *)
Lemma reformat_twice_no_change_witness :
  exists fs1,
    process_file post_path false {[ post_path := lit "imagesstyle.css" ]}
    = Some (true, fs1)
    /\ process_file post_path false fs1 = Some (false, fs1).
Proof.
  eexists. split; [vm_compute; reflexivity|].
  eapply (reformat_twice_no_change post_path (lit "imagesstyle.css")
            {[ post_path := lit "imagesstyle.css" ]} true).
  - vm_compute. reflexivity.
  - vm_compute. reflexivity.
  - vm_compute. reflexivity.
Defined.

(** C1 fails on the file "hello": the first run appends two blank lines
    and the stylesheet line, the second run collapses the two blank lines
    into one, so it reports a change and writes the file again. *)
Lemma reformat_twice_changes :
  process_file post_path false {[ post_path := hello ]}
  = Some (true, {[ post_path := hello_once; post_path ++ bak := hello ]})
  /\ process_file post_path false
       {[ post_path := hello_once; post_path ++ bak := hello ]}
     = Some (true, {[ post_path := hello_twice;
                      post_path ++ bak := hello_once ]})
  /\ hello_once <> hello_twice.
Proof. vm_compute. repeat split; done. Qed.

(** *** The stylesheet line and the front matter *)

(** C2 on the code: the marker is looked for in the content block only.
    A file whose front matter holds the marker, and whose content does
    not, gets the stylesheet line appended. *)
Theorem marker_in_front_matter_not_seen :
  contains needle marked_front = true
  /\ split_front_matter (readlines marked_front)
     = ([lit "---" ++ [nl]; lit "css: imagesstyle.css" ++ [nl];
         lit "---" ++ [nl]],
        [lit "hello" ++ [nl]])
  /\ new_lines_of (readlines marked_front)
     = readlines marked_front ++ [[nl]; [nl]; CSS_LINK_LINE ++ [nl]]
  /\ process_file post_path false {[ post_path := marked_front ]}
     = Some (true,
             {[ post_path :=
                  marked_front ++ [nl] ++ [nl] ++ CSS_LINK_LINE ++ [nl];
                post_path ++ bak := marked_front ]}).
Proof. vm_compute. repeat split; done. Qed.

(** *** Fenced code *)

Lemma next_not_blank_app_fence pre l rest :
  next_not_blank (pre ++ l :: rest) = next_not_blank (pre ++ [l]).
Proof. by destruct pre. Qed.

(** Up to a fence line the loop does not look at what follows it. *)
Lemma content_loop_to_fence pre l :
  re_fence_match (strip l) = true ->
  forall out c, exists o1,
    content_loop (pre ++ [l]) out c = o1 ++ [l]
    /\ forall rest,
         content_loop (pre ++ l :: rest) out c
         = content_loop rest (o1 ++ [l]) (negb (fence_state pre c)).
Proof.
  intros Hl. induction pre as [|x pre IH]; intros out c.
  - exists out. simpl. rewrite Hl. done.
  - assert (Hcase : exists out' c',
      (forall r, next_not_blank r = next_not_blank (pre ++ [l]) ->
                 content_loop (x :: r) out c = content_loop r out' c')
      /\ fence_state (x :: pre) c = fence_state pre c').
    { cbn [content_loop fence_state fold_left].
      destruct (re_fence_match (strip x)); [by eexists _, _|].
      destruct c; [by eexists _, _|].
      destruct (re_image_search (strip x)).
      { eexists _, _. split; [|reflexivity]. intros r ->. reflexivity. }
      destruct (re_header_match (strip x)).
      { eexists _, _. split; [|reflexivity]. intros r ->. reflexivity. }
      destruct (str_eqb (strip x) []); by eexists _, _. }
    destruct Hcase as (out' & c' & Hstep & Hfs).
    destruct (IH out' c') as (o1 & H1 & H2). exists o1. split.
    + rewrite <- H1. by apply (Hstep (pre ++ [l])).
    + intros rest. rewrite Hfs, <- H2. apply (Hstep (pre ++ l :: rest)).
      apply next_not_blank_app_fence.
Qed.

(** Inside a fence every line is appended as it is. *)
Lemma content_loop_in_code body :
  Forall (fun l => re_fence_match (strip l) = false) body ->
  forall rest out,
    content_loop (body ++ rest) out true = content_loop rest (out ++ body) true.
Proof.
  induction 1 as [|l body Hl Hbody IH]; intros rest out; simpl.
  - by rewrite app_nil_r.
  - rewrite Hl, IH, <- app_assoc. done.
Qed.

Lemma append_css_prefix lines :
  exists extra, append_css_link_if_missing lines = lines ++ extra.
Proof.
  unfold append_css_link_if_missing.
  destruct (contains needle (join lines)); [exists []; by rewrite app_nil_r|].
  destruct (last_not_blank lines); eexists; rewrite <- ?app_assoc; done.
Qed.

(** C9: the lines from a line that opens a fence to the line that closes
    it are in the output of the reformatter as they are in its input, one
    after the other with nothing between them; what comes before them is
    the output for the lines before the fence. *)
Theorem fenced_region_verbatim original pre open body close post :
  snd (split_front_matter original) = pre ++ open :: body ++ close :: post ->
  fence_state pre false = false ->
  re_fence_match (strip open) = true ->
  Forall (fun l => re_fence_match (strip l) = false) body ->
  re_fence_match (strip close) = true ->
  exists o1 o2,
    process_content_lines (pre ++ [open]) = o1 ++ [open]
    /\ new_lines_of original
       = fst (split_front_matter original)
         ++ o1 ++ open :: body ++ close :: o2.
Proof.
  intros Hsplit Hpre Hopen Hbody Hclose.
  destruct (content_loop_to_fence pre open Hopen [] false) as (o1 & H1 & H2).
  rewrite new_lines_of_eq, Hsplit.
  destruct (append_css_prefix
              (process_content_lines (pre ++ open :: body ++ close :: post)))
    as (extra & ->).
  unfold process_content_lines at 2. rewrite H2, Hpre. cbn [negb].
  rewrite content_loop_in_code by done.
  cbn [content_loop]. rewrite Hclose. cbn [negb].
  rewrite content_loop_emit.
  eexists o1, _. split; [exact H1|].
  rewrite <- !app_assoc. cbn [app]. reflexivity.
Qed.

(** A heading, an image and two blank lines inside a fence. *)
Lemma fenced_region_verbatim_witness :
  exists o1 o2,
    process_content_lines ([lit "text" ++ [nl]] ++ [lit "```" ++ [nl]])
    = o1 ++ [lit "```" ++ [nl]]
    /\ new_lines_of fenced_post
       = fst (split_front_matter fenced_post)
         ++ o1 ++ (lit "```" ++ [nl])
            :: [lit "### x" ++ [nl]; lit "![a](b)" ++ [nl]; [nl]; [nl]]
            ++ (lit "```" ++ [nl]) :: o2.
Proof.
  apply (fenced_region_verbatim fenced_post [lit "text" ++ [nl]]
           (lit "```" ++ [nl])
           [lit "### x" ++ [nl]; lit "![a](b)" ++ [nl]; [nl]; [nl]]
           (lit "```" ++ [nl]) [lit "# title"]).
  - vm_compute. reflexivity.
  - vm_compute. reflexivity.
  - vm_compute. reflexivity.
  - repeat constructor.
  - vm_compute. reflexivity.
Defined.

(** The same input, evaluated: the heading in the fence stays glued to
    its neighbours, the heading after the fence gets its blank line. *)
Example fenced_post_output :
  process_content_lines fenced_post
  = [lit "text" ++ [nl]; lit "```" ++ [nl]; lit "### x" ++ [nl];
     lit "![a](b)" ++ [nl]; [nl]; [nl]; lit "```" ++ [nl]; [nl];
     lit "# title" ++ [nl]].
Proof. vm_compute. reflexivity. Qed.

End SpacesFacts.

(** ** The date normalizer *)

Module FixDatesFacts.

Import Samples FixDates.

Example date_line_rewritten :
  fix_date_in_file dated
  = (Changed,
     Some (lit "title: a" ++ [nl] ++ lit "date:   2025-07-17 12:05:57 -0400"
           ++ [nl] ++ lit "x" ++ [nl])).
Proof. vm_compute. reflexivity. Qed.

Example no_date_line_unchanged :
  fix_date_in_file (lit "title: a" ++ [nl] ++ lit "update: 3" ++ [nl])
  = (NotFound, None).
Proof. vm_compute. reflexivity. Qed.

(** C8 on the code: the white space of the pattern runs over the end of
    the line, so a date line with nothing but white space after the colon
    is matched together with the line that follows it, and that line is
    lost.  The same happens when the line is "date:" alone. *)
Theorem empty_date_swallows_next_line :
  fix_date_in_file empty_date
  = (Changed, Some (lit "date:   2025-07-17 12:05:57 -0400" ++ [nl]))
  /\ fix_date_in_file (lit "date:" ++ [nl] ++ lit "title: x" ++ [nl])
     = (Changed, Some (lit "date:   2025-07-17 12:05:57 -0400" ++ [nl])).
Proof. vm_compute. split; reflexivity. Qed.

End FixDatesFacts.

(** ** The importer: slugs *)

Module SlugFacts.

Import Samples PyFacts Automation.

(** *** Stripping *)

Lemma strip_of_infix p s : exists a b, s = a ++ strip_of p s ++ b.
Proof.
  unfold strip_of, lstrip_of, rstrip_of.
  exists (take_while p (rev (drop_while p (rev s)))),
         (rev (take_while p (rev s))).
  rewrite app_assoc, take_drop_while, <- rev_app_distr, take_drop_while.
  by rewrite rev_involutive.
Qed.

Lemma strip_of_head p s c : head (strip_of p s) = Some c -> p c = false.
Proof.
  unfold strip_of, lstrip_of.
  destruct (drop_while p (rstrip_of p s)) as [|d r] eqn:E; [done|].
  intros [= <-]. by apply drop_while_head in E.
Qed.

Lemma drop_while_snoc p u c :
  p c = false -> exists k, drop_while p (u ++ [c]) = k ++ [c].
Proof.
  intros Hc. induction u as [|d u IH]; simpl.
  - rewrite Hc. by exists [].
  - destruct (p d); [done|]. by exists (d :: u).
Qed.

Lemma strip_of_last p s c : last (strip_of p s) = Some c -> p c = false.
Proof.
  unfold strip_of, lstrip_of, rstrip_of.
  destruct (drop_while p (rev s)) as [|d w] eqn:E; [done|].
  apply drop_while_head in E. simpl.
  destruct (drop_while_snoc p (rev w) d E) as (k & ->).
  rewrite last_snoc. by intros [= <-].
Qed.

Lemma strip_of_id p s :
  (forall c, head s = Some c -> p c = false) ->
  (forall c, last s = Some c -> p c = false) ->
  strip_of p s = s.
Proof.
  intros Hh Hl. unfold strip_of, lstrip_of, rstrip_of.
  assert (Hr : drop_while p (rev s) = rev s).
  { destruct s as [|c s _] using rev_ind; [done|].
    rewrite rev_app_distr. simpl. rewrite (Hl c); [done|]. apply last_snoc. }
  rewrite Hr, rev_involutive. destruct s as [|c s]; [done|].
  simpl. by rewrite (Hh c).
Qed.

(** *** Runs *)

Section Runs.

Variable p : N -> bool.
Variable h : N.
Hypothesis p_h : p h = true.

Lemma sub_runs_in_run_head s d :
  head (sub_runs p [h] true s) = Some d -> p d = false.
Proof.
  induction s as [|c s IH]; simpl; [done|].
  destruct (p c) eqn:E; [done|]. simpl. by intros [= <-].
Qed.

Lemma sub_runs_norm s : forall b, norm p (sub_runs p [h] b s).
Proof.
  induction s as [|c s IH]; intros b; simpl; [done|].
  destruct (p c) eqn:E.
  - destruct b; simpl; [apply IH|]. split; [|apply IH].
    intros _. apply sub_runs_in_run_head.
  - simpl. split; [congruence | apply IH].
Qed.

Lemma sub_runs_chars s : forall b,
  Forall (fun c => p c = false \/ c = h) (sub_runs p [h] b s).
Proof.
  induction s as [|c s IH]; intros b; simpl; [constructor|].
  destruct (p c) eqn:E.
  - destruct b; simpl; [apply IH|]. constructor; [by right | apply IH].
  - constructor; [by left | apply IH].
Qed.

Lemma sub_runs_in_run s :
  (forall d, head s = Some d -> p d = false) ->
  sub_runs p [h] true s = sub_runs p [h] false s.
Proof. destruct s as [|c s]; simpl; [done|]. intros H. by rewrite (H c). Qed.

Lemma sub_runs_fixed s :
  Forall (fun c => p c = false \/ c = h) s -> norm p s ->
  sub_runs p [h] false s = s.
Proof.
  induction 1 as [|c s Hc Hs IH]; [done|]. intros [Hn Hnorm]. simpl.
  destruct (p c) eqn:E.
  - destruct Hc as [?| ->]; [congruence|]. simpl.
    rewrite sub_runs_in_run by auto. by rewrite IH.
  - by rewrite IH.
Qed.

Lemma norm_app_r a m : norm p (a ++ m) -> norm p m.
Proof. induction a as [|c a IH]; simpl; [done|]. intros [_ H]. auto. Qed.

Lemma norm_app_l m b : norm p (m ++ b) -> norm p m.
Proof.
  induction m as [|c m IH]; simpl; [done|]. intros [H1 H2]. split; [|auto].
  intros Hc d Hd. apply H1; [done|]. destruct m; [done|]. exact Hd.
Qed.

Lemma norm_strip_of q s : norm p s -> norm p (strip_of q s).
Proof.
  intros H. destruct (strip_of_infix q s) as (a & b & E). rewrite E in H.
  by apply norm_app_r, norm_app_l in H.
Qed.

End Runs.

Lemma Forall_strip_of (Q : N -> Prop) q s :
  Forall Q s -> Forall Q (strip_of q s).
Proof.
  intros H. destruct (strip_of_infix q s) as (a & b & E). rewrite E in H.
  by apply Forall_app in H as [_ [H _]%Forall_app].
Qed.

(** *** [slugify] *)

Ltac bools :=
  unfold not_slug, is_alnum, is_lower_alnum, lower_char, hyphen in *;
  repeat match goal with
  | H : _ && _ = true |- _ => apply andb_true_iff in H as [? ?]
  | H : _ || _ = true |- _ => apply orb_true_iff in H as [?|?]
  | H : _ || _ = false |- _ => apply orb_false_iff in H as [? ?]
  | H : negb _ = false |- _ => apply negb_false_iff in H
  | H : negb _ = true |- _ => apply negb_true_iff in H
  | H : (_ <=? _) = true |- _ => apply N.leb_le in H
  | H : (_ <=? _) = false |- _ => apply N.leb_gt in H
  | H : (_ =? _) = true |- _ => apply N.eqb_eq in H
  | H : (_ =? _) = false |- _ => apply N.eqb_neq in H
  end.

Ltac cmp :=
  unfold not_slug, is_alnum, is_lower_alnum, lower_char, hyphen in *;
  repeat (match goal with
          | |- context [?a <=? ?b] => destruct (N.leb_spec a b)
          | |- context [?a =? ?b] => destruct (N.eqb_spec a b)
          | H : context [?a <=? ?b] |- _ => destruct (N.leb_spec a b)
          | H : context [?a =? ?b] |- _ => destruct (N.eqb_spec a b)
          end; simpl in *);
  try done; try lia.

Lemma slug_char_ascii c : not_slug c = false \/ c = hyphen -> c < 128.
Proof. intros [H| ->]; [|done]. bools; lia. Qed.

Lemma slug_char_lower c : not_slug c = false \/ c = hyphen -> lower_char c = c.
Proof.
  intros H. unfold lower_char.
  destruct (((65 <=? c) && (c <=? 90))
            || ((192 <=? c) && (c <=? 222) && negb (c =? 215))) eqn:E; [|done].
  destruct H as [H| ->]; [|done]. bools; lia.
Qed.

Lemma ascii_only_id s : Forall (fun c => c < 128) s -> ascii_only s = s.
Proof.
  unfold ascii_only. induction 1 as [|c s Hc Hs IH]; [done|].
  rewrite filter_cons_True by done. by rewrite IH.
Qed.

Lemma slug_post_ok : slug_ok (lit "post").
Proof.
  repeat split; try done.
  - repeat constructor.
  - by intros c [= <-].
  - by intros c [= <-].
Qed.

Section Slugify.

Variable nfkd : list N -> list N.
Hypothesis nfkd_ascii : forall s, Forall (fun c => c < 128) s -> nfkd s = s.

Lemma slugify_ok x : slug_ok (slugify nfkd x).
Proof.
  unfold slugify, or_else.
  destruct (slug_body nfkd x) as [|c o] eqn:E; [apply slug_post_ok|].
  rewrite <- E. unfold slug_body. repeat split.
  - unfold slug_body in E. by rewrite E.
  - apply Forall_strip_of, (sub_runs_chars not_slug hyphen).
  - apply norm_strip_of, (sub_runs_norm not_slug hyphen).
  - apply strip_of_head.
  - apply strip_of_last.
Qed.

Lemma slug_ok_fixed o : slug_ok o -> slugify nfkd o = o.
Proof.
  intros (Hne & Hch & Hnorm & Hh & Hl).
  assert (Hascii : Forall (fun c => c < 128) o).
  { eapply Forall_impl; [exact Hch|]. apply slug_char_ascii. }
  assert (Hlow : lower o = o).
  { rewrite lower_latin1
      by (eapply Forall_impl; [exact Hascii|]; intros c Hc; cbv beta in *; lia).
    clear -Hch. induction Hch as [|c o Hc Ho IH]; [done|].
    simpl. by rewrite slug_char_lower, IH. }
  unfold slugify, slug_body.
  rewrite nfkd_ascii, ascii_only_id, Hlow by done.
  rewrite (sub_runs_fixed not_slug hyphen) by done.
  rewrite strip_of_id by done. by destruct o.
Qed.

Lemma sub_runs_all_class s :
  Forall (fun c => not_slug c = true) s ->
  sub_runs not_slug [hyphen] true s = [].
Proof. induction 1 as [|c s Hc Hs IH]; simpl; [done|]. by rewrite Hc. Qed.

Lemma lower_symbol c :
  c < 128 -> is_alnum c = false -> not_slug (lower_char c) = true.
Proof. intros Hc H. cmp. Qed.

(** C7: [slugify] gives a value for every string; on its own value it
    gives that value again; the value is made of the characters a-z, 0-9
    and the hyphen, does not begin and does not end with a hyphen, and is
    "post" when the normalization gives the empty string, as it does for
    the empty string and for ASCII text without a letter or digit. *)
Theorem slugify_idempotent_and_shaped x :
  slugify nfkd (slugify nfkd x) = slugify nfkd x
  /\ forallb (fun c => is_lower_alnum c || (c =? hyphen)) (slugify nfkd x)
     = true
  /\ head (slugify nfkd x) <> Some hyphen
  /\ last (slugify nfkd x) <> Some hyphen
  /\ (slug_body nfkd x = [] -> slugify nfkd x = lit "post")
  /\ (Forall (fun c => c < 128 /\ is_alnum c = false) x ->
      slugify nfkd x = lit "post").
Proof.
  pose proof (slugify_ok x) as Hok. split; [by apply slug_ok_fixed|].
  destruct Hok as (Hne & Hch & Hnorm & Hh & Hl). repeat split.
  - apply forallb_forall. rewrite Forall_forall in Hch.
    intros c Hc%list_elem_of_In%Hch. destruct Hc as [Hc| ->]; [|done].
    unfold not_slug in Hc. apply negb_false_iff in Hc. by rewrite Hc.
  - intros H%Hh. by rewrite N.eqb_refl in H.
  - intros H%Hl. by rewrite N.eqb_refl in H.
  - unfold slugify. by intros ->.
  - intros Hx. unfold slugify, slug_body.
    rewrite nfkd_ascii, ascii_only_id
      by (eapply Forall_impl; [exact Hx | by intros c [? _]]).
    assert (Hcls : Forall (fun c => not_slug c = true) (lower x)).
    { rewrite lower_latin1
        by (eapply Forall_impl; [exact Hx|]; intros c [Hc _]; lia).
      apply Forall_map. eapply Forall_impl; [exact Hx|].
      intros c [? ?]. by apply lower_symbol. }
    change (fun c => negb (is_lower_alnum c)) with not_slug.
    destruct (lower x) as [|c s]; [done|].
    inversion Hcls as [|? ? Hc Hs]; subst.
    cbn [sub_runs]. rewrite Hc, (sub_runs_all_class s Hs). reflexivity.
Qed.

End Slugify.

Lemma nfkd_latin1_ascii s : Forall (fun c => c < 128) s -> nfkd_latin1 s = s.
Proof.
  unfold nfkd_latin1. induction 1 as [|c s Hc Hs IH]; [done|].
  cbn [flat_map]. rewrite IH.
  assert (H : (c <? 160) = true) by (apply N.ltb_lt; lia).
  by rewrite H.
Qed.

Lemma slugify_idempotent_and_shaped_witness :
  slugify nfkd_latin1 cafe = lit "cafe-munster-v2"
  /\ slugify nfkd_latin1 (slugify nfkd_latin1 cafe) = slugify nfkd_latin1 cafe
  /\ slugify nfkd_latin1 (lit "?!") = lit "post".
Proof.
  split; [vm_compute; reflexivity|].
  pose proof (slugify_idempotent_and_shaped nfkd_latin1 nfkd_latin1_ascii cafe)
    as (H & _).
  pose proof (slugify_idempotent_and_shaped nfkd_latin1 nfkd_latin1_ascii
                (lit "?!")) as (_ & _ & _ & _ & _ & H').
  split; [exact H|]. apply H'. repeat constructor.
Defined.

End SlugFacts.

(** ** The importer: image references *)

Module ImageFacts.

Import Samples PyFacts Automation.

(** The attributes after [src] are kept, a reference that is not in the
    mapping stays as it is. *)
Example html_rest_kept :
  replace_html_images
    (lit "<img src=" ++ dq ++ lit "dir/Photo.PNG" ++ dq ++ lit " width=3>"
     ++ lit "<img src='zz.png' alt='a'>")
    photo_mapping (lit "s")
  = lit "<img src=" ++ new_src ++ lit " width=3>"
    ++ lit "<img src='zz.png' alt='a'>".
Proof. vm_compute. reflexivity. Qed.

(** C3 on the code: the replacement is built from the group [rest] only,
    which begins after the value of [src]; the attributes between "<img"
    and "src" are part of the match and are not put back. *)
Theorem html_attributes_before_src_lost :
  replace_html_images
    (lit "<img alt=" ++ dq ++ lit "x" ++ dq ++ lit " src=" ++ dq
     ++ lit "photo.png" ++ dq ++ lit " width=3>")
    photo_mapping (lit "s")
  = lit "<img src=" ++ new_src ++ lit " width=3>".
Proof. vm_compute. reflexivity. Qed.

(** *** Substitution over a text *)

Section ReSub.

Variable f : list N -> option (list N * nat).

Lemma re_sub_bol b b' k s :
  re_sub (fun _ => f) b k s = re_sub (fun _ => f) b' k s.
Proof.
  destruct s; reflexivity.
Qed.

(** Where the pattern cannot begin, the text stays. *)
Lemma re_sub_prefix a t b :
  (forall c s, In c a -> f (c :: s) = None) ->
  re_sub (fun _ => f) b 0 (a ++ t) = a ++ re_sub (fun _ => f) b 0 t.
Proof.
  revert b. induction a as [|c a IH]; intros b H; [done|]. simpl.
  rewrite (H c (a ++ t)) by by left. f_equal.
  rewrite IH by (intros; apply H; by right). f_equal. apply re_sub_bol.
Qed.

(** The same, place by place: the pattern matches at no place of [a]
    when [t] follows. *)
Lemma re_sub_prefix_at a t : forall b,
  (forall a1 c a2, a = a1 ++ c :: a2 -> f (c :: a2 ++ t) = None) ->
  re_sub (fun _ => f) b 0 (a ++ t) = a ++ re_sub (fun _ => f) b 0 t.
Proof.
  induction a as [|c a IH]; intros b H; [done|]. cbn [app re_sub].
  rewrite (H [] c a eq_refl). f_equal.
  rewrite IH by (intros a1 d a2 ->; apply (H (c :: a1) d a2 eq_refl)).
  f_equal. apply re_sub_bol.
Qed.

Lemma re_sub_id s b :
  (forall c s', In c s -> f (c :: s') = None) ->
  re_sub (fun _ => f) b 0 s = s.
Proof.
  intros H. rewrite <- (app_nil_r s) at 1. rewrite re_sub_prefix by done.
  by rewrite app_nil_r.
Qed.

(** The characters of a match are passed. *)
Lemma re_sub_skip u t b :
  re_sub (fun _ => f) b (length u) (u ++ t) = re_sub (fun _ => f) b 0 t.
Proof.
  revert b. induction u as [|c u IH]; intros b; [done|]. simpl.
  rewrite IH. apply re_sub_bol.
Qed.

Lemma re_sub_match c u t repl b :
  f (c :: u ++ t) = Some (repl, S (length u)) ->
  re_sub (fun _ => f) b 0 (c :: u ++ t) = repl ++ re_sub (fun _ => f) b 0 t.
Proof.
  intros H. simpl. rewrite H. simpl. rewrite Nat.sub_0_r, re_sub_skip.
  f_equal. apply re_sub_bol.
Qed.

End ReSub.

Lemma md_img_at_first mapping slug c s :
  c <> 33 -> md_img_at mapping slug (c :: s) = None.
Proof.
  intros Hc. unfold md_img_at, Spaces.image_at.
  destruct c as [|p]; [done|].
  do 6 (destruct p as [p|p|]; try done).
Qed.

Lemma html_img_at_first mapping slug c s :
  c <> 60 -> html_img_at mapping slug (c :: s) = None.
Proof.
  intros Hc. assert (H : ci_char 60 c = false).
  { unfold ci_char. rewrite (proj2 (N.eqb_neq c 60) Hc). reflexivity. }
  unfold html_img_at.
  change (ci_startswith (lit "<img") (c :: s))
    with (ci_char 60 c && ci_startswith [105; 109; 103] s).
  by rewrite H.
Qed.

Lemma replace_markdown_images_prefix a t mapping slug :
  Forall (fun c => c <> 33) a ->
  replace_markdown_images (a ++ t) mapping slug
  = a ++ replace_markdown_images t mapping slug.
Proof.
  intros H. unfold replace_markdown_images. apply re_sub_prefix.
  intros c s Hc. apply md_img_at_first. rewrite Forall_forall in H.
  by apply H, list_elem_of_In.
Qed.

Lemma replace_html_images_prefix a t mapping slug :
  Forall (fun c => c <> 60) a ->
  replace_html_images (a ++ t) mapping slug
  = a ++ replace_html_images t mapping slug.
Proof.
  intros H. unfold replace_html_images. apply re_sub_prefix.
  intros c s Hc. apply html_img_at_first. rewrite Forall_forall in H.
  by apply H, list_elem_of_In.
Qed.

End ImageFacts.

(** ** The importer: archives *)

Module ImporterFacts.

Import Samples PyFacts Automation.

(** *** The search for the markdown document *)

Lemma find_first_markdown_none tree :
  find_first_markdown tree = None
  <-> Forall (fun p => has_markdown_suffix p = false) tree.
Proof.
  induction tree as [|p tree IH]; simpl; [by split; [constructor|]|].
  fold (has_markdown_suffix p). destruct (has_markdown_suffix p) eqn:E.
  - split; [done|]. intros H. inversion H. congruence.
  - rewrite IH. split; [by constructor | by inversion 1].
Qed.

Lemma find_first_markdown_first tree1 d tree2 :
  find_first_markdown tree1 = None -> has_markdown_suffix d = true ->
  find_first_markdown (tree1 ++ d :: tree2) = Some d.
Proof.
  intros H1 Hd. induction tree1 as [|p tree1 IH]; simpl in *.
  - fold (has_markdown_suffix d). by rewrite Hd.
  - destruct (is_markdown_suffix _); [done | by apply IH].
Qed.

Lemma collect_images_files tree p :
  In p (collect_images tree) -> e_is_file p = true.
Proof.
  unfold collect_images. intros H%list_elem_of_In%list_elem_of_filter.
  destruct H as [H _]. apply Is_true_true in H.
  by apply andb_true_iff in H as [H _].
Qed.

Lemma copy_images_scratch slug imgs : forall mapping w,
  scratch (snd (copy_images slug imgs mapping w)) = scratch w.
Proof.
  induction imgs as [|p imgs IH]; intros mapping w; [done|]. simpl.
  by rewrite IH.
Qed.

Lemma mkdir_images_scratch slug w : scratch (mkdir_images slug w) = scratch w.
Proof. unfold mkdir_images. by destruct (images w !! slug). Qed.

(** C10: the search for the markdown document takes the first path with
    a markdown suffix, a directory as well as a file: with a directory of
    such a name in the tree the search finds something, and finds that
    directory when no path before it has such a suffix; the importer then
    does not take the way of the warning, it fails when it reads the
    directory.  The images collected are regular files only. *)
Theorem markdown_search_takes_directory tree1 d tree2 :
  e_is_file d = false ->
  has_markdown_suffix d = true ->
  find_first_markdown (tree1 ++ d :: tree2) <> None
  /\ (find_first_markdown tree1 = None ->
      find_first_markdown (tree1 ++ d :: tree2) = Some d
      /\ forall name mtime slug date category w,
           snd (process_zip_body
                  (Archive name mtime (Some (tree1 ++ d :: tree2)))
                  slug date category w)
           = Some IsADirectoryError)
  /\ (forall p, In p (collect_images (tree1 ++ d :: tree2)) ->
                e_is_file p = true).
Proof.
  intros Hdir Hd. repeat split.
  - intros H%find_first_markdown_none.
    apply Forall_app in H as [_ H]. inversion H. congruence.
  - by apply find_first_markdown_first.
  - intros name mtime slug date category w. unfold process_zip_body.
    cbn [z_tree]. rewrite (find_first_markdown_first _ _ _ H Hd).
    destruct (copy_images _ _ _ _) as [mapping w2].
    unfold read_text. by rewrite Hdir.
  - apply collect_images_files.
Qed.

Lemma markdown_search_takes_directory_witness :
  find_first_markdown
    ([Entry (lit "photo.png") true [1]]
     ++ Entry (lit "Notes.MD") false [] :: [notes_entry (lit "hi")])
  = Some (Entry (lit "Notes.MD") false []).
Proof.
  apply (markdown_search_takes_directory
           [Entry (lit "photo.png") true [1]]
           (Entry (lit "Notes.MD") false []) [notes_entry (lit "hi")]).
  - reflexivity.
  - vm_compute. reflexivity.
  - vm_compute. reflexivity.
Defined.

(** *** An archive without a markdown document *)

(** With no path of a markdown suffix in the tree the archive is skipped
    with a warning: no post, no directory of images, no scratch directory
    left. *)
Lemma no_markdown_path_skipped nfkd z tree date category w :
  z_tree z = Some tree ->
  Forall (fun p => has_markdown_suffix p = false) tree ->
  process_zip nfkd z date category w
  = (World (posts w) (images w) (scratch w)
       ((printed w ++ [Processing (z_name z) (slugify nfkd (stem (z_name z)))])
        ++ [WarnNoMarkdown (z_name z)]),
     None).
Proof.
  intros Hz H%find_first_markdown_none.
  unfold process_zip, process_zip_body. by rewrite Hz, H.
Qed.

(** C6 on the code: an archive whose only path with a markdown suffix is
    a directory holds no markdown file, and it is not skipped.  The
    directory of images is made, reading the directory fails, and the
    batch ends there: the archive after it is not processed. *)
Theorem markdown_directory_not_skipped :
  z_tree pack_zip = Some [Entry (lit "notes.md") false []]
  /\ process_zip nfkd_latin1 pack_zip POST_DATE POST_CATEGORY w0
     = (World ∅ {[ lit "pack" := ∅ ]} 0
          [Processing (lit "pack.zip") (lit "pack")],
        Some IsADirectoryError)
  /\ main nfkd_latin1 [pack_zip; good_zip] w0
     = (World ∅ {[ lit "pack" := ∅ ]} 0
          [Processing (lit "pack.zip") (lit "pack")],
        Some IsADirectoryError).
Proof. vm_compute. repeat split; reflexivity. Qed.

(** *** The batch *)

Lemma process_all_app nfkd zs1 zs2 w :
  process_all nfkd (zs1 ++ zs2) w
  = match process_all nfkd zs1 w with
    | (w1, None) => process_all nfkd zs2 w1
    | (w1, Some e) => (w1, Some e)
    end.
Proof.
  revert w. induction zs1 as [|z zs1 IH]; intros w; [done|]. simpl.
  destruct (process_zip nfkd z POST_DATE POST_CATEGORY w) as [w1 [e|]];
    [done | apply IH].
Qed.

Lemma process_zip_scratch nfkd z date category w :
  scratch (fst (process_zip nfkd z date category w)) = scratch w.
Proof.
  unfold process_zip, process_zip_body.
  destruct (z_tree z) as [tree|]; [|done].
  destruct (find_first_markdown tree) as [md_in|]; [|done].
  destruct (copy_images _ _ _ _) as [mapping w2] eqn:E.
  assert (H2 : scratch w2 = S (scratch w)).
  { change w2 with (snd (mapping, w2)). rewrite <- E.
    by rewrite copy_images_scratch, mkdir_images_scratch. }
  destruct (read_text md_in); simpl; by rewrite H2.
Qed.

(** The order of the batch: by modification time, oldest first. *)
Lemma insert_by_mtime_sorted z zs :
  Sorted (fun a b => z_mtime a <= z_mtime b) zs ->
  Sorted (fun a b => z_mtime a <= z_mtime b) (insert_by_mtime z zs).
Proof.
  induction 1 as [|y zs Hs IH Hy]; simpl; [by repeat constructor|].
  destruct (N.leb_spec (z_mtime z) (z_mtime y)).
  - repeat constructor; done.
  - constructor; [done|]. destruct zs as [|y' zs]; simpl in *.
    + constructor. lia.
    + destruct (N.leb_spec (z_mtime z) (z_mtime y')).
      * constructor. lia.
      * constructor. by inversion Hy.
Qed.

Lemma sorted_by_mtime_sorted zs :
  Sorted (fun a b => z_mtime a <= z_mtime b) (sorted_by_mtime zs).
Proof.
  induction zs as [|z zs IH]; simpl; [constructor|].
  by apply insert_by_mtime_sorted.
Qed.

Lemma insert_by_mtime_perm z zs : insert_by_mtime z zs ≡ₚ z :: zs.
Proof.
  induction zs as [|y zs IH]; simpl; [done|].
  destruct (z_mtime z <=? z_mtime y); [done|].
  rewrite IH. apply Permutation_swap.
Qed.

Lemma sorted_by_mtime_perm zs : sorted_by_mtime zs ≡ₚ zs.
Proof.
  induction zs as [|z zs IH]; simpl; [done|].
  by rewrite insert_by_mtime_perm, IH.
Qed.

(** C4, as amended: the archives are processed in the order of their
    modification times and a failure while one of them is processed ends
    the batch: the run ends with that exception in the world the failing
    archive leaves, whatever archives come after it, and these are not
    processed.  The scratch directory of the failing archive is removed. *)
Theorem batch_stops_at_failure nfkd dir zs1 z zs2 w w1 w2 e :
  sorted_by_mtime (filter (fun z => endswith (lit ".zip") (z_name z)) dir)
  = zs1 ++ z :: zs2 ->
  process_all nfkd zs1 w = (w1, None) ->
  process_zip nfkd z POST_DATE POST_CATEGORY w1 = (w2, Some e) ->
  main nfkd dir w = (w2, Some e)
  /\ scratch w2 = scratch w1
  /\ Sorted (fun a b => z_mtime a <= z_mtime b) (zs1 ++ z :: zs2).
Proof.
  intros Hdir H1 Hz. repeat split.
  - unfold main. rewrite Hdir, process_all_app, H1. simpl. by rewrite Hz.
  - change w2 with (fst (w2, Some e)). rewrite <- Hz.
    apply process_zip_scratch.
  - rewrite <- Hdir. apply sorted_by_mtime_sorted.
Qed.

Lemma batch_stops_at_failure_witness :
  main nfkd_latin1 [good_zip; bad_zip] w0
  = (World ∅ ∅ 0 [Processing (lit "bad.zip") (lit "bad")], Some BadZipFile)
  /\ scratch (World ∅ ∅ 0 [Processing (lit "bad.zip") (lit "bad")])
     = scratch w0
  /\ Sorted (fun a b => z_mtime a <= z_mtime b) ([] ++ bad_zip :: [good_zip]).
Proof.
  apply (batch_stops_at_failure nfkd_latin1 [good_zip; bad_zip]
           [] bad_zip [good_zip] w0 w0).
  - vm_compute. reflexivity.
  - reflexivity.
  - vm_compute. reflexivity.
Defined.

(** C4 fails on a batch of two archives of which the older one cannot be
    extracted: the run ends with the exception and the post of the other
    archive, which a run on that archive alone writes, is not written. *)
Lemma batch_failure_aborts :
  main nfkd_latin1 [good_zip; bad_zip] w0
  = (World ∅ ∅ 0 [Processing (lit "bad.zip") (lit "bad")], Some BadZipFile)
  /\ main nfkd_latin1 [good_zip] w0
     = (World {[ lit "2025-09-27-good.markdown" := good_post ]}
          {[ lit "good" := ∅ ]} 0
          [Processing (lit "good.zip") (lit "good");
           OkPost (lit "2025-09-27-good.markdown"); OkImages (lit "good")],
        None).
Proof. vm_compute. split; reflexivity. Qed.

(** *** One image and its reference *)

Import ImageFacts SlugFacts.

Lemma copy_images_posts slug imgs : forall mapping w,
  posts (snd (copy_images slug imgs mapping w)) = posts w.
Proof.
  induction imgs as [|p imgs IH]; intros mapping w; [done|].
  cbn [copy_images]. by rewrite IH.
Qed.

(** *** The photo of the notes *)

Lemma sanitize_photo : sanitize_img (lit "photo.PNG") = lit "photo.png".
Proof. vm_compute. reflexivity. Qed.

Lemma copy_images_app slug l1 : forall l2 m w,
  copy_images slug (l1 ++ l2) m w
  = copy_images slug l2 (fst (copy_images slug l1 m w))
      (snd (copy_images slug l1 m w)).
Proof.
  induction l1 as [|p l1 IH]; intros l2 m w; [done|].
  cbn [app copy_images]. apply IH.
Qed.

Lemma stored_photo_other slug name :
  lower (sanitize_img name) <> photo_key ->
  build_new_img_name slug name <> stored_photo slug.
Proof.
  intros H E. apply H. unfold build_new_img_name, stored_photo in E.
  apply app_inv_head in E. injection E as ->. reflexivity.
Qed.

(** The images that do not clash leave the key and the file of the
    photo as they are. *)
Lemma copy_images_no_clash slug imgs : forall m w,
  forallb no_clash imgs = true ->
  fst (copy_images slug imgs m w) !! photo_key = m !! photo_key
  /\ image_dir (snd (copy_images slug imgs m w)) slug !! stored_photo slug
     = image_dir w slug !! stored_photo slug
  /\ (is_Some (images w !! slug) ->
      is_Some (images (snd (copy_images slug imgs m w)) !! slug)).
Proof.
  induction imgs as [|q imgs IH]; intros m w H; [done|].
  cbn [forallb] in H. apply andb_prop in H as [Hq H].
  unfold no_clash in Hq. apply andb_prop in Hq as [H1 H2].
  apply negb_true_iff, SpacesFacts.str_eqb_false in H1.
  apply negb_true_iff, SpacesFacts.str_eqb_false in H2.
  cbn [copy_images].
  match goal with
  | |- context [copy_images slug imgs ?m1 ?w1] =>
      destruct (IH m1 w1 H) as (E1 & E2 & E3)
  end.
  rewrite E1, E2. split; [|split].
  - by rewrite !lookup_insert_ne.
  - unfold image_dir, copy_image. cbn [images].
    rewrite lookup_insert_eq. cbn [from_option id].
    rewrite lookup_insert_ne; [done|]. by apply stored_photo_other.
  - intros _. apply E3. unfold copy_image. cbn [images].
    rewrite lookup_insert_eq. by eexists.
Qed.

(** After the loop over the images, when no image after photo.PNG
    clashes with it: the key of the photo gives the name it is stored
    under, and the file of that name holds its data. *)
Lemma copy_images_photo slug imgs1 data imgs2 m w :
  forallb no_clash imgs2 = true ->
  let r := copy_images slug (imgs1 ++ photo_entry data :: imgs2) m w in
  fst r !! photo_key = Some (stored_photo slug)
  /\ image_dir (snd r) slug !! stored_photo slug = Some data
  /\ is_Some (images (snd r) !! slug).
Proof.
  intros H. cbv zeta. rewrite copy_images_app.
  destruct (copy_images slug imgs1 m w) as [m1 w1]. cbn [fst snd].
  cbn [copy_images photo_entry e_name e_data].
  unfold build_new_img_name. rewrite sanitize_photo.
  change (lower (lit "photo.PNG")) with photo_key.
  change (lower (lit "photo.png")) with photo_key.
  change (slug ++ [underscore] ++ lit "photo.png") with (stored_photo slug).
  match goal with
  | |- context [copy_images slug imgs2 ?m2 ?w2] =>
      destruct (copy_images_no_clash slug imgs2 m2 w2 H) as (E1 & E2 & E3)
  end.
  rewrite E1, E2. split; [|split].
  - by rewrite lookup_insert_eq.
  - unfold image_dir, copy_image. cbn [images].
    rewrite lookup_insert_eq. cbn [from_option id].
    by rewrite lookup_insert_eq.
  - apply E3. unfold copy_image. cbn [images].
    rewrite lookup_insert_eq. by eexists.
Qed.

Lemma lookup_photo mapping slug :
  mapping !! photo_key = Some (stored_photo slug) ->
  lookup_name mapping (lit "photo.PNG") = Some (stored_photo slug).
Proof.
  intros H. unfold lookup_name.
  change (lower (basename (unquote (strip (lit "photo.PNG")))))
    with photo_key.
  rewrite H. unfold stored_photo. by destruct slug.
Qed.

Lemma photo_ref_rewritten mapping slug post :
  mapping !! photo_key = Some (stored_photo slug) ->
  replace_markdown_images (photo_ref ++ post) mapping slug
  = new_photo_ref slug ++ replace_markdown_images post mapping slug.
Proof.
  intros H. unfold replace_markdown_images.
  apply (re_sub_match _ 33 (lit "[x](photo.PNG)") post).
  unfold md_img_at.
  change (Spaces.image_at (33 :: lit "[x](photo.PNG)" ++ post))
    with (Some (lit "x", lit "photo.PNG", 15%nat)).
  cbv beta iota. by rewrite (lookup_photo mapping slug H).
Qed.

(** Where no reference and no tag begins. *)

Lemma md_img_at_start mapping slug s :
  startswith (lit "![") s = false -> md_img_at mapping slug s = None.
Proof.
  destruct s as [|c1 s]; [done|].
  destruct (N.eqb_spec c1 33) as [->|Hc]; [|intros _; by apply md_img_at_first].
  destruct s as [|c2 s]; [done|].
  destruct (N.eqb_spec c2 91) as [->|Hc2]; [done|]. intros _.
  unfold md_img_at, Spaces.image_at.
  destruct c2 as [|p]; [done|].
  do 7 (destruct p as [p|p|]; try done).
Qed.

Lemma html_img_at_start mapping slug s :
  ci_startswith (lit "<img") s = false -> html_img_at mapping slug s = None.
Proof. intros H. unfold html_img_at. by rewrite H. Qed.

Lemma contains_suffix n a x :
  contains n (a ++ x) = false -> contains n x = false.
Proof.
  intros H. destruct (contains n x) eqn:E; [|done].
  apply (contains_app_r n a) in E. congruence.
Qed.

Lemma ci_contains_suffix n a x :
  ci_contains n (a ++ x) = false -> ci_contains n x = false.
Proof.
  induction a as [|c a IH]; [done|]. cbn [app ci_contains].
  intros [_ H]%orb_false_iff. auto.
Qed.

Lemma mark_not_across a1 c a2 t :
  contains (lit "![") (a1 ++ c :: a2) = false ->
  head t = Some 33 ->
  startswith (lit "![") (c :: a2 ++ t) = false.
Proof.
  intros H%contains_suffix Ht.
  change (startswith (lit "![") (c :: a2) || contains (lit "![") a2 = false)
    in H.
  apply orb_false_iff in H as [H _].
  destruct a2 as [|d a2]; [|exact H].
  destruct t as [|x t]; [done|]. injection Ht as ->.
  change ((33 =? c) && false = false). apply andb_false_r.
Qed.

Lemma tag_not_across a1 c a2 t :
  ci_contains (lit "<img") (a1 ++ c :: a2) = false ->
  head t = Some 33 ->
  ci_startswith (lit "<img") (c :: a2 ++ t) = false.
Proof.
  intros H%ci_contains_suffix Ht.
  cbn [ci_contains] in H. apply orb_false_iff in H as [H _].
  destruct t as [|x t]; [done|]. injection Ht as ->.
  change (lit "<img") with [60; 105; 109; 103] in *.
  assert (H1 : ci_char 105 33 = false) by reflexivity.
  assert (H2 : ci_char 109 33 = false) by reflexivity.
  assert (H3 : ci_char 103 33 = false) by reflexivity.
  destruct a2 as [|x2 [|x3 [|x4 a2]]]; cbn [app ci_startswith] in *;
    rewrite ?H1, ?H2, ?H3, ?andb_false_l, ?andb_false_r; done.
Qed.

Lemma new_photo_ref_head slug post : head (new_photo_ref slug ++ post) = Some 33.
Proof. reflexivity. Qed.

Lemma photo_ref_head post : head (photo_ref ++ post) = Some 33.
Proof. reflexivity. Qed.

Lemma slug_no_lt nfkd name :
  Forall (fun c => c <> 60) (slugify nfkd name).
Proof.
  destruct (slugify_ok nfkd name) as (_ & H & _).
  eapply Forall_impl; [exact H|]. intros c [Hc| ->]; [|done].
  intros ->. done.
Qed.

Lemma new_photo_ref_no_lt nfkd name :
  Forall (fun c => c <> 60) (new_photo_ref (slugify nfkd name)).
Proof.
  pose proof (slug_no_lt nfkd name) as H.
  unfold new_photo_ref, templated, stored_photo.
  repeat (apply Forall_app; split); try exact H; by repeat constructor.
Qed.

(** The two passes over a document with the reference to the photo
    after text in which no reference and no tag begins. *)
Lemma photo_passes nfkd name mapping pre post :
  let slug := slugify nfkd (stem name) in
  mapping !! photo_key = Some (stored_photo slug) ->
  contains (lit "![") pre = false ->
  ci_contains (lit "<img") pre = false ->
  replace_html_images
    (replace_markdown_images (pre ++ photo_ref ++ post) mapping slug)
    mapping slug
  = pre ++ new_photo_ref slug
    ++ replace_html_images (replace_markdown_images post mapping slug)
         mapping slug.
Proof.
  intros slug Hkey Hmd Hhtml.
  assert (E1 : replace_markdown_images (pre ++ photo_ref ++ post) mapping slug
               = pre ++ replace_markdown_images (photo_ref ++ post)
                          mapping slug).
  { unfold replace_markdown_images. apply re_sub_prefix_at.
    intros a1 c a2 ->. apply md_img_at_start.
    by apply (mark_not_across a1), photo_ref_head. }
  rewrite E1, photo_ref_rewritten by done.
  set (post1 := replace_markdown_images post mapping slug).
  assert (E2 : replace_html_images (pre ++ new_photo_ref slug ++ post1)
                 mapping slug
               = pre ++ replace_html_images (new_photo_ref slug ++ post1)
                          mapping slug).
  { unfold replace_html_images. apply re_sub_prefix_at.
    intros a1 c a2 ->. apply html_img_at_start.
    by apply (tag_not_across a1), new_photo_ref_head. }
  rewrite E2. f_equal.
  apply replace_html_images_prefix, new_photo_ref_no_lt.
Qed.

(** C5, as amended: an archive whose first markdown path is the
    document notes.md and whose image files hold photo.PNG, with no
    image after it in the walk whose name in lower case, or whose
    sanitized name in lower case, is photo.png; a document that reads as
    some text, the reference to photo.PNG with the alt text x, and more
    text, where the text before the reference holds no "![" and, in any
    case of the letters, no "<img".  Then the importer ends with no
    exception, the directory of the slug holds the data of the image
    under the name of the slug, an underscore and photo.png, and the post
    written holds, after the front matter and the text before the
    reference as it was, the reference with the path of that file in the
    relative_url form and the alt text it had. *)
Theorem photo_reference_rewritten
    nfkd name mtime date category tree md_data data imgs1 imgs2 pre post w :
  find_first_markdown tree = Some (notes_entry md_data) ->
  collect_images tree = imgs1 ++ photo_entry data :: imgs2 ->
  forallb no_clash imgs2 = true ->
  read_text (notes_entry md_data) = inr (pre ++ photo_ref ++ post) ->
  contains (lit "![") pre = false ->
  ci_contains (lit "<img") pre = false ->
  let slug := slugify nfkd (stem name) in
  exists w' dir rest,
    process_zip nfkd (Archive name mtime (Some tree)) date category w
    = (w', None)
    /\ images w' !! slug = Some dir
    /\ dir !! stored_photo slug = Some data
    /\ posts w' !! (date ++ lit "-" ++ slug ++ lit ".markdown")
       = Some (front_matter (lit "notes") date category
               ++ pre ++ new_photo_ref slug ++ rest)
    /\ scratch w' = scratch w.
Proof.
  intros Hfind Himgs Hclash Hread Hmd Hhtml. cbv zeta.
  unfold process_zip, process_zip_body. cbn [z_tree z_name].
  set (slug := slugify nfkd (stem name)).
  rewrite Hfind, Himgs.
  match goal with
  | |- context [copy_images slug ?l ?m ?w1] =>
      pose proof (copy_images_photo slug imgs1 data imgs2 m w1 Hclash)
        as (Hkey & Hfile & [dir Hdir]);
      pose proof (copy_images_scratch slug l m w1) as Hscratch;
      pose proof (copy_images_posts slug l m w1) as Hposts;
      destruct (copy_images slug l m w1) as [mapping w2]
  end.
  cbn [fst snd] in *. rewrite Hread.
  pose proof (photo_passes nfkd name mapping pre post Hkey Hmd Hhtml) as Hp.
  cbv zeta in Hp. fold slug in Hp. rewrite Hp.
  change (or_else (stem (e_name (notes_entry md_data))) slug)
    with (lit "notes").
  exists (rmtree
            (print (OkImages slug)
               (print (OkPost (date ++ lit "-" ++ slug ++ lit ".markdown"))
                  (write_post (date ++ lit "-" ++ slug ++ lit ".markdown")
                     (front_matter (lit "notes") date category
                      ++ pre ++ new_photo_ref slug
                      ++ replace_html_images
                           (replace_markdown_images post mapping slug)
                           mapping slug) w2)))),
         dir,
         (replace_html_images (replace_markdown_images post mapping slug)
            mapping slug).
  split; [reflexivity|].
  cbn [images posts scratch print rmtree write_post].
  split; [done|]. split.
  { unfold image_dir in Hfile. by rewrite Hdir in Hfile. }
  split; [by rewrite lookup_insert_eq|].
  rewrite Hscratch, mkdir_images_scratch. reflexivity.
Qed.

Lemma photo_reference_rewritten_witness :
  exists w' dir rest,
    process_zip nfkd_latin1
      (Archive (lit "My Trip.zip") 5
         (Some (album_tree (lit "Hi! " ++ photo_ref ++ lit " here"))))
      POST_DATE POST_CATEGORY w0
    = (w', None)
    /\ images w' !! lit "my-trip" = Some dir
    /\ dir !! lit "my-trip_photo.png" = Some [1; 2; 3]
    /\ posts w' !! lit "2025-09-27-my-trip.markdown"
       = Some (front_matter (lit "notes") POST_DATE POST_CATEGORY
               ++ lit "Hi! "
               ++ lit "![x]({{ '/assets/images/my-trip/my-trip_photo.png' | relative_url }})"
               ++ rest)
    /\ scratch w' = 0%nat.
Proof.
  apply (photo_reference_rewritten nfkd_latin1 (lit "My Trip.zip") 5
           POST_DATE POST_CATEGORY
           (album_tree (lit "Hi! " ++ photo_ref ++ lit " here"))
           (lit "Hi! " ++ photo_ref ++ lit " here") [1; 2; 3]
           [capital_photo] [map_image]
           (lit "Hi! ") (lit " here") w0);
    vm_compute; reflexivity.
Defined.

(** C5, where the claim does not hold.  First the document whose
    reference stands inside a tag, before the [src] of the tag: the pass
    over the references rewrites it, and the pass over the tags then
    writes the tag anew without what stood before [src], so the post
    holds no inline reference.  Then the archive with the image
    Photo.png after photo.PNG: its name takes the key photo.png, and the
    reference is rewritten to the path of Photo.png. *)
Theorem photo_reference_lost :
  posts (fst (process_zip nfkd_latin1
                (Archive (lit "trip.zip") 1
                   (Some [notes_entry tagged_doc; photo_entry [1; 2; 3]]))
                POST_DATE POST_CATEGORY w0))
    !! lit "2025-09-27-trip.markdown"
  = Some (front_matter (lit "notes") POST_DATE POST_CATEGORY
          ++ lit "<img src=" ++ dq
          ++ lit "{{ '/assets/images/trip/trip_photo.png' | relative_url }}"
          ++ dq ++ lit ">")
  /\ posts (fst (process_zip nfkd_latin1
                   (Archive (lit "trip.zip") 1 (Some (clash_tree photo_ref)))
                   POST_DATE POST_CATEGORY w0))
       !! lit "2025-09-27-trip.markdown"
     = Some (front_matter (lit "notes") POST_DATE POST_CATEGORY
             ++ lit "![x]({{ '/assets/images/trip/trip_Photo.png' | relative_url }})").
Proof. split; vm_compute; reflexivity. Qed.

End ImporterFacts.

(** ** More on the reformatter *)

Module SpacesMore.

Import Samples PyFacts Spaces SpacesFacts.

(** *** The content pass *)

(** The content pass is idempotent on every list of lines. *)
Theorem content_pass_idempotent lines :
  process_content_lines (process_content_lines lines)
  = process_content_lines lines.
Proof. rewrite !process_content_lines_emit. apply emit_idem. Qed.

Lemma filter_not_blank_nl rest :
  List.filter not_blank ([nl] :: rest) = List.filter not_blank rest.
Proof. reflexivity. Qed.

Lemma emit_text_lines lines : forall e b c,
  text_lines (emit lines e b c) = text_lines lines.
Proof.
  unfold text_lines.
  induction lines as [|l rest IH]; intros e b c; [done|].
  destruct (kind_of l) as [Hf|Hf Hs|Hf Hb|Hf Hs Hb].
  - rewrite emit_fence by done. cbn [List.filter].
    destruct (not_blank l); cbn [map]; by rewrite IH.
  - destruct c.
    { rewrite emit_code by done. cbn [List.filter].
      destruct (not_blank l); cbn [map]; by rewrite IH. }
    rewrite emit_special by done. pose proof (special_not_blank l Hs) as Hnb.
    assert (Hstep : forall X,
      map with_newline (List.filter not_blank X)
      = map with_newline (List.filter not_blank rest) ->
      map with_newline (List.filter not_blank (with_newline l :: X))
      = map with_newline (List.filter not_blank (l :: rest))).
    { intros X HX. cbn [List.filter].
      rewrite not_blank_with_newline, Hnb. cbn [map].
      by rewrite with_newline_idem, HX. }
    destruct b, (next_not_blank rest); cbn [app];
      rewrite ?filter_not_blank_nl; apply Hstep;
      rewrite ?filter_not_blank_nl; apply IH.
  - destruct c.
    { rewrite emit_code by done. cbn [List.filter].
      rewrite Hb. apply IH. }
    rewrite emit_blank by done. cbn [List.filter]. rewrite Hb.
    destruct (if e then true else b); rewrite ?filter_not_blank_nl; apply IH.
  - destruct c.
    { rewrite emit_code by done. cbn [List.filter].
      rewrite Hb. cbn [map]. by rewrite IH. }
    rewrite emit_plain by done. cbn [List.filter].
    rewrite not_blank_with_newline, Hb. cbn [map].
    by rewrite with_newline_idem, IH.
Qed.

(** The content pass adds and removes blank lines and line ends only: the
    lines that are not blank are the same before and after, in the same
    order, up to a line end at their end. *)
Theorem content_pass_keeps_text lines :
  text_lines (process_content_lines lines) = text_lines lines.
Proof. rewrite process_content_lines_emit. apply emit_text_lines. Qed.

Lemma no_double_blank_cons x rest :
  (not_blank x = true \/ forall y, head rest = Some y -> not_blank y = true) ->
  no_double_blank rest -> no_double_blank (x :: rest).
Proof. by split. Qed.

Lemma emit_no_double_blank lines :
  Forall (fun l => re_fence_match (strip l) = false) lines ->
  forall e b,
    no_double_blank (emit lines e b false)
    /\ ((if e then true else b) = false ->
        forall y, head (emit lines e b false) = Some y -> not_blank y = true).
Proof.
  induction 1 as [|l rest Hf Hrest IH]; intros e b; [done|].
  destruct (kind_of l) as [Hf'|_ Hs|_ Hb|_ Hs Hb]; [congruence| | |].
  - rewrite emit_special by done.
    assert (Hwn : not_blank (with_newline l) = true)
      by by rewrite not_blank_with_newline, (special_not_blank l Hs).
    assert (Htail : no_double_blank
      (with_newline l
         :: (if next_not_blank rest then [nl] :: emit rest false false false
             else emit rest false true false))).
    { apply no_double_blank_cons; [by left|].
      destruct (next_not_blank rest).
      - apply no_double_blank_cons; [|apply IH].
        right. by apply (IH false false).
      - apply IH. }
    destruct b; cbn [app].
    + split; [|by destruct e].
      apply no_double_blank_cons; [|done]. right. by intros y [= <-].
    + split; [done|]. by intros _ y [= <-].
  - rewrite emit_blank by done.
    destruct (if e then true else b) eqn:Heb.
    + split; [|done]. apply no_double_blank_cons; [|apply IH].
      right. by apply (IH false false).
    + split; [apply IH|]. intros _. by apply IH.
  - rewrite emit_plain by done.
    assert (Hwn : not_blank (with_newline l) = true)
      by by rewrite not_blank_with_newline.
    split; [|by intros _ y [= <-]].
    apply no_double_blank_cons; [by left | apply IH].
Qed.

(** Without a fence in the input, the output of the content pass holds no
    two blank lines one after the other. *)
Theorem content_pass_collapses_blanks lines :
  Forall (fun l => re_fence_match (strip l) = false) lines ->
  no_double_blank (process_content_lines lines).
Proof.
  intros H. rewrite process_content_lines_emit.
  by apply emit_no_double_blank.
Qed.

Lemma content_pass_collapses_blanks_witness :
  no_double_blank
    (process_content_lines [[nl]; [nl]; lit "a" ++ [nl]; [32; nl]; [nl];
                            lit "# b"; lit "c"])
  /\ process_content_lines [[nl]; [nl]; lit "a" ++ [nl]; [32; nl]; [nl];
                            lit "# b"; lit "c"]
     = [[nl]; lit "a" ++ [nl]; [nl]; lit "# b" ++ [nl]; [nl];
        lit "c" ++ [nl]].
Proof.
  split; [|vm_compute; reflexivity].
  apply content_pass_collapses_blanks. repeat constructor.
Defined.

(** *** Front matter *)

(** [split_front_matter] loses no line: the front matter and the content
    are the lines.  The front matter is empty, or it begins with a line
    that is "---" and ends with the first later line that is "---"; when
    the first line is "---" and no later line is, the front matter is
    empty and every line is content. *)
Theorem split_front_matter_partition lines :
  let '(front, content) := split_front_matter lines in
  front ++ content = lines
  /\ (front = []
      \/ exists l0 mid l,
           front = l0 :: mid ++ [l]
           /\ strip l0 = front_mark /\ strip l = front_mark
           /\ Forall (fun x => strip x <> front_mark) mid)
  /\ (Forall (fun x => strip x <> front_mark) (tail lines) ->
      front = [] /\ content = lines).
Proof.
  pose proof (split_front_matter_app lines) as Happ.
  pose proof (split_front_matter_spec lines) as Hspec.
  destruct (split_front_matter lines) as [front content].
  cbn [fst snd] in *. split; [done|].
  destruct Hspec as [l0 mid l c E H0 Hmid Hl|E|l0 rest E H0
                    |l0 rest E H0 Hrest].
  - split; [right; by exists l0, mid, l|].
    rewrite E. cbn [tail]. intros [_ H]%Forall_app. by inversion H.
  - by split; [left|].
  - by split; [left|].
  - by split; [left|].
Qed.

Lemma append_css_extra lines :
  exists extra,
    append_css_link_if_missing lines = lines ++ extra
    /\ Forall unmarked extra.
Proof.
  unfold append_css_link_if_missing.
  destruct (contains needle (join lines)).
  { exists []. by rewrite app_nil_r. }
  destruct (last_not_blank lines); eexists; rewrite <- ?app_assoc;
    (split; [reflexivity|]); by repeat constructor.
Qed.

Lemma split_front_matter_new_lines lines :
  let front := fst (split_front_matter lines) in
  let new_content :=
    append_css_link_if_missing
      (process_content_lines (snd (split_front_matter lines))) in
  split_front_matter (front ++ new_content) = (front, new_content).
Proof.
  cbv zeta.
  destruct (append_css_extra
              (process_content_lines (snd (split_front_matter lines))))
    as (extra & -> & Hextra).
  destruct (split_front_matter_spec lines)
    as [l0 mid l c -> H0 Hmid Hl| -> |l0 rest -> H0|l0 rest -> H0 Hrest].
  - change ((l0 :: mid ++ [l]) ++ process_content_lines c ++ extra)
      with (l0 :: (mid ++ [l]) ++ process_content_lines c ++ extra).
    rewrite <- app_assoc. cbn [split_front_matter app].
    apply str_eqb_true in H0. rewrite H0. cbn [negb].
    by rewrite (find_close_found [l0] mid l _ Hmid Hl).
  - cbn [app process_content_lines content_loop].
    destruct extra as [|x extra]; [done|].
    inversion Hextra as [|? ? Hx _]; subst. cbn [split_front_matter].
    apply str_eqb_false in Hx. by rewrite Hx.
  - cbn [app]. rewrite process_content_lines_emit.
    destruct (emit_first l0 rest) as (x & tl & -> & Hx).
    cbn [app split_front_matter]. specialize (Hx H0).
    apply str_eqb_false in Hx. by rewrite Hx.
  - cbn [app]. rewrite process_content_lines_emit.
    assert (Hk : emit (l0 :: rest) true false false
                 = with_newline l0 :: emit rest false true false).
    { apply emit_plain; unfold not_blank; by rewrite H0. }
    rewrite Hk. cbn [app split_front_matter]. rewrite strip_with_newline.
    apply str_eqb_true in H0. rewrite H0. cbn [negb].
    rewrite find_close_none; [done|]. apply Forall_app. split; [|done].
    apply emit_Forall; auto using unmarked_nl, unmarked_with_newline.
Qed.

(** The reformatter leaves the front matter as it is: the lines it writes
    have the front matter of the lines it read, and after it the new
    content. *)
Theorem reformat_keeps_front_matter original :
  fst (split_front_matter (new_lines_of original))
  = fst (split_front_matter original)
  /\ snd (split_front_matter (new_lines_of original))
     = append_css_link_if_missing
         (process_content_lines (snd (split_front_matter original))).
Proof.
  rewrite new_lines_of_eq, split_front_matter_new_lines. done.
Qed.

(** *** The stylesheet line *)

Lemma needle_in_css_line : contains needle (CSS_LINK_LINE ++ [nl]) = true.
Proof. vm_compute. reflexivity. Qed.

(** After [append_css_link_if_missing] the marker is in the text.  The
    lines given are kept and nothing is put between them: when the marker
    is in their text nothing is added; when it is not, what is added is
    one line end if there is a last line and it is not blank, then one
    line end more and the stylesheet line with its line end, and nothing
    else.  A second call adds nothing. *)
Theorem append_css_once lines :
  contains needle (join (append_css_link_if_missing lines)) = true
  /\ append_css_link_if_missing lines
     = lines
       ++ (if contains needle (join lines) then []
           else (if last_not_blank lines then [[nl]] else [])
                ++ [[nl]; CSS_LINK_LINE ++ [nl]])
  /\ append_css_link_if_missing (append_css_link_if_missing lines)
     = append_css_link_if_missing lines.
Proof.
  assert (H1 : contains needle (join (append_css_link_if_missing lines))
               = true).
  { unfold append_css_link_if_missing.
    destruct (contains needle (join lines)) eqn:E; [done|].
    apply (contains_join needle (CSS_LINK_LINE ++ [nl]));
      [|apply needle_in_css_line].
    apply in_or_app. right. right. by left. }
  split; [done|]. split.
  - unfold append_css_link_if_missing.
    destruct (contains needle (join lines)); [by rewrite app_nil_r|].
    destruct (last_not_blank lines); [by rewrite <- app_assoc | done].
  - by apply append_css_present_join.
Qed.

(** *** Files *)

Lemma path_bak_ne (path : list N) : path ++ bak <> path.
Proof.
  intros H. apply (f_equal length) in H. rewrite length_app in H.
  cbn in H. lia.
Qed.

(** What [process_file] does to the files: when it reports no change, or
    in a dry run, no file is touched; when it writes, the backup holds
    the text the file had, the file holds the new lines, and every other
    file is as before. *)
Theorem process_file_backup path dry_run fs raw changed fs1 :
  fs !! path = Some raw ->
  process_file path dry_run fs = Some (changed, fs1) ->
  if changed && negb dry_run
  then fs1 !! (path ++ bak) = Some raw
       /\ fs1 !! path
          = Some (join (new_lines_of (readlines (universal_newlines raw))))
       /\ (forall q, q <> path -> q <> path ++ bak -> fs1 !! q = fs !! q)
  else fs1 = fs.
Proof.
  intros Hraw. unfold process_file. rewrite Hraw.
  destruct (lines_eqb _ _); [by intros [= <- <-]|].
  destruct dry_run; intros [= <- <-]; [done|]. cbn [andb negb].
  repeat split.
  - rewrite lookup_insert_ne by (apply not_eq_sym, path_bak_ne).
    by rewrite lookup_insert_eq.
  - by rewrite lookup_insert_eq.
  - intros q H1 H2. by rewrite !lookup_insert_ne.
Qed.

Lemma process_file_backup_witness :
  let fs1 : gmap (list N) (list N) :=
    {[ post_path := hello_once; post_path ++ bak := hello ]} in
  fs1 !! (post_path ++ bak) = Some hello
  /\ fs1 !! post_path
     = Some (join (new_lines_of (readlines (universal_newlines hello))))
  /\ (forall q, q <> post_path -> q <> post_path ++ bak ->
      fs1 !! q = ({[ post_path := hello ]} : gmap (list N) (list N)) !! q).
Proof.
  apply (process_file_backup post_path false {[ post_path := hello ]}
           hello true {[ post_path := hello_once; post_path ++ bak := hello ]}).
  - vm_compute. reflexivity.
  - vm_compute. reflexivity.
Defined.

(** *** [ensure_blank_after] *)

Lemma ensure_blank_after_nat current_lines (idx : nat) :
  ensure_blank_after current_lines (Z.of_nat idx)
  = if Nat.ltb (S idx) (length current_lines) then
      match current_lines !! S idx with
      | Some next =>
          if not_blank next
          then Some (take (S idx) current_lines
                     ++ [nl] :: drop (S idx) current_lines, true)
          else Some (current_lines, false)
      | None => None
      end
    else Some (current_lines, false).
Proof.
  unfold ensure_blank_after, py_index, py_insert, not_blank.
  replace (Z.of_nat idx + 1)%Z with (Z.of_nat (S idx)) by lia.
  destruct (Nat.ltb_spec (S idx) (length current_lines)) as [Hlt|Hge];
    destruct (Z.ltb_spec (Z.of_nat (S idx)) (Z.of_nat (length current_lines)));
    try lia; [|done].
  destruct (Z.leb_spec 0 (Z.of_nat (S idx))); [|lia].
  destruct (Z.ltb_spec (Z.of_nat (S idx)) 0); [lia|].
  rewrite Z.min_l by lia. by rewrite Nat2Z.id.
Qed.

(** For an index that is not negative [ensure_blank_after] raises
    nothing; when it returns [True] it has put one blank line after the
    line of that index, before a line that is not blank; when it returns
    [False] the list is as it was; a second call returns [False]. *)
Theorem ensure_blank_after_once current_lines (idx : nat) :
  exists lines1 inserted,
    ensure_blank_after current_lines (Z.of_nat idx) = Some (lines1, inserted)
    /\ lines1 = (if inserted
                 then take (S idx) current_lines ++ [nl]
                      :: drop (S idx) current_lines
                 else current_lines)
    /\ (inserted = true ->
        exists next, current_lines !! S idx = Some next
                     /\ not_blank next = true)
    /\ ensure_blank_after lines1 (Z.of_nat idx) = Some (lines1, false).
Proof.
  rewrite ensure_blank_after_nat.
  destruct (Nat.ltb_spec (S idx) (length current_lines)) as [Hlt|Hge].
  2:{ exists current_lines, false. repeat split; try done.
      rewrite ensure_blank_after_nat.
      by destruct (Nat.ltb_spec (S idx) (length current_lines)); [lia|]. }
  destruct (current_lines !! S idx) as [next|] eqn:E.
  2:{ apply lookup_ge_None in E. lia. }
  destruct (not_blank next) eqn:Hnb.
  - eexists _, true. repeat split; [by exists next|].
    rewrite ensure_blank_after_nat.
    set (lines1 := take (S idx) current_lines
                   ++ [nl] :: drop (S idx) current_lines).
    assert (Hlen : length lines1 = S (length current_lines)).
    { unfold lines1. rewrite length_app, length_take. cbn [length].
      rewrite length_drop. lia. }
    assert (Hnext : lines1 !! S idx = Some [nl]).
    { unfold lines1. rewrite lookup_app_r by (rewrite length_take; lia).
      rewrite length_take.
      replace (S idx - S idx `min` length current_lines)%nat with 0%nat
        by lia.
      done. }
    rewrite Hlen, Hnext.
    by destruct (Nat.ltb_spec (S idx) (S (length current_lines))); [|lia].
  - exists current_lines, false. repeat split; try done.
    rewrite ensure_blank_after_nat, E, Hnb.
    by destruct (Nat.ltb_spec (S idx) (length current_lines)); [|lia].
Qed.

(** *** The run over the posts *)

Import SpacesMain.

Lemma process_file_unchanged path dry_run fs changed fs1 :
  process_file path dry_run fs = Some (changed, fs1) ->
  dry_run = true \/ changed = false -> fs1 = fs.
Proof.
  unfold process_file. destruct (fs !! path) as [raw|]; [|done].
  destruct (lines_eqb _ _); [by intros [= <- <-]|].
  destruct dry_run; intros [= <- <-]; [done|]. by intros [?|?].
Qed.

(** The run over the posts touches no file in a dry run, and no file
    when it reports that nothing has changed; what it reports is at
    least what it was given. *)
Theorem reformat_all_unchanged paths dry_run fs changed0 changed_any fs1 :
  reformat_all paths dry_run fs changed0 = Some (changed_any, fs1) ->
  (changed0 = true -> changed_any = true)
  /\ (dry_run = true \/ changed_any = false -> fs1 = fs).
Proof.
  revert fs changed0.
  induction paths as [|[p is_file] paths IH]; intros fs changed0;
    cbn [reformat_all].
  - intros [= <- <-]. by split.
  - destruct (_ && is_file); [|apply IH].
    destruct (process_file p dry_run fs) as [[changed fs']|] eqn:E; [|done].
    intros [H1 H2]%IH. split.
    + intros ->. by apply H1.
    + intros H. rewrite (H2 H).
      apply (process_file_unchanged _ _ _ _ _ E).
      destruct H as [?|H]; [by left|]. right.
      destruct changed; [|done]. rewrite orb_true_r in H1.
      specialize (H1 eq_refl). congruence.
Qed.

Lemma reformat_all_unchanged_witness :
  (false = true -> true = true)
  /\ (true = true \/ true = false ->
      ({[ post_path := hello ]} : gmap (list N) (list N))
      = {[ post_path := hello ]}).
Proof.
  apply (reformat_all_unchanged [(post_path, true); (lit "_posts/x.txt", true)]
           true {[ post_path := hello ]} false true).
  vm_compute. reflexivity.
Defined.

End SpacesMore.

(** ** More on the date normalizer *)

Module FixDatesMore.

Import Samples PyFacts FixDates.

Lemma sub_date_eq text : sub_date text = re_sub date_match true 0 text.
Proof. reflexivity. Qed.

Lemma startswith_before_nl p l t :
  Forall (fun c => c <> nl) p ->
  startswith p (l ++ nl :: t) = startswith p l.
Proof.
  intros Hp. revert l. induction Hp as [|a p Ha Hp IH]; intros l; [done|].
  destruct l as [|c l]; simpl.
  - destruct (N.eqb_spec a nl); done.
  - by rewrite IH.
Qed.

Lemma startswith_split p s : startswith p s = true -> s = p ++ drop (length p) s.
Proof.
  revert s. induction p as [|a p IH]; intros [|c s]; simpl; try done.
  intros [->%N.eqb_eq H]%andb_true_iff. by rewrite <- IH.
Qed.

Lemma take_while_app_stop q r x :
  drop_while q r <> [] ->
  take_while q (r ++ x) = take_while q r
  /\ drop_while q (r ++ x) = drop_while q r ++ x.
Proof.
  induction r as [|c r IH]; simpl; [done|].
  destruct (q c); [|done]. intros H. destruct (IH H) as [-> ->]. done.
Qed.

Lemma take_while_all q r x :
  drop_while q r = [] ->
  take_while q (r ++ x) = r ++ take_while q x
  /\ drop_while q (r ++ x) = drop_while q x.
Proof.
  induction r as [|c r IH]; simpl; [done|].
  destruct (q c); [|done]. intros H. destruct (IH H) as [-> ->]. done.
Qed.

Lemma take_while_nonl v x :
  nonl v -> take_while (fun c => negb (c =? nl)) (v ++ nl :: x) = v.
Proof.
  induction 1 as [|c v Hc Hv IH]; simpl; [done|].
  destruct (N.eqb_spec c nl); [done|]. simpl. by rewrite IH.
Qed.

Lemma nonl_drop_while q v : nonl v -> nonl (drop_while q v).
Proof.
  induction 1 as [|c v Hc Hv IH]; simpl; [constructor|].
  destruct (q c); [done | by constructor].
Qed.

Lemma nonl_drop n v : nonl v -> nonl (drop n v).
Proof. unfold nonl. apply Forall_drop. Qed.

(** A match that stays in its line does not depend on the lines after
    it. *)
Lemma date_at_in_line l t :
  nonl l -> in_line l -> date_at (l ++ nl :: t) = date_at (l ++ [nl]).
Proof.
  intros Hl Hin. unfold in_line, date_at in *.
  rewrite !startswith_before_nl in * by by repeat constructor.
  destruct (startswith (lit "date:") l) eqn:Hs; [|done].
  apply startswith_split in Hs. change (length (lit "date:")) with 5%nat in Hs.
  assert (Hlen : (5 <= length l)%nat).
  { rewrite Hs, length_app. cbn. lia. }
  rewrite !drop_app_le in * by done.
  set (r := drop 5 l) in *. assert (Hr : nonl r) by by apply nonl_drop.
  destruct (drop_while is_space r) as [|d v] eqn:Hd.
  - exfalso. destruct (take_while_all is_space r [nl] Hd) as [Hw _].
    rewrite Hw in Hin. change (take_while is_space [nl]) with [nl] in Hin.
    assert (Hxy : length (r ++ [nl]) = S (length r))
      by (rewrite length_app; cbn; lia).
    destruct (r ++ [nl]) as [|x y] eqn:E; [by destruct r|].
    destruct Hin as [?|Hin]; [done|]. injection Hin as Hin.
    assert (length l = 5 + length r)%nat.
    { unfold r. rewrite length_drop. lia. }
    cbn [length] in *. lia.
  - assert (Hne : drop_while is_space r <> []) by by rewrite Hd.
    destruct (take_while_app_stop is_space r (nl :: t) Hne) as [-> ->].
    destruct (take_while_app_stop is_space r [nl] Hne) as [-> ->].
    rewrite !take_while_nonl by by apply nonl_drop_while. done.
Qed.

Lemma date_at_none_line l t :
  date_at (l ++ nl :: t) = None -> date_at (l ++ [nl]) = None.
Proof.
  unfold date_at.
  rewrite !startswith_before_nl by by repeat constructor.
  destruct (startswith (lit "date:") l) eqn:Hs; [|done].
  apply startswith_split in Hs. change (length (lit "date:")) with 5%nat in Hs.
  assert (Hlen : (5 <= length l)%nat).
  { rewrite Hs, length_app. cbn. lia. }
  rewrite !drop_app_le by done.
  set (r := drop 5 l).
  destruct (drop_while is_space r) as [|d v] eqn:Hd.
  - destruct (take_while_all is_space r (nl :: t) Hd) as [-> _].
    cbn [take_while]. change (is_space nl) with true. cbv iota.
    by destruct r.
  - assert (Hne : drop_while is_space r <> []) by by rewrite Hd.
    destruct (take_while_app_stop is_space r (nl :: t) Hne) as [-> _].
    destruct (take_while_app_stop is_space r [nl] Hne) as [-> _].
    by destruct (take_while is_space r).
Qed.

(** *** The substitution, line by line *)

Lemma re_sub_copy l t :
  nonl l ->
  re_sub date_match false 0 (l ++ nl :: t)
  = l ++ nl :: re_sub date_match true 0 t.
Proof.
  induction 1 as [|c l Hc Hl IH]; [done|].
  cbn [app re_sub date_match].
  destruct (N.eqb_spec c nl); [done|]. by rewrite IH.
Qed.

Lemma re_sub_copy_end l :
  nonl l -> re_sub date_match false 0 l = l.
Proof.
  induction 1 as [|c l Hc Hl IH]; [done|].
  cbn [re_sub date_match].
  destruct (N.eqb_spec c nl); [done|]. by rewrite IH.
Qed.

Lemma re_sub_pass u t b :
  nonl u -> b = false \/ u <> [] ->
  re_sub date_match b (length u) (u ++ t) = re_sub date_match false 0 t.
Proof.
  intros Hu. revert b. induction Hu as [|c u Hc Hu IH]; intros b Hb.
  - by destruct Hb as [->|?].
  - cbn [length app re_sub]. rewrite IH; [done|].
    left. by destruct (N.eqb_spec c nl).
Qed.

Lemma line_none l t :
  nonl l -> date_at (l ++ nl :: t) = None ->
  re_sub date_match true 0 (l ++ nl :: t)
  = l ++ nl :: re_sub date_match true 0 t.
Proof.
  intros Hl Hd. destruct Hl as [|c l Hc Hl].
  - cbn [app re_sub date_match] in *. by rewrite Hd.
  - cbn [app re_sub date_match] in *. rewrite Hd. cbn [option_map].
    destruct (N.eqb_spec c nl); [done|]. by rewrite re_sub_copy.
Qed.

Lemma line_some l t :
  nonl l -> date_at (l ++ nl :: t) = Some (length l) ->
  re_sub date_match true 0 (l ++ nl :: t)
  = replacement ++ nl :: re_sub date_match true 0 t.
Proof.
  intros Hl Hd. destruct Hl as [|c l Hc Hl].
  - cbn [app] in Hd. unfold date_at in Hd.
    destruct (startswith _ _); [|done]. by destruct (take_while _ _).
  - cbn [app re_sub date_match] in *. rewrite Hd. cbn [option_map length].
    replace (S (length l) - 1)%nat with (length l) by lia.
    rewrite re_sub_pass; [|done|].
    + done.
    + left. by destruct (N.eqb_spec c nl).
Qed.

Lemma last_none l :
  nonl l -> date_at l = None -> re_sub date_match true 0 l = l.
Proof.
  intros Hl Hd. destruct Hl as [|c l Hc Hl]; [done|].
  cbn [re_sub date_match]. rewrite Hd. cbn [option_map].
  destruct (N.eqb_spec c nl); [done|]. by rewrite re_sub_copy_end.
Qed.

Lemma last_some l :
  nonl l -> date_at l = Some (length l) ->
  re_sub date_match true 0 l = replacement.
Proof.
  intros Hl Hd. destruct Hl as [|c l Hc Hl]; [done|].
  cbn [re_sub date_match]. rewrite Hd. cbn [option_map length].
  replace (S (length l) - 1)%nat with (length l) by lia.
  rewrite <- (app_nil_r l) at 2.
  rewrite re_sub_pass; [by rewrite app_nil_r | done|].
  left. by destruct (N.eqb_spec c nl).
Qed.

Lemma sub_date_lines ls last_line :
  Forall (fun l => nonl l /\ in_line l) ls ->
  nonl last_line ->
  date_at last_line = None \/ date_at last_line = Some (length last_line) ->
  re_sub date_match true 0 (lines_text ls last_line)
  = lines_text (map new_line ls) (new_last last_line).
Proof.
  intros Hls Hlast Hd. unfold lines_text.
  induction Hls as [|l ls [Hl Hin] Hls IH]; cbn [map concat app].
  - unfold new_last. destruct Hd as [Hd|Hd]; rewrite Hd.
    + by apply last_none.
    + by apply last_some.
  - rewrite <- !app_assoc. cbn [app].
    pose proof (date_at_in_line l (concat (map (fun l => l ++ [nl]) ls)
                                   ++ last_line) Hl Hin) as Ht.
    unfold new_line. destruct Hin as [Hn|Hs].
    + rewrite Hn in *. rewrite line_none by done. by rewrite IH.
    + rewrite Hs in *. rewrite line_some by done. by rewrite IH.
Qed.

(** When every match of the pattern stays in its line, the text written
    is the text read with each matched line replaced by the date line
    and every other line as it was. *)
Theorem fix_date_line_by_line ls last_line :
  Forall (fun l => nonl l /\ in_line l) ls ->
  nonl last_line ->
  date_at last_line = None \/ date_at last_line = Some (length last_line) ->
  sub_date (lines_text ls last_line)
  = lines_text (map new_line ls) (new_last last_line).
Proof. apply sub_date_lines. Qed.

Lemma fix_date_line_by_line_witness :
  sub_date (lines_text [lit "title: a"; lit "date: 2020-01-01"; lit "date:x"]
              (lit "end"))
  = lines_text [lit "title: a"; lit "date:   2025-07-17 12:05:57 -0400";
                lit "date:x"] (lit "end").
Proof.
  apply (fix_date_line_by_line
           [lit "title: a"; lit "date: 2020-01-01"; lit "date:x"] (lit "end")).
  - repeat constructor; try done; vm_compute; reflexivity.
  - by repeat constructor.
  - left. vm_compute. reflexivity.
Defined.

(** *** A second run *)

Lemma first_line text :
  exists l, nonl l /\ (text = l \/ exists t, text = l ++ nl :: t).
Proof.
  induction text as [|c text (l & Hl & IH)].
  - exists []. split; [constructor | by left].
  - destruct (N.eqb_spec c nl) as [->|Hc].
    + exists []. split; [constructor|]. right. by exists text.
    + exists (c :: l). split; [by constructor|].
      destruct IH as [->|(t & ->)]; [by left | right; by exists t].
Qed.

Lemma take_while_nonl_q m :
  nonl (take_while (fun c => negb (c =? nl)) m).
Proof.
  induction m as [|c m IH]; simpl; [constructor|].
  destruct (N.eqb_spec c nl); simpl; [constructor | by constructor].
Qed.

Lemma drop_while_q_nl m :
  drop_while (fun c => negb (c =? nl)) m = []
  \/ exists t, drop_while (fun c => negb (c =? nl)) m = nl :: t.
Proof.
  induction m as [|c m IH]; simpl; [by left|].
  destruct (N.eqb_spec c nl) as [->|]; simpl; [right; by exists m | done].
Qed.

(** What a match looks like: it ends at the end of the text, or before a
    line end and after a character that is not a line end. *)
Lemma date_at_shape s len :
  date_at s = Some len ->
  exists u rest,
    s = u ++ rest /\ length u = len /\ u <> []
    /\ (rest = []
        \/ (exists t, rest = nl :: t)
           /\ exists u0 c, u = u0 ++ [c] /\ c <> nl).
Proof.
  unfold date_at. destruct (startswith (lit "date:") s) eqn:Hs; [|done].
  apply startswith_split in Hs. change (length (lit "date:")) with 5%nat in Hs.
  set (r := drop 5 s) in *.
  destruct (take_while is_space r) as [|w ws] eqn:Hw; [done|].
  intros [= <-]. set (m := drop_while is_space r).
  set (q := fun c => negb (c =? nl)).
  exists (lit "date:" ++ (w :: ws) ++ take_while q m), (drop_while q m).
  assert (Hsplit : s = (lit "date:" ++ (w :: ws) ++ take_while q m)
                       ++ drop_while q m).
  { rewrite <- !app_assoc, take_drop_while. unfold m.
    rewrite <- Hw, take_drop_while. exact Hs. }
  split; [exact Hsplit|]. split.
  { rewrite !length_app. cbn. lia. }
  split; [done|].
  pose proof (drop_while_q_nl m) as Hq. fold q in Hq.
  destruct Hq as [Hq|(t & Ht)]; [left; exact Hq|]. right.
  rewrite Ht. split; [by exists t|].
  destruct (take_while q m) as [|x xs] eqn:Hx using rev_ind.
  - exfalso. pose proof (take_drop_while q m) as E. rewrite Hx, Ht in E.
    cbn [app] in E. unfold m in E. symmetry in E.
    by apply drop_while_head in E.
  - clear IHxs. exists (lit "date:" ++ (w :: ws) ++ xs), x.
    split; [by rewrite <- !app_assoc|].
    pose proof (take_while_nonl_q m) as Hn. fold q in Hn. rewrite Hx in Hn.
    unfold nonl in Hn. apply Forall_app in Hn as [_ Hn]. by inversion Hn.
Qed.

Lemma re_sub_pass_any u t b :
  re_sub date_match b (length u) (u ++ t)
  = re_sub date_match
      (match last u with Some c => c =? nl | None => b end) 0 t.
Proof.
  revert b. induction u as [|c u IH]; intros b; [done|].
  cbn [length app re_sub]. rewrite IH. destruct u as [|d u]; [reflexivity|].
  change (last (c :: d :: u)) with (last (d :: u)).
  destruct (last (d :: u)) eqn:E; [reflexivity|]. by apply last_None in E.
Qed.

Lemma match_some u rest :
  date_at (u ++ rest) = Some (length u) -> u <> [] ->
  rest = []
  \/ (exists t, rest = nl :: t) /\ (exists u0 c, u = u0 ++ [c] /\ c <> nl) ->
  re_sub date_match true 0 (u ++ rest)
  = replacement
    ++ match rest with
       | [] => []
       | c :: t => c :: re_sub date_match true 0 t
       end.
Proof.
  intros Hd Hu Hrest. destruct u as [|c u]; [done|].
  cbn [app re_sub date_match] in *. rewrite Hd. cbn [option_map length].
  replace (S (length u) - 1)%nat with (length u) by lia.
  rewrite re_sub_pass_any. f_equal.
  destruct Hrest as [->|[(t & ->) (u0 & d & Hu0 & Hd')]]; [done|].
  assert (Hb : match last u with Some c0 => c0 =? nl | None => c =? nl end
               = false).
  { destruct u as [|x u] using rev_ind.
    - destruct u0; [|by destruct u0]. injection Hu0 as ->.
      by destruct (N.eqb_spec d nl).
    - rewrite last_snoc. rewrite app_comm_cons in Hu0.
      apply app_inj_tail in Hu0 as [_ ->]. by destruct (N.eqb_spec d nl). }
  rewrite Hb. reflexivity.
Qed.

Lemma replacement_settled : settled replacement.
Proof.
  split; [by repeat constructor|]. split; [right|]; vm_compute; reflexivity.
Qed.

Lemma sub_date_shape n : forall text,
  (length text <= n)%nat ->
  exists ls last_line,
    re_sub date_match true 0 text = lines_text ls last_line
    /\ Forall settled ls
    /\ nonl last_line
    /\ (date_at last_line = None
        \/ date_at last_line = Some (length last_line))
    /\ new_last last_line = last_line.
Proof.
  induction n as [|n IH]; intros text Hn.
  { destruct text; [|simpl in Hn; lia]. exists [], [].
    repeat split; [constructor.. | by left]. }
  destruct (date_at text) as [len|] eqn:Hd.
  - destruct (date_at_shape text len Hd) as (u & rest & -> & <- & Hu & Hrest).
    rewrite (match_some u rest Hd Hu Hrest).
    destruct rest as [|c t].
    + exists [], replacement. rewrite app_nil_r.
      repeat split; [constructor | by repeat constructor | by right].
    + destruct Hrest as [?|[(t' & [= -> ->]) _]]; [done|].
      destruct (IH t') as (ls & last_line & -> & Hls & Hlast).
      { rewrite length_app in Hn. destruct u; [done|]. simpl in Hn. lia. }
      exists (replacement :: ls), last_line.
      split; [unfold lines_text; cbn [map concat];
              by rewrite <- !app_assoc|].
      split; [constructor; [apply replacement_settled | done] | done].
  - destruct (first_line text) as (l & Hl & [->|(t & ->)]).
    + exists [], l. rewrite last_none by done.
      repeat split; [constructor | done | by left|].
      unfold new_last. by rewrite Hd.
    + rewrite line_none by done.
      destruct (IH t) as (ls & last_line & -> & Hls & Hlast).
      { rewrite length_app in Hn. simpl in Hn. lia. }
      exists (l :: ls), last_line.
      split; [unfold lines_text; cbn [map concat];
              by rewrite <- !app_assoc|].
      split; [|done]. constructor; [|done].
      apply date_at_none_line in Hd.
      repeat split; [done | by left|]. unfold new_line. by rewrite Hd.
Qed.

Lemma sub_date_idem text : sub_date (sub_date text) = sub_date text.
Proof.
  rewrite (sub_date_eq (sub_date text)), !(sub_date_eq text).
  destruct (sub_date_shape (length text) text (le_n _))
    as (ls & last_line & -> & Hls & Hnl & Hd & Hlast).
  rewrite sub_date_lines; [|
    eapply Forall_impl; [exact Hls | by intros l (? & ? & _)] | done | done].
  rewrite Hlast. f_equal.
  induction Hls as [|l ls (_ & _ & Hl) Hls IH]; [done|].
  cbn [map]. by rewrite Hl, IH.
Qed.

Lemma re_sub_no_cr s : no_cr s -> forall b k, no_cr (re_sub date_match b k s).
Proof.
  induction 1 as [|c s Hc Hs IH]; intros b k; [constructor|].
  cbn [re_sub]. destruct k; [|apply IH].
  destruct (date_match b (c :: s)) as [[repl len]|] eqn:E.
  - unfold date_match in E. destruct b; [|done].
    destruct (date_at (c :: s)); [|done]. injection E as <- <-.
    apply Forall_app. split; [by repeat constructor | apply IH].
  - constructor; [done | apply IH].
Qed.

(** A second run of the normalizer on a file it has written finds the
    text it would write equal to the text it reads: it writes nothing and
    prints that no date was found. *)
Theorem fix_date_twice raw report1 written :
  fix_date_in_file raw = (report1, Some written) ->
  fix_date_in_file written = (NotFound, None).
Proof.
  unfold fix_date_in_file.
  destruct (negb (str_eqb (sub_date (universal_newlines raw))
                    (universal_newlines raw))); [|done].
  intros [= _ <-].
  rewrite (universal_newlines_id (sub_date _))
    by apply re_sub_no_cr, universal_newlines_no_cr.
  rewrite sub_date_idem.
  unfold str_eqb. by rewrite bool_decide_eq_true_2.
Qed.

Lemma fix_date_twice_witness :
  fix_date_in_file (lit "date:   2025-07-17 12:05:57 -0400" ++ [nl])
  = (NotFound, None).
Proof.
  apply (fix_date_twice empty_date Changed). vm_compute. reflexivity.
Defined.

End FixDatesMore.

(** ** More on the importer *)

Module ImporterMore.

Import Samples PyFacts Automation ImporterFacts.

(** *** The search and the order *)

(** [find_first_markdown] gives the first path of the tree whose suffix,
    in lower case, is [.md] or [.markdown], and [None] when there is no
    such path. *)
Theorem find_first_markdown_first_match tree :
  match find_first_markdown tree with
  | Some p =>
      exists tree1 tree2,
        tree = tree1 ++ p :: tree2
        /\ Forall (fun q => has_markdown_suffix q = false) tree1
        /\ has_markdown_suffix p = true
  | None => Forall (fun q => has_markdown_suffix q = false) tree
  end.
Proof.
  induction tree as [|q tree IH]; cbn [find_first_markdown]; [constructor|].
  fold (has_markdown_suffix q). destruct (has_markdown_suffix q) eqn:E.
  - by exists [], tree.
  - destruct (find_first_markdown tree) as [p|].
    + destruct IH as (tree1 & tree2 & -> & H1 & H2).
      exists (q :: tree1), tree2. repeat split; [by constructor | done].
    + by constructor.
Qed.

Lemma insert_by_mtime_stable t z zs :
  List.filter (fun y => z_mtime y =? t) (insert_by_mtime z zs)
  = List.filter (fun y => z_mtime y =? t) (z :: zs).
Proof.
  induction zs as [|y zs IH]; [done|]. cbn [insert_by_mtime].
  destruct (N.leb_spec (z_mtime z) (z_mtime y)) as [Hle|Hlt]; [done|].
  cbn [List.filter] in *. rewrite IH.
  destruct (N.eqb_spec (z_mtime z) t) as [Hz|_]; [|done].
  destruct (N.eqb_spec (z_mtime y) t) as [Hy|_]; [lia | done].
Qed.

(** The batch of [main] holds every file of the directory whose name ends
    with [.zip], once, in the order of the modification times; archives
    of one modification time keep the order of the listing. *)
Theorem batch_order dir :
  let batch := sorted_by_mtime (filter is_zip dir) in
  Sorted older batch
  /\ batch ≡ₚ filter is_zip dir
  /\ forall t, List.filter (fun y => z_mtime y =? t) batch
               = List.filter (fun y => z_mtime y =? t) (filter is_zip dir).
Proof.
  cbv zeta. split; [apply sorted_by_mtime_sorted|].
  split; [apply sorted_by_mtime_perm|]. intros t.
  induction (filter is_zip dir) as [|z zs IH]; [done|].
  cbn [sorted_by_mtime foldr]. rewrite insert_by_mtime_stable.
  cbn [List.filter]. unfold sorted_by_mtime in IH. by rewrite IH.
Qed.

(** *** The scratch directory *)

(** Whatever the archive and however [process_zip] ends, with a post,
    with the warning or with an exception, the scratch directory it made
    is removed. *)
Theorem scratch_always_removed nfkd z date category w :
  scratch (fst (process_zip nfkd z date category w)) = scratch w.
Proof. apply process_zip_scratch. Qed.

(** *** An archive without a markdown document *)

(** An archive in whose tree no path has a markdown suffix is skipped:
    the batch goes on with the next archive, in a world that differs by
    the two lines printed only. *)
Theorem no_markdown_batch_continues nfkd z zs tree w :
  z_tree z = Some tree ->
  Forall (fun p => has_markdown_suffix p = false) tree ->
  process_all nfkd (z :: zs) w
  = process_all nfkd zs
      (World (posts w) (images w) (scratch w)
         ((printed w
           ++ [Processing (z_name z) (slugify nfkd (stem (z_name z)))])
          ++ [WarnNoMarkdown (z_name z)])).
Proof.
  intros Hz H. cbn [process_all].
  by rewrite (no_markdown_path_skipped nfkd z tree _ _ w Hz H).
Qed.

Lemma no_markdown_batch_continues_witness :
  process_all nfkd_latin1
    [Archive (lit "empty.zip") 1 (Some [Entry (lit "a.txt") true []]);
     good_zip] w0
  = process_all nfkd_latin1 [good_zip]
      (World ∅ ∅ 0
         [Processing (lit "empty.zip") (lit "empty");
          WarnNoMarkdown (lit "empty.zip")]).
Proof.
  apply (no_markdown_batch_continues nfkd_latin1
           (Archive (lit "empty.zip") 1 (Some [Entry (lit "a.txt") true []]))
           [good_zip] [Entry (lit "a.txt") true []] w0).
  - reflexivity.
  - repeat constructor.
Defined.

(** *** The images and the mapping *)

Lemma copy_image_stored slug new_name data w name :
  stored w slug name -> stored (copy_image slug new_name data w) slug name.
Proof.
  unfold stored, image_dir, copy_image. cbn [images]. intros H.
  rewrite lookup_insert_eq. cbn [from_option id].
  destruct (decide (new_name = name)) as [->|Hne].
  - rewrite lookup_insert_eq. by eexists.
  - by rewrite lookup_insert_ne.
Qed.

Lemma copy_image_stores slug new_name data w :
  stored (copy_image slug new_name data w) slug new_name.
Proof.
  unfold stored, image_dir, copy_image. cbn [images].
  rewrite lookup_insert_eq. cbn [from_option id]. rewrite lookup_insert_eq.
  by eexists.
Qed.

Lemma copy_images_sound slug imgs : forall mapping w,
  (forall k v, mapping !! k = Some v -> stored w slug v) ->
  let '(mapping1, w1) := copy_images slug imgs mapping w in
  (forall k v, mapping1 !! k = Some v -> stored w1 slug v)
  /\ (forall name, stored w slug name -> stored w1 slug name)
  /\ (forall k, is_Some (mapping !! k) -> is_Some (mapping1 !! k))
  /\ (forall p, In p imgs ->
        is_Some (mapping1 !! lower (e_name p))
        /\ is_Some (mapping1 !! lower (sanitize_img (e_name p)))).
Proof.
  induction imgs as [|p imgs IH]; intros mapping w Hm; cbn [copy_images].
  - split; [done|]. split; [done|]. split; [done|]. intros p [].
  - set (new_name := build_new_img_name slug (e_name p)).
    set (w' := copy_image slug new_name (e_data p) w).
    set (mapping' := <[lower (sanitize_img (e_name p)) := new_name]>
                       (<[lower (e_name p) := new_name]> mapping)).
    assert (Hm' : forall k v, mapping' !! k = Some v -> stored w' slug v).
    { intros k v. unfold mapping'.
      rewrite !lookup_insert. repeat case_decide.
      - intros [= <-]. apply copy_image_stores.
      - intros [= <-]. apply copy_image_stores.
      - intros Hk%Hm. by apply copy_image_stored. }
    specialize (IH mapping' w' Hm').
    destruct (copy_images slug imgs mapping' w') as [mapping1 w1].
    destruct IH as (H1 & H2 & H3 & H4).
    split; [exact H1|]. split; [|split].
    + intros name Hn. by apply H2, copy_image_stored.
    + intros k Hk. apply H3. unfold mapping'.
      rewrite !lookup_insert. by repeat case_decide.
    + intros q [<-|Hq]; [|by apply H4]. split.
      * apply H3. unfold mapping'. rewrite !lookup_insert.
        by repeat case_decide.
      * apply H3. unfold mapping'. rewrite lookup_insert_eq. by eexists.
Qed.

(** After the loop over the images every name in the mapping is the name
    of a file in the directory of the slug, so no rewritten reference
    points to a file that is not there; the two keys of every image are
    in the mapping, and the files the directory had are still in it. *)
Theorem mapping_names_are_stored slug imgs w :
  let '(mapping, w1) := copy_images slug imgs ∅ w in
  (forall k v, mapping !! k = Some v -> stored w1 slug v)
  /\ (forall name, stored w slug name -> stored w1 slug name)
  /\ (forall p, In p imgs ->
        is_Some (mapping !! lower (e_name p))
        /\ is_Some (mapping !! lower (sanitize_img (e_name p)))).
Proof.
  pose proof (copy_images_sound slug imgs ∅ w) as H.
  destruct (copy_images slug imgs ∅ w) as [mapping w1].
  destruct H as (H1 & H2 & _ & H4); [|done]. intros k v. by rewrite lookup_empty.
Qed.

(** *** What an archive leaves *)

Lemma copy_images_other slug imgs k : k <> slug -> forall mapping w,
  images (snd (copy_images slug imgs mapping w)) !! k = images w !! k.
Proof.
  intros Hk. induction imgs as [|p imgs IH]; intros mapping w; [done|].
  cbn [copy_images]. rewrite IH. unfold copy_image. cbn [images].
  by rewrite lookup_insert_ne.
Qed.

Lemma mkdir_images_stored slug w name :
  stored w slug name -> stored (mkdir_images slug w) slug name.
Proof.
  unfold stored, image_dir, mkdir_images.
  destruct (images w !! slug) eqn:E; [by rewrite E|].
  intros [x Hx]. cbn [from_option id] in Hx. by rewrite lookup_empty in Hx.
Qed.

Lemma mkdir_images_other slug w k :
  k <> slug -> images (mkdir_images slug w) !! k = images w !! k.
Proof.
  intros Hk. unfold mkdir_images. destruct (images w !! slug); [done|].
  cbn [images]. by rewrite lookup_insert_ne.
Qed.

Lemma mkdir_images_posts slug w : posts (mkdir_images slug w) = posts w.
Proof. unfold mkdir_images. by destruct (images w !! slug). Qed.

(** One archive writes at most one post, under the name of the date, a
    hyphen, the slug and [.markdown], and no post when it ends with an
    exception; it removes no image of its slug and touches no directory
    of images but that of its slug. *)
Theorem archive_writes_one_post nfkd z date category w :
  let slug := slugify nfkd (stem (z_name z)) in
  let '(w1, e) := process_zip nfkd z date category w in
  (posts w1 = posts w
   \/ e = None
      /\ exists text,
           posts w1
           = <[date ++ lit "-" ++ slug ++ lit ".markdown" := text]> (posts w))
  /\ (forall name, stored w slug name -> stored w1 slug name)
  /\ (forall k, k <> slug -> images w1 !! k = images w !! k).
Proof.
  cbv zeta. unfold process_zip, process_zip_body.
  set (slug := slugify nfkd (stem (z_name z))).
  set (w0 := mkdtemp (print (Processing (z_name z) slug) w)).
  destruct (z_tree z) as [tree|]; [|by repeat split; [left|..]].
  destruct (find_first_markdown tree) as [md_in|];
    [|by repeat split; [left|..]].
  pose proof (copy_images_posts slug (collect_images tree) ∅
                (mkdir_images slug w0)) as Hp.
  pose proof (fun k Hk => copy_images_other slug (collect_images tree) k Hk ∅
                            (mkdir_images slug w0)) as Ho.
  pose proof (copy_images_sound slug (collect_images tree) ∅
                (mkdir_images slug w0)) as Hs.
  destruct (copy_images slug (collect_images tree) ∅ (mkdir_images slug w0))
    as [mapping w2].
  cbn [snd] in Hp, Ho. rewrite mkdir_images_posts in Hp.
  destruct Hs as (_ & Hs & _); [intros k v; by rewrite lookup_empty|].
  assert (Hst : forall name, stored w slug name -> stored w2 slug name).
  { intros name H. by apply Hs, mkdir_images_stored. }
  assert (Hot : forall k, k <> slug -> images w2 !! k = images w !! k).
  { intros k Hk. by rewrite Ho, mkdir_images_other. }
  destruct (read_text md_in) as [err|md_text]; cbn [fst snd].
  - split; [by left|]. by split.
  - split; [|by split]. right. split; [done|].
    eexists. cbn [posts print rmtree write_post]. by rewrite Hp.
Qed.

(** *** References *)

Import ImageFacts.

Ltac absurd_match := solve [let H := fresh in intros H; discriminate H].

Tactic Notation "literal" ident(c) integer(n) :=
  destruct c as [|c]; [absurd_match|];
  do n (destruct c as [c|c|]; try absurd_match).

Lemma take_while_stop q a d x :
  Forall (fun c => q c = true) a -> q d = false ->
  take_while q (a ++ d :: x) = a /\ drop_while q (a ++ d :: x) = d :: x.
Proof.
  intros Ha Hd. induction Ha as [|c a Hc Ha [IH1 IH2]]; simpl.
  - by rewrite Hd.
  - by rewrite Hc, IH1, IH2.
Qed.

(** What [image_at] matches. *)
Lemma image_at_shape s alt src len :
  Spaces.image_at s = Some (alt, src, len) ->
  exists rest,
    s = md_ref alt src ++ rest /\ len = length (md_ref alt src)
    /\ src <> [].
Proof.
  unfold Spaces.image_at.
  destruct s as [|c1 s]; [absurd_match|]. literal c1 6.
  destruct s as [|c2 s1]; [absurd_match|]. literal c2 7.
  set (q := fun c => negb (c =? 93)).
  pose proof (take_drop_while q s1) as E1.
  destruct (drop_while q s1) as [|d1 r1]; [absurd_match|]. literal d1 7.
  destruct r1 as [|d2 s2]; [absurd_match|]. literal d2 6.
  set (q2 := fun c => negb (c =? 41)).
  pose proof (take_drop_while q2 s2) as E2.
  destruct (take_while q2 s2) as [|x xs] eqn:Ex; [absurd_match|].
  destruct (drop_while q2 s2) as [|d3 s3]; [absurd_match|]. literal d3 6.
  intros [= <- <- <-]. exists s3. unfold md_ref.
  change (lit "![") with [33; 91]. change (lit "](") with [93; 40].
  change (lit ")") with [41]. split; [|split; [|done]].
  - cbn [app]. rewrite <- E1 at 1. rewrite <- !app_assoc. cbn [app].
    rewrite <- E2 at 1. by rewrite <- !app_assoc.
  - rewrite !length_app. cbn [length]. lia.
Qed.

Lemma image_at_match alt src rest :
  Forall (fun c => c <> 93) alt -> src <> [] ->
  Forall (fun c => c <> 41) src ->
  Spaces.image_at (md_ref alt src ++ rest)
  = Some (alt, src, length (md_ref alt src)).
Proof.
  intros Ha Hne Hs. unfold md_ref.
  change (lit "![") with [33; 91]. change (lit "](") with [93; 40].
  change (lit ")") with [41]. rewrite <- !app_assoc. cbn [app].
  unfold Spaces.image_at.
  destruct (take_while_stop (fun c => negb (c =? 93)) alt 93
              (40 :: src ++ 41 :: rest)) as [-> ->]; [|done|].
  { eapply Forall_impl; [exact Ha|]. intros c Hc. cbv beta.
    by destruct (N.eqb_spec c 93). }
  destruct (take_while_stop (fun c => negb (c =? 41)) src 41 rest)
    as [-> ->]; [|done|].
  { eapply Forall_impl; [exact Hs|]. intros c Hc. cbv beta.
    by destruct (N.eqb_spec c 41). }
  destruct src; [done|]. do 2 f_equal.
  cbn [length]. rewrite length_app. cbn [length app].
  rewrite length_app. cbn [length]. lia.
Qed.

(** An inline reference after text in which no reference begins: the
    text before it stays; the reference gets the path of the stored
    image when its name is in the mapping, with the alt text it had, and
    stays as it is when the name is not in the mapping; the text after it
    is gone through in the same way. *)
Theorem markdown_reference_rewritten mapping slug pre alt src rest :
  Forall (fun c => c <> 33) pre ->
  Forall (fun c => c <> 93) alt ->
  src <> [] ->
  Forall (fun c => c <> 41) src ->
  replace_markdown_images (pre ++ md_ref alt src ++ rest) mapping slug
  = pre
    ++ match lookup_name mapping src with
       | Some new_fn => md_ref alt (templated slug new_fn)
       | None => md_ref alt src
       end
    ++ replace_markdown_images rest mapping slug.
Proof.
  intros Hpre Ha Hne Hs. rewrite replace_markdown_images_prefix by done.
  f_equal. unfold replace_markdown_images.
  pose proof (image_at_match alt src rest Ha Hne Hs) as Hm.
  assert (Hd : exists u, md_ref alt src = 33 :: u).
  { unfold md_ref. change (lit "![") with [33; 91]. by eexists. }
  destruct Hd as (u & Hu). rewrite Hu in *. cbn [app] in *.
  assert (Hf : md_img_at mapping slug (33 :: u ++ rest)
               = Some (match lookup_name mapping src with
                       | Some new_fn => md_ref alt (templated slug new_fn)
                       | None => 33 :: u
                       end, S (length u))).
  { unfold md_img_at. rewrite Hm. cbn [length].
    destruct (lookup_name mapping src); [done|].
    change (33 :: u ++ rest) with ((33 :: u) ++ rest).
    rewrite take_app_length'; done. }
  exact (re_sub_match (md_img_at mapping slug) 33 u rest _ true Hf).
Qed.

Lemma markdown_reference_rewritten_witness :
  replace_markdown_images
    (lit "see " ++ md_ref (lit "a [b") (lit " dir/Photo.PNG ") ++ lit " end")
    photo_mapping (lit "s")
  = lit "see "
    ++ md_ref (lit "a [b")
         (lit "{{ '/assets/images/s/s_photo.png' | relative_url }}")
    ++ lit " end".
Proof.
  apply (markdown_reference_rewritten photo_mapping (lit "s") (lit "see ")
           (lit "a [b") (lit " dir/Photo.PNG ") (lit " end")).
  - by repeat constructor.
  - by repeat constructor.
  - done.
  - by repeat constructor.
Defined.

Lemma src_search_cons c s off :
  src_search (c :: s) off
  = match (if not_gt c then src_search s (S off) else None) with
    | Some r => Some r
    | None =>
        match src_here (c :: s) with
        | Some (src, rest, len) => Some (src, rest, (off + len)%nat)
        | None => None
        end
    end.
Proof. reflexivity. Qed.

Lemma src_search_none s : forall off,
  no_src_before_gt s = true -> src_search s off = None.
Proof.
  induction s as [|c s IH]; intros off H; [done|].
  cbn [no_src_before_gt] in H. apply andb_prop in H as [H1 H2].
  apply negb_true_iff in H1. rewrite src_search_cons.
  assert (Hh : src_here (c :: s) = None) by (unfold src_here; by rewrite H1).
  rewrite Hh. destruct (not_gt c); [|done]. by rewrite IH.
Qed.

Section Tag.

Variables (q q2 : N) (src rest : str).
Hypothesis q_quote : is_quote q = true.
Hypothesis q2_quote : is_quote q2 = true.
Hypothesis src_not_empty : src <> [].
Hypothesis src_no_quote : Forall (fun c => not_quote c = true) src.
Hypothesis rest_no_gt : Forall (fun c => not_gt c = true) rest.

Lemma src_here_match t :
  src_here (lit "src=" ++ q :: src ++ q2 :: rest ++ lit ">" ++ t)
  = Some (src, rest, (length src + length rest + 7)%nat).
Proof.
  unfold src_here. change (lit "src=") with [115; 114; 99; 61].
  change (lit ">") with [62]. cbn [app].
  change (ci_startswith [115; 114; 99; 61]
            (115 :: 114 :: 99 :: 61 :: q :: src ++ q2 :: rest ++ 62 :: t))
    with true.
  cbn [drop]. rewrite q_quote.
  destruct (take_while_stop not_quote src q2 (rest ++ 62 :: t))
    as [-> ->]; [done|by unfold not_quote; rewrite q2_quote|].
  destruct (take_while_stop not_gt rest 62 t) as [-> ->]; [done..|].
  by destruct src.
Qed.

Lemma src_search_match before t off :
  Forall (fun c => not_gt c = true) before ->
  no_src_before_gt (lit "rc=" ++ q :: src ++ q2 :: rest ++ lit ">" ++ t)
  = true ->
  src_search (before ++ lit "src=" ++ q :: src ++ q2 :: rest ++ lit ">" ++ t)
    off
  = Some (src, rest,
          (off + length before + (length src + length rest + 7))%nat).
Proof.
  intros Hb Hn. revert off.
  induction Hb as [|c before Hc Hb IH]; intros off.
  - cbn [app length].
    pose proof (src_here_match t) as Hh.
    change (lit "src=" ++ q :: src ++ q2 :: rest ++ lit ">" ++ t)
      with (115 :: lit "rc=" ++ q :: src ++ q2 :: rest ++ lit ">" ++ t)
      in Hh |- *.
    rewrite src_search_cons, Hh, (src_search_none _ _ Hn).
    change (not_gt 115) with true. cbv iota. do 3 f_equal. lia.
  - cbn [app length]. rewrite src_search_cons, Hc, IH. do 3 f_equal. lia.
Qed.

Lemma img_tag_length w before :
  length (img_tag w before q src q2 rest)
  = (5 + length before + (length src + length rest + 7))%nat.
Proof.
  unfold img_tag. change (lit "<img") with [60; 105; 109; 103].
  change (lit "src=") with [115; 114; 99; 61]. change (lit ">") with [62].
  cbn [app length]. rewrite length_app. cbn [app length].
  rewrite length_app. cbn [length]. rewrite length_app. cbn [length]. lia.
Qed.

Lemma img_tag_app w before t :
  img_tag w before q src q2 rest ++ t
  = 60 :: 105 :: 109 :: 103 :: w
    :: before ++ lit "src=" ++ q :: src ++ q2 :: rest ++ lit ">" ++ t.
Proof.
  unfold img_tag. change (lit "<img") with [60; 105; 109; 103].
  change (lit "src=") with [115; 114; 99; 61]. cbn [app].
  do 5 f_equal. rewrite <- app_assoc. f_equal. cbn [app]. do 5 f_equal.
  rewrite <- app_assoc. f_equal. cbn [app]. f_equal.
  by rewrite <- app_assoc.
Qed.

Lemma html_img_at_match mapping slug w before t :
  is_space w = true ->
  Forall (fun c => not_gt c = true) before ->
  no_src_before_gt (lit "rc=" ++ q :: src ++ q2 :: rest ++ lit ">" ++ t)
  = true ->
  html_img_at mapping slug (img_tag w before q src q2 rest ++ t)
  = Some (match lookup_name mapping src with
          | Some new_fn =>
              lit "<img src=" ++ dq ++ templated slug new_fn ++ dq
              ++ rest ++ lit ">"
          | None => img_tag w before q src q2 rest
          end, length (img_tag w before q src q2 rest)).
Proof.
  intros Hw Hb Hn.
  pose proof (img_tag_length w before) as Hlen.
  pose proof (src_search_match before t 5 Hb Hn) as Hs.
  pose proof (img_tag_app w before t) as Ht.
  unfold html_img_at. rewrite Ht at 1.
  match goal with
  | |- context [ci_startswith (lit "<img") ?x] =>
      change (ci_startswith (lit "<img") x) with true
  end.
  rewrite Ht at 1. cbn [drop]. rewrite Hw, Hs, <- Hlen.
  destruct (lookup_name mapping src); [done|].
  by rewrite take_app_length.
Qed.

End Tag.

(** A tag with its [src] in quotes after text in which no tag begins,
    when there is no later "src=" for the pattern to take: the text
    before the tag stays; when the name of the image is in the mapping
    the tag is written anew with the path of the stored image, the
    attributes after [src] as they were and those before [src] dropped;
    when it is not, the tag stays as it is; the text after the tag is
    gone through in the same way. *)
Theorem html_reference_rewritten mapping slug pre w before q src q2 rest t :
  Forall (fun c => c <> 60) pre ->
  is_space w = true ->
  Forall (fun c => not_gt c = true) before ->
  is_quote q = true -> is_quote q2 = true ->
  src <> [] ->
  Forall (fun c => not_quote c = true) src ->
  Forall (fun c => not_gt c = true) rest ->
  no_src_before_gt (lit "rc=" ++ q :: src ++ q2 :: rest ++ lit ">" ++ t)
  = true ->
  replace_html_images (pre ++ img_tag w before q src q2 rest ++ t)
    mapping slug
  = pre
    ++ match lookup_name mapping src with
       | Some new_fn =>
           lit "<img src=" ++ dq ++ templated slug new_fn ++ dq
           ++ rest ++ lit ">"
       | None => img_tag w before q src q2 rest
       end
    ++ replace_html_images t mapping slug.
Proof.
  intros Hpre Hw Hb Hq Hq2 Hne Hs Hr Hn.
  rewrite replace_html_images_prefix by done. f_equal.
  pose proof (html_img_at_match q q2 src rest Hq Hq2 Hne Hs Hr
                mapping slug w before t Hw Hb Hn) as Hf.
  assert (Hd : exists u, img_tag w before q src q2 rest = 60 :: u).
  { unfold img_tag. change (lit "<img") with [60; 105; 109; 103].
    by eexists. }
  destruct Hd as (u & Hu). rewrite Hu in *. cbn [app length] in *.
  exact (re_sub_match (html_img_at mapping slug) 60 u t _ true Hf).
Qed.

Lemma html_reference_rewritten_witness :
  replace_html_images
    (lit "see " ++ img_tag 32 (lit "alt='x' ") 34 (lit "Photo.PNG") 39
                     (lit " width=3")
     ++ lit " end")
    photo_mapping (lit "s")
  = lit "see "
    ++ (lit "<img src=" ++ dq
        ++ lit "{{ '/assets/images/s/s_photo.png' | relative_url }}" ++ dq
        ++ lit " width=3" ++ lit ">")
    ++ lit " end".
Proof.
  apply (html_reference_rewritten photo_mapping (lit "s") (lit "see ") 32
           (lit "alt='x' ") 34 (lit "Photo.PNG") 39 (lit " width=3")
           (lit " end")).
  - by repeat constructor.
  - reflexivity.
  - by repeat constructor.
  - reflexivity.
  - reflexivity.
  - done.
  - by repeat constructor.
  - by repeat constructor.
  - reflexivity.
Defined.

(** *** Image names *)

Import SlugFacts.

Lemma img_base_img : img_base_ok (lit "img").
Proof.
  repeat split; try done.
  - repeat constructor.
  - by intros c [= <-].
  - by intros c [= <-].
Qed.

Lemma img_char c :
  not_alnum c = false \/ c = underscore ->
  c < 128 /\ c <> 37 /\ c <> 46 /\ c <> 47.
Proof.
  unfold not_alnum, underscore. intros [H| ->]; [|done]. bools; lia.
Qed.

Lemma in_img_exts e : in_exts e IMG_EXTS = true -> In e IMG_EXTS.
Proof.
  unfold in_exts. intros H. apply existsb_exists in H as (x & Hx & He).
  apply SpacesFacts.str_eqb_true in He. by subst.
Qed.

Lemma sanitize_img_shape_aux name :
  exists base ext,
    sanitize_img name = base ++ ext
    /\ img_base_ok base
    /\ In ext IMG_EXTS.
Proof.
  unfold sanitize_img.
  destruct (splitext (basename name)) as [base ext].
  eexists _, _. split; [reflexivity|]. split.
  - unfold or_else.
    match goal with
    | |- img_base_ok match ?b with _ => _ end =>
        destruct b as [|c o] eqn:E; [apply img_base_img|]; rewrite <- E
    end.
    repeat split.
    + by rewrite E.
    + apply Forall_strip_of, (sub_runs_chars not_alnum underscore).
    + apply norm_strip_of, (sub_runs_norm not_alnum underscore).
    + apply strip_of_head.
    + apply strip_of_last.
  - match goal with
    | |- In (if in_exts ?e _ then _ else _) _ =>
        destruct (in_exts e IMG_EXTS) eqn:E;
          [by apply in_img_exts | by left]
    end.
Qed.

(** The name [sanitize_img] gives is a base and a suffix: the base is not
    empty, holds ASCII letters, digits and underscores only, no two
    underscores side by side and none at its ends; the suffix is one of
    [IMG_EXTS]; so the name holds no slash and one dot. *)
Theorem sanitize_img_shape name :
  exists base ext,
    sanitize_img name = base ++ ext
    /\ img_base_ok base
    /\ In ext IMG_EXTS
    /\ Forall (fun c => c <> 47) (sanitize_img name)
    /\ length (List.filter (N.eqb 46) (sanitize_img name)) = 1%nat.
Proof.
  destruct (sanitize_img_shape_aux name) as (base & ext & E & Hb & Hin).
  exists base, ext. rewrite E. do 3 (split; [done|]).
  destruct Hb as (_ & Hch & _).
  assert (H1 : Forall (fun c => c <> 47) base).
  { eapply Forall_impl; [exact Hch|]. intros c Hc.
    by apply img_char in Hc as (_ & _ & _ & ?). }
  assert (H2 : List.filter (N.eqb 46) base = []).
  { clear -Hch. induction Hch as [|c b Hc Hb IH]; [done|].
    apply img_char in Hc as (_ & _ & Hc & _). cbn [List.filter].
    by rewrite (proj2 (N.eqb_neq 46 c)) by done. }
  rewrite List.filter_app, H2. cbn [IMG_EXTS In] in Hin.
  split; [apply Forall_app; split; [done|]|];
    destruct Hin as [<-|[<-|[<-|[<-|[<-|[]]]]]];
    try reflexivity; by repeat constructor.
Qed.

Lemma take_while_whole p s :
  Forall (fun c => p c = true) s -> take_while p s = s.
Proof. induction 1 as [|c s Hc Hs IH]; simpl; [done|]. by rewrite Hc, IH. Qed.

Lemma basename_plain s : Forall (fun c => c <> 47) s -> basename s = s.
Proof.
  intros H. unfold basename. rewrite take_while_whole, rev_involutive; [done|].
  apply Forall_rev. eapply Forall_impl; [exact H|].
  intros c Hc. cbv beta. by destruct (N.eqb_spec c 47).
Qed.

Lemma rfind_from_none c s : forall i,
  Forall (fun d => d <> c) s -> rfind_from c s i = None.
Proof.
  induction s as [|d s IH]; intros i H; [done|].
  apply Forall_cons in H as [Hd Hs]. cbn [rfind_from].
  rewrite IH by done. by destruct (N.eqb_spec d c).
Qed.

Lemma rfind_from_last c a e : forall i,
  Forall (fun d => d <> c) e ->
  rfind_from c (a ++ c :: e) i = Some (i + length a)%nat.
Proof.
  induction a as [|d a IH]; intros i He; cbn [app rfind_from length].
  - rewrite rfind_from_none, N.eqb_refl by done. f_equal. lia.
  - rewrite IH by done. f_equal. lia.
Qed.

Lemma splitext_plain base e :
  img_base_ok base ->
  Forall (fun d => d <> 46) e -> Forall (fun d => d <> 47) e ->
  splitext (base ++ 46 :: e) = (base, 46 :: e).
Proof.
  intros (Hne & Hch & _ & _ & _) H46 H47. unfold splitext, rfind.
  rewrite rfind_from_last by done. cbn [Nat.add].
  rewrite rfind_from_none.
  2:{ apply Forall_app. split; [|by constructor].
      eapply Forall_impl; [exact Hch|]. intros c Hc.
      by apply img_char in Hc as (_ & _ & _ & ?). }
  cbn [drop]. rewrite take_app_length, drop_app_length.
  destruct base as [|c base]; [done|].
  apply Forall_cons in Hch as [Hc _].
  apply img_char in Hc as (_ & _ & Hc & _).
  cbn [length Nat.sub drop app take forallb].
  by rewrite (proj2 (N.eqb_neq 46 c)) by done.
Qed.

Lemma unquote_plain s :
  Forall (fun c => c < 128 /\ c <> 37) s -> unquote s = s.
Proof.
  unfold unquote. induction 1 as [|c s [Hc1 Hc2] Hs IH]; [done|].
  cbn [unquote_toks].
  rewrite (proj2 (N.eqb_neq _ _) Hc2), (proj2 (N.ltb_lt _ _) Hc1).
  cbn [utf8_scan]. rewrite (proj2 (N.ltb_lt _ _) Hc1). cbn [map].
  by rewrite IH.
Qed.

Lemma sanitize_img_fixed base e :
  img_base_ok base ->
  Forall (fun d => d <> 46) e -> Forall (fun d => d <> 47) e ->
  lower (46 :: e) = 46 :: e ->
  in_exts (46 :: e) IMG_EXTS = true ->
  sanitize_img (base ++ 46 :: e) = base ++ 46 :: e.
Proof.
  intros Hb H46 H47 Hlow Hin. pose proof Hb as (Hne & Hch & Hnorm & Hh & Hl).
  unfold sanitize_img. rewrite basename_plain.
  2:{ apply Forall_app. split; [|by constructor].
      eapply Forall_impl; [exact Hch|]. intros c Hc.
      by apply img_char in Hc as (_ & _ & _ & ?). }
  rewrite splitext_plain by done.
  rewrite unquote_plain.
  2:{ eapply Forall_impl; [exact Hch|]. intros c Hc.
      by apply img_char in Hc as (? & ? & _ & _). }
  change (fun c => negb (is_alnum c)) with not_alnum.
  rewrite (sub_runs_fixed not_alnum underscore) by done.
  rewrite strip_of_id by done. rewrite Hlow, Hin.
  by destruct base.
Qed.

(** [sanitize_img] leaves a name it has given as it is. *)
Theorem sanitize_img_idempotent name :
  sanitize_img (sanitize_img name) = sanitize_img name.
Proof.
  destruct (sanitize_img_shape_aux name) as (base & ext & -> & Hb & Hin).
  cbn [IMG_EXTS In] in Hin.
  destruct Hin as [<-|[<-|[<-|[<-|[<-|[]]]]]];
    apply sanitize_img_fixed; try done; by repeat constructor.
Qed.

(** *** Archives without images *)

(** A substitution that puts the text of every match in its place gives
    the text back. *)
Lemma re_sub_same (f : list N -> option (list N * nat)) :
  (forall s r len,
     f s = Some (r, len) -> (0 < len <= length s)%nat /\ r = take len s) ->
  forall n s b, (length s <= n)%nat -> re_sub (fun _ => f) b 0 s = s.
Proof.
  intros Hf. induction n as [|n IH]; intros s b Hn.
  { destruct s; [done|]. cbn [length] in Hn. lia. }
  destruct s as [|c s]; [done|].
  destruct (f (c :: s)) as [[r len]|] eqn:E.
  - destruct (Hf _ _ _ E) as [[H1 H2] ->].
    destruct len as [|k]; [lia|]. cbn [length] in H2, Hn.
    assert (Hs : exists u t, s = u ++ t /\ length u = k).
    { exists (take k s), (drop k s). rewrite take_drop, length_take.
      split; [done|lia]. }
    destruct Hs as (u & t & -> & <-). rewrite length_app in Hn.
    rewrite (re_sub_match f c u t _ b E).
    rewrite IH by lia. cbn [take app]. by rewrite take_app_length.
  - cbn [re_sub]. rewrite E. f_equal. apply IH. cbn [length] in Hn. lia.
Qed.

Lemma lookup_name_empty src :
  lookup_name (∅ : gmap (list N) (list N)) src = None.
Proof. unfold lookup_name. by rewrite lookup_empty. Qed.

Lemma replace_markdown_images_empty text slug :
  replace_markdown_images text ∅ slug = text.
Proof.
  unfold replace_markdown_images.
  apply (re_sub_same (md_img_at ∅ slug)) with (n := length text); [|done].
  intros s r len. unfold md_img_at.
  destruct (Spaces.image_at s) as [[[alt src] l]|] eqn:E; [|done].
  rewrite lookup_name_empty. intros [= <- <-]. split; [|done].
  apply image_at_shape in E as (rest & -> & -> & _).
  rewrite length_app. unfold md_ref. change (lit "![") with [33; 91].
  cbn [app length]. lia.
Qed.

Lemma ci_startswith_length p s :
  ci_startswith p s = true -> (length p <= length s)%nat.
Proof.
  revert s. induction p as [|a p IH]; intros s; cbn [length]; [lia|].
  destruct s as [|c s]; [done|]. cbn [ci_startswith length].
  intros [_ H]%andb_prop. apply IH in H. lia.
Qed.

Lemma length_take_while p s : (length (take_while p s) <= length s)%nat.
Proof.
  rewrite <- (take_drop_while p s) at 2. rewrite length_app. lia.
Qed.

Lemma src_here_length s src rest len :
  src_here s = Some (src, rest, len) -> (0 < len <= length s)%nat.
Proof.
  unfold src_here.
  destruct (ci_startswith (lit "src=") s) eqn:E; [|done].
  apply ci_startswith_length in E. change (length (lit "src=")) with 4%nat in E.
  pose proof (length_drop s 4) as Hd.
  destruct (drop 4 s) as [|q s1]; [done|]. cbn [length] in Hd.
  destruct (is_quote q); [|done].
  pose proof (take_drop_while not_quote s1) as E1.
  destruct (take_while not_quote s1) as [|x xs]; [done|].
  destruct (drop_while not_quote s1) as [|d s2]; [done|].
  pose proof (take_drop_while not_gt s2) as E2.
  destruct (drop_while not_gt s2) as [|g s3]; [done|].
  intros [= <- <- <-].
  apply (f_equal length) in E1, E2. rewrite length_app in E1, E2.
  cbn [length] in *. lia.
Qed.

Lemma src_search_length s : forall off src rest len,
  src_search s off = Some (src, rest, len) ->
  (off < len <= off + length s)%nat.
Proof.
  induction s as [|c s IH]; intros off src rest len; [done|].
  rewrite src_search_cons.
  destruct (if not_gt c then src_search s (S off) else None)
    as [[[src1 rest1] len1]|] eqn:E.
  - intros [= <- <- <-]. destruct (not_gt c); [|done].
    apply IH in E. cbn [length]. lia.
  - destruct (src_here (c :: s)) as [[[src1 rest1] len1]|] eqn:Eh; [|done].
    intros [= <- <- <-]. apply src_here_length in Eh. lia.
Qed.

Lemma replace_html_images_empty text slug :
  replace_html_images text ∅ slug = text.
Proof.
  unfold replace_html_images.
  apply (re_sub_same (html_img_at ∅ slug)) with (n := length text); [|done].
  intros s r len. unfold html_img_at.
  destruct (ci_startswith (lit "<img") s) eqn:E; [|done].
  apply ci_startswith_length in E. change (length (lit "<img")) with 4%nat in E.
  pose proof (length_drop s 4) as Hd.
  destruct (drop 4 s) as [|w s1]; [done|]. cbn [length] in Hd.
  destruct (is_space w); [|done].
  destruct (src_search s1 5) as [[[src rest] l]|] eqn:Es; [|done].
  rewrite lookup_name_empty. intros [= <- <-]. split; [|done].
  apply src_search_length in Es. lia.
Qed.

(** With an empty mapping the two passes over the references leave every
    text as it is. *)
Theorem no_images_text_unchanged text slug :
  replace_html_images (replace_markdown_images text ∅ slug) ∅ slug = text.
Proof.
  by rewrite replace_markdown_images_empty, replace_html_images_empty.
Qed.

(** An archive with a markdown file that can be read and no image: it
    ends with no exception, and the post it writes is the front matter,
    with the stem of the name of the markdown file as title, and the
    text of the markdown file as it is. *)
Theorem archive_without_images nfkd z tree md_in md_text date category w :
  z_tree z = Some tree ->
  find_first_markdown tree = Some md_in ->
  collect_images tree = [] ->
  read_text md_in = inr md_text ->
  let slug := slugify nfkd (stem (z_name z)) in
  let '(w1, e) := process_zip nfkd z date category w in
  e = None
  /\ posts w1
     = <[date ++ lit "-" ++ slug ++ lit ".markdown"
         := front_matter (or_else (stem (e_name md_in)) slug) date category
            ++ md_text]> (posts w).
Proof.
  intros Ht Hm Hi Hr slug. unfold process_zip, process_zip_body.
  fold slug. cbn [z_tree]. rewrite Ht, Hm, Hi. cbn [copy_images].
  rewrite Hr, replace_markdown_images_empty, replace_html_images_empty.
  split; [done|]. cbn [rmtree print write_post posts].
  by rewrite mkdir_images_posts.
Qed.

Lemma archive_without_images_witness :
  let '(w1, e) := process_zip nfkd_latin1 good_zip POST_DATE POST_CATEGORY w0 in
  e = None
  /\ posts w1
     = <[POST_DATE ++ lit "-" ++ slugify nfkd_latin1 (stem (z_name good_zip))
         ++ lit ".markdown"
         := front_matter
              (or_else (stem (e_name (notes_entry (lit "hi"))))
                 (slugify nfkd_latin1 (stem (z_name good_zip))))
              POST_DATE POST_CATEGORY
            ++ lit "hi"]> (posts w0).
Proof.
  apply (archive_without_images nfkd_latin1 good_zip
           [notes_entry (lit "hi")] (notes_entry (lit "hi")) (lit "hi")
           POST_DATE POST_CATEGORY w0); reflexivity.
Defined.

End ImporterMore.
